(** * LibrandaClient: a shallow embedding of [src/index.js]

    The class [LibrandaClient] is embedded as explicit state passing over a
    record [World] that holds the fields of [this] together with the part of
    the JavaScript environment the class talks to: the transport instances it
    has created, the timers of the host, the object heap shared with the
    application, and a trace of the application code it has invoked.

    Methods that can throw are computations in a small state-and-exception
    monad [M]; a JavaScript [try]/[catch] is [try_catch].

    Application code (event handlers, ready callbacks, plugin initializers
    and cleanups) is not part of the class. It is represented by what it does
    to the client when it is called: an event handler may call unregister
    capabilities and may throw; the other callbacks run a script of calls on
    the client, which for a plugin are the calls its facade offers.
    Application code that calls [connect], [disconnect], [ready],
    [setMetadata] or the plugin methods from inside a callback, and handlers
    that register handlers while an event is dispatched, are outside the
    model.

    The values of the heap are [undefined], [null], booleans, integers,
    strings and plain objects with such properties. Values for which
    [JSON.stringify] does something of its own (a BigInt, an object with a
    [toJSON] method or with getters) are outside the model.

    The transport constructor of the host is taken to accept the URL of the
    client: [new_WebSocket] returns an instance. A host whose constructor
    rejects a URL is modelled by [new_WebSocket_in] and [connect_in].

    Text and time are abstracted. An inbound message is either text that
    [JSON.parse] rejects or the value it returns; an outbound frame is the
    value whose JSON text is written. A timer is pending from [setTimeout]
    until it fires or is cleared; the delay plays no role. *)

From Stdlib Require Import ZArith Lia.
From stdpp Require Import gmap strings list fin_maps.

Local Open Scope string_scope.
Local Open Scope list_scope.
Local Set Warnings "-register-all".

(** ** JavaScript values *)

(** Values that travel as JSON (inbound frames after [JSON.parse], outbound
    frames as [JSON.stringify] renders them), extended with [undefined] for
    the result of reading a property that is not there. *)
Inductive json : Type :=
| JUndefined
| JNull
| JBool (b : bool)
| JNum (n : Z)
| JStr (s : string)
| JArr (items : list json)
| JObj (fields : list (string * json)).

(** ToBoolean. *)
Definition truthy (v : json) : bool :=
  match v with
  | JUndefined | JNull => false
  | JBool b => b
  | JNum n => negb (n =? 0)%Z
  | JStr s => negb (String.eqb s "")
  | JArr _ | JObj _ => true
  end.

(** Exceptions raised by the class or passing through it. *)
Inductive exn : Type :=
| NotConnected                      (* Error("WebSocket is not connected") *)
| PluginWithoutId                   (* Error("Plugin must have an id property") *)
| PluginAlreadyRegistered (id : string)
| TypeError                         (* raised by the language itself *)
| SyntaxError                       (* raised by JSON.parse and by the transport constructor *)
| UserError.                        (* thrown by application code *)

Inductive result (A : Type) : Type :=
| Ok (a : A)
| Throw (e : exn).
Arguments Ok {A} a.
Arguments Throw {A} e.

Fixpoint assoc {A} (k : string) (l : list (string * A)) : option A :=
  match l with
  | [] => None
  | (k', v) :: rest => if String.eqb k k' then Some v else assoc k rest
  end.

(** Property read [v.k] for the property names the class reads
    ([namespace], [event], [data], [clientId]): reading from [undefined] or
    [null] throws, reading from an object gives the field or [undefined],
    and primitives and arrays have none of these properties. *)
Definition get_prop (v : json) (k : string) : result json :=
  match v with
  | JUndefined | JNull => Throw TypeError
  | JObj fields => Ok (default JUndefined (assoc k fields))
  | _ => Ok JUndefined
  end.

(** ** The object heap

    Objects handed to [setMetadata] and [send], and the objects the class
    creates with a spread, live in a heap; a property holds a primitive or a
    reference, so two objects can share a nested object. *)
Definition loc := nat.

Inductive val : Type :=
| VUndef
| VNull
| VBool (b : bool)
| VNum (n : Z)
| VStr (s : string)
| VRef (l : loc).

(** Own enumerable properties, in creation order. *)
Definition obj := list (string * val).

(** [o[k] = v]: an existing key keeps its position. *)
Fixpoint set_prop (o : obj) (k : string) (v : val) : obj :=
  match o with
  | [] => [(k, v)]
  | (k', v') :: rest =>
      if String.eqb k k' then (k', v) :: rest else (k', v') :: set_prop rest k v
  end.

(** [{...a, ...b}]: the properties of [a], then those of [b] written over
    them. *)
Definition spread (a b : obj) : obj :=
  fold_left (fun acc kv => set_prop acc kv.1 kv.2) b a.

Definition props_of (h : gmap loc obj) (l : loc) : obj := default [] (h !! l).

(** [JSON.stringify] on the values of the heap. An [undefined] property is
    left out; an object that contains itself makes it throw. [depth] bounds the nesting: a chain of
    more distinct objects than the heap holds does not exist, so running out
    of depth means a cycle. *)
Fixpoint stringify_props (rec : val -> option (option json)) (o : obj)
  : option (list (string * json)) :=
  match o with
  | [] => Some []
  | (k, v) :: rest =>
      match rec v with
      | None => None
      | Some None => stringify_props rec rest
      | Some (Some j) =>
          match stringify_props rec rest with
          | None => None
          | Some fs => Some ((k, j) :: fs)
          end
      end
  end.

Fixpoint stringify_val (depth : nat) (h : gmap loc obj) (v : val) {struct depth}
  : option (option json) :=
  match v with
  | VUndef => Some None
  | VNull => Some (Some JNull)
  | VBool b => Some (Some (JBool b))
  | VNum n => Some (Some (JNum n))
  | VStr s => Some (Some (JStr s))
  | VRef l =>
      match depth with
      | O => None
      | S d =>
          match stringify_props (stringify_val d h) (props_of h l) with
          | None => None
          | Some fs => Some (Some (JObj fs))
          end
      end
  end.

(** ** Application code

    Callbacks are function references; the class compares them by identity
    (a [Set] of callbacks) and calls them. What a callback does to the class
    when called is its behaviour. *)
Definition cbid := nat.

(** An event handler can call unregister capabilities returned by
    [registerEvent] (each named by the registration it came from) and can
    throw. *)
Record HandlerBehaviour : Type := {
  unregisters : list (string * string * cbid);
  throws : bool
}.

(** A ready callback, a plugin initializer and a plugin cleanup run a script
    of calls on the client (for a plugin: on the facade it was given). *)
Inductive ClientCall : Type :=
| CSend (namespace event : string) (data : option loc)
| CRegisterEvent (namespace event : string) (callback : cbid)
| CUnregisterEvent (namespace event : string) (callback : cbid)
| CThrow.

Record UserCode : Type := {
  handler_body : cbid -> json -> HandlerBehaviour;
  ready_body : cbid -> json -> list ClientCall
}.

(** A plugin object: [typeof plugin.initialize === "function"] is [Some]. *)
Record Plugin : Type := {
  plugin_id : option string;
  initialize : option (list ClientCall);
  cleanup : option (list ClientCall)
}.

(** ** Transport instances and timers *)

Inductive ReadyState : Type := CONNECTING | OPEN | CLOSING | CLOSED.

Global Instance ReadyState_eq_dec : EqDecision ReadyState.
Proof. solve_decision. Defined.

Record Socket : Type := {
  sock_url : string;
  readyState : ReadyState;
  sent : list json            (* frames written with ws.send, oldest first *)
}.

(** What the class has called in application code. *)
Inductive Invocation : Type :=
| CallHandler (namespace event : string) (callback : cbid) (data : json)
| CallReady (callback : cbid) (clientId : json)
| CallInitialize (plugin : string)
| CallCleanup (plugin : string).

(** [console.error] lines. *)
Inductive LogLine : Type :=
| LogParseFailure (e : exn)
| LogHandlerError (namespace event : string) (e : exn)
| LogCleanupError (plugin : string) (e : exn).

(** ** The state *)

Record World : Type := {
  (* fields of [this] *)
  url : string;
  autoReconnect : bool;
  reconnectInterval : Z;
  eventHandlers : gmap string (gmap string (list (option cbid)));
  ws : option nat;                      (* index into [sockets]; None is null *)
  isConnecting : bool;
  reconnectTimer : option nat;          (* a timer handle; None is null *)
  clientId : json;
  metadata : loc;
  onReady : option cbid;
  plugins : list (string * Plugin);     (* a Map, in insertion order *)
  (* the environment *)
  sockets : list Socket;                (* every transport instance created *)
  pending : list nat;                   (* timers armed, not fired nor cleared *)
  next_timer : nat;
  heap : gmap loc obj;
  calls : list Invocation;
  console : list LogLine
}.

Definition with_autoReconnect (b : bool) (w : World) : World :=
  {| url := url w; autoReconnect := b; reconnectInterval := reconnectInterval w;
     eventHandlers := eventHandlers w; ws := ws w; isConnecting := isConnecting w;
     reconnectTimer := reconnectTimer w; clientId := clientId w;
     metadata := metadata w; onReady := onReady w; plugins := plugins w;
     sockets := sockets w; pending := pending w; next_timer := next_timer w;
     heap := heap w; calls := calls w; console := console w |}.

Definition with_eventHandlers (eh : gmap string (gmap string (list (option cbid))))
    (w : World) : World :=
  {| url := url w; autoReconnect := autoReconnect w;
     reconnectInterval := reconnectInterval w;
     eventHandlers := eh; ws := ws w; isConnecting := isConnecting w;
     reconnectTimer := reconnectTimer w; clientId := clientId w;
     metadata := metadata w; onReady := onReady w; plugins := plugins w;
     sockets := sockets w; pending := pending w; next_timer := next_timer w;
     heap := heap w; calls := calls w; console := console w |}.

Definition with_ws (x : option nat) (w : World) : World :=
  {| url := url w; autoReconnect := autoReconnect w;
     reconnectInterval := reconnectInterval w;
     eventHandlers := eventHandlers w; ws := x; isConnecting := isConnecting w;
     reconnectTimer := reconnectTimer w; clientId := clientId w;
     metadata := metadata w; onReady := onReady w; plugins := plugins w;
     sockets := sockets w; pending := pending w; next_timer := next_timer w;
     heap := heap w; calls := calls w; console := console w |}.

Definition with_isConnecting (b : bool) (w : World) : World :=
  {| url := url w; autoReconnect := autoReconnect w;
     reconnectInterval := reconnectInterval w;
     eventHandlers := eventHandlers w; ws := ws w; isConnecting := b;
     reconnectTimer := reconnectTimer w; clientId := clientId w;
     metadata := metadata w; onReady := onReady w; plugins := plugins w;
     sockets := sockets w; pending := pending w; next_timer := next_timer w;
     heap := heap w; calls := calls w; console := console w |}.

Definition with_reconnectTimer (t : option nat) (w : World) : World :=
  {| url := url w; autoReconnect := autoReconnect w;
     reconnectInterval := reconnectInterval w;
     eventHandlers := eventHandlers w; ws := ws w; isConnecting := isConnecting w;
     reconnectTimer := t; clientId := clientId w;
     metadata := metadata w; onReady := onReady w; plugins := plugins w;
     sockets := sockets w; pending := pending w; next_timer := next_timer w;
     heap := heap w; calls := calls w; console := console w |}.

Definition with_clientId (v : json) (w : World) : World :=
  {| url := url w; autoReconnect := autoReconnect w;
     reconnectInterval := reconnectInterval w;
     eventHandlers := eventHandlers w; ws := ws w; isConnecting := isConnecting w;
     reconnectTimer := reconnectTimer w; clientId := v;
     metadata := metadata w; onReady := onReady w; plugins := plugins w;
     sockets := sockets w; pending := pending w; next_timer := next_timer w;
     heap := heap w; calls := calls w; console := console w |}.

Definition with_metadata (l : loc) (w : World) : World :=
  {| url := url w; autoReconnect := autoReconnect w;
     reconnectInterval := reconnectInterval w;
     eventHandlers := eventHandlers w; ws := ws w; isConnecting := isConnecting w;
     reconnectTimer := reconnectTimer w; clientId := clientId w;
     metadata := l; onReady := onReady w; plugins := plugins w;
     sockets := sockets w; pending := pending w; next_timer := next_timer w;
     heap := heap w; calls := calls w; console := console w |}.

Definition with_onReady (c : option cbid) (w : World) : World :=
  {| url := url w; autoReconnect := autoReconnect w;
     reconnectInterval := reconnectInterval w;
     eventHandlers := eventHandlers w; ws := ws w; isConnecting := isConnecting w;
     reconnectTimer := reconnectTimer w; clientId := clientId w;
     metadata := metadata w; onReady := c; plugins := plugins w;
     sockets := sockets w; pending := pending w; next_timer := next_timer w;
     heap := heap w; calls := calls w; console := console w |}.

Definition with_plugins (ps : list (string * Plugin)) (w : World) : World :=
  {| url := url w; autoReconnect := autoReconnect w;
     reconnectInterval := reconnectInterval w;
     eventHandlers := eventHandlers w; ws := ws w; isConnecting := isConnecting w;
     reconnectTimer := reconnectTimer w; clientId := clientId w;
     metadata := metadata w; onReady := onReady w; plugins := ps;
     sockets := sockets w; pending := pending w; next_timer := next_timer w;
     heap := heap w; calls := calls w; console := console w |}.

Definition with_sockets (ss : list Socket) (w : World) : World :=
  {| url := url w; autoReconnect := autoReconnect w;
     reconnectInterval := reconnectInterval w;
     eventHandlers := eventHandlers w; ws := ws w; isConnecting := isConnecting w;
     reconnectTimer := reconnectTimer w; clientId := clientId w;
     metadata := metadata w; onReady := onReady w; plugins := plugins w;
     sockets := ss; pending := pending w; next_timer := next_timer w;
     heap := heap w; calls := calls w; console := console w |}.

Definition with_timers (ts : list nat) (n : nat) (w : World) : World :=
  {| url := url w; autoReconnect := autoReconnect w;
     reconnectInterval := reconnectInterval w;
     eventHandlers := eventHandlers w; ws := ws w; isConnecting := isConnecting w;
     reconnectTimer := reconnectTimer w; clientId := clientId w;
     metadata := metadata w; onReady := onReady w; plugins := plugins w;
     sockets := sockets w; pending := ts; next_timer := n;
     heap := heap w; calls := calls w; console := console w |}.

Definition with_heap (h : gmap loc obj) (w : World) : World :=
  {| url := url w; autoReconnect := autoReconnect w;
     reconnectInterval := reconnectInterval w;
     eventHandlers := eventHandlers w; ws := ws w; isConnecting := isConnecting w;
     reconnectTimer := reconnectTimer w; clientId := clientId w;
     metadata := metadata w; onReady := onReady w; plugins := plugins w;
     sockets := sockets w; pending := pending w; next_timer := next_timer w;
     heap := h; calls := calls w; console := console w |}.

Definition with_calls (cs : list Invocation) (w : World) : World :=
  {| url := url w; autoReconnect := autoReconnect w;
     reconnectInterval := reconnectInterval w;
     eventHandlers := eventHandlers w; ws := ws w; isConnecting := isConnecting w;
     reconnectTimer := reconnectTimer w; clientId := clientId w;
     metadata := metadata w; onReady := onReady w; plugins := plugins w;
     sockets := sockets w; pending := pending w; next_timer := next_timer w;
     heap := heap w; calls := cs; console := console w |}.

Definition with_console (ls : list LogLine) (w : World) : World :=
  {| url := url w; autoReconnect := autoReconnect w;
     reconnectInterval := reconnectInterval w;
     eventHandlers := eventHandlers w; ws := ws w; isConnecting := isConnecting w;
     reconnectTimer := reconnectTimer w; clientId := clientId w;
     metadata := metadata w; onReady := onReady w; plugins := plugins w;
     sockets := sockets w; pending := pending w; next_timer := next_timer w;
     heap := heap w; calls := calls w; console := ls |}.

(** ** The monad of methods: state, and exceptions that keep the state *)

Definition M (A : Type) : Type := World -> result A * World.

Definition ret {A} (a : A) : M A := fun w => (Ok a, w).

Definition throw {A} (e : exn) : M A := fun w => (Throw e, w).

Definition bind {A B} (m : M A) (f : A -> M B) : M B :=
  fun w =>
    match m w with
    | (Ok a, w') => f a w'
    | (Throw e, w') => (Throw e, w')
    end.

Definition try_catch {A} (m : M A) (handler : exn -> M A) : M A :=
  fun w =>
    match m w with
    | (Ok a, w') => (Ok a, w')
    | (Throw e, w') => handler e w'
    end.

Definition get : M World := fun w => (Ok w, w).

Definition modify (f : World -> World) : M unit := fun w => (Ok tt, f w).

Global Instance M_ret : MRet M := @ret.
Global Instance M_bind : MBind M := fun A B f m => bind m f.

Definition record_call (c : Invocation) : M unit :=
  modify (fun w => with_calls (calls w ++ [c]) w).

Definition console_error (l : LogLine) : M unit :=
  modify (fun w => with_console (console w ++ [l]) w).

(** ** The transport and the timers of the host *)

Definition socket_state (w : World) (i : nat) : option ReadyState :=
  readyState <$> sockets w !! i.

Definition set_readyState (st : ReadyState) (s : Socket) : Socket :=
  {| sock_url := sock_url s; readyState := st; sent := sent s |}.

Definition push_frame (frame : json) (s : Socket) : Socket :=
  {| sock_url := sock_url s; readyState := readyState s; sent := sent s ++ [frame] |}.

(** [new WebSocketImpl(url)]: a fresh instance, connecting. *)
Definition new_WebSocket (u : string) : M nat :=
  fun w =>
    (Ok (length (sockets w)),
     with_sockets (sockets w ++ [{| sock_url := u; readyState := CONNECTING; sent := [] |}]) w).


(** [ws.send(text)]. *)
Definition ws_send (i : nat) (frame : json) : M unit :=
  modify (fun w => with_sockets (alter (push_frame frame) i (sockets w)) w).

(** [ws.close()]: starts the closing handshake of a transport that is not
    closed yet; the close event comes later. *)
Definition ws_close (i : nat) : M unit :=
  modify (fun w =>
    with_sockets
      (alter (fun s => match readyState s with
                       | CONNECTING | OPEN => set_readyState CLOSING s
                       | _ => s
                       end) i (sockets w)) w).

(** [setTimeout(f, delay)] returns a fresh handle; [clearTimeout] disarms. *)
Definition setTimeout : M nat :=
  fun w => (Ok (next_timer w),
            with_timers (pending w ++ [next_timer w]) (S (next_timer w)) w).

Definition clearTimeout (t : nat) : M unit :=
  modify (fun w =>
    with_timers (filter (fun t' => t' <> t) (pending w)) (next_timer w) w).

(** [{ ...props }] as a new object. *)
Definition alloc (o : obj) : M loc :=
  fun w =>
    let l := fresh (dom (heap w)) in
    (Ok l, with_heap (<[l := o]> (heap w)) w).

(** ** The event registry: [Map(namespace -> Map(event -> Set(callback)))]

    A [Set] is its list of entries in insertion order, where [delete] leaves
    a hole and [add] appends: an iterator is an index into this list, so it
    sees the deletions and additions made while it runs. *)

Definition set_add (cb : cbid) (entries : list (option cbid)) : list (option cbid) :=
  if decide (Some cb ∈ entries) then entries else entries ++ [Some cb].

Definition set_delete (cb : cbid) (entries : list (option cbid)) : list (option cbid) :=
  (fun e => if decide (e = Some cb) then None else e) <$> entries.

(** The callbacks in a set, in iteration order. *)
Definition set_members (entries : list (option cbid)) : list cbid :=
  omap id entries.

(** The entries of the set for a pair, empty when there is none. *)
Definition callbacks_of (eh : gmap string (gmap string (list (option cbid))))
    (namespace event : string) : list (option cbid) :=
  default [] (eh !! namespace ≫= fun m => m !! event).

Definition registerEvent (namespace event : string) (callback : cbid) : M unit :=
  modify (fun w =>
    let handlers :=
      match eventHandlers w !! namespace with
      | None => <[namespace := ∅]> (eventHandlers w)
      | Some _ => eventHandlers w
      end in
    let namespaceHandlers := default ∅ (handlers !! namespace) in
    let namespaceHandlers' :=
      match namespaceHandlers !! event with
      | None => <[event := []]> namespaceHandlers
      | Some _ => namespaceHandlers
      end in
    let eventCallbacks := default [] (namespaceHandlers' !! event) in
    with_eventHandlers
      (<[namespace := <[event := set_add callback eventCallbacks]> namespaceHandlers']>
         handlers) w).

(** The capability [() => eventCallbacks.delete(callback)] returned by
    [registerEvent namespace event callback]. The set it closes over is the
    one stored for the pair: sets are created once and never replaced. *)
Definition unregisterEvent (namespace event : string) (callback : cbid) : M unit :=
  modify (fun w =>
    match eventHandlers w !! namespace with
    | None => w
    | Some namespaceHandlers =>
        match namespaceHandlers !! event with
        | None => w
        | Some eventCallbacks =>
            with_eventHandlers
              (<[namespace := <[event := set_delete callback eventCallbacks]>
                                namespaceHandlers]> (eventHandlers w)) w
        end
    end).

(** ** Sending *)

Definition isConnected (w : World) : bool :=
  match ws w with
  | None => false
  | Some i => bool_decide (socket_state w i = Some OPEN)
  end.

(** The object [{ ...data, metadata: this.metadata }] of [send]; [data]
    defaults to [{}]. *)
Definition send_payload (w : World) (data : option loc) : obj :=
  set_prop (spread [] (from_option (props_of (heap w)) [] data))
           "metadata" (VRef (metadata w)).

(** [JSON.stringify] of the frame [{ namespace, event, data: payload }]. *)
Definition stringify_frame (w : World) (namespace event : string) (payload : obj)
  : option json :=
  fs ← stringify_props (stringify_val (size (heap w)) (heap w)) payload;
  Some (JObj [("namespace", JStr namespace); ("event", JStr event); ("data", JObj fs)]).

Definition send (namespace event : string) (data : option loc) : M unit :=
  w ← get;
  match ws w with
  | None => throw NotConnected
  | Some i =>
      if negb (bool_decide (socket_state w i = Some OPEN)) then throw NotConnected
      else
        match stringify_frame w namespace event (send_payload w data) with
        | None => throw TypeError
        | Some frame => ws_send i frame
        end
  end.

(** ** Metadata *)

Definition setMetadata (metadata_arg : loc) : M unit :=
  w ← get;
  l ← alloc (spread (spread [] (props_of (heap w) (metadata w)))
                    (props_of (heap w) metadata_arg));
  modify (with_metadata l).

Definition getMetadata : M loc :=
  w ← get;
  alloc (spread [] (props_of (heap w) (metadata w))).

(** ** Running application code *)

Section Client.

Variable U : UserCode.

Fixpoint run_script (script : list ClientCall) : M unit :=
  match script with
  | [] => mret tt
  | CSend ns ev data :: rest => send ns ev data;; run_script rest
  | CRegisterEvent ns ev cb :: rest => registerEvent ns ev cb;; run_script rest
  | CUnregisterEvent ns ev cb :: rest => unregisterEvent ns ev cb;; run_script rest
  | CThrow :: _ => throw UserError
  end.

Fixpoint run_unregisters (l : list (string * string * cbid)) : M unit :=
  match l with
  | [] => mret tt
  | (ns, ev, cb) :: rest => unregisterEvent ns ev cb;; run_unregisters rest
  end.

(** [callback(data)] for an event handler. *)
Definition call_handler (namespace event : string) (callback : cbid) (data : json)
  : M unit :=
  record_call (CallHandler namespace event callback data);;
  run_unregisters (unregisters (handler_body U callback data));;
  if throws (handler_body U callback data) then throw UserError else mret tt.

(** [callback(clientId)] for a ready callback. *)
Definition call_ready (callback : cbid) (id : json) : M unit :=
  record_call (CallReady callback id);;
  run_script (ready_body U callback id).

(** ** Dispatch *)

(** [for (const callback of eventCallbacks) { try { callback(data) } catch ... }]
    from position [i] on. Handlers only delete, so the list of entries keeps
    its length and [steps], the number of entries left, ends the loop exactly
    when the iterator does. *)
Fixpoint for_of_callbacks (steps i : nat) (namespace event : string) (data : json)
  : M unit :=
  match steps with
  | O => mret tt
  | S k =>
      w ← get;
      match callbacks_of (eventHandlers w) namespace event !! i with
      | None => mret tt
      | Some None => for_of_callbacks k (S i) namespace event data
      | Some (Some callback) =>
          try_catch (call_handler namespace event callback data)
                    (fun err => console_error (LogHandlerError namespace event err));;
          for_of_callbacks k (S i) namespace event data
      end
  end.

Definition _handleEvent (namespace event : string) (data : json) : M unit :=
  w ← get;
  match eventHandlers w !! namespace with
  | None => mret tt
  | Some namespaceHandlers =>
      match namespaceHandlers !! event with
      | None => mret tt
      | Some eventCallbacks =>
          for_of_callbacks (length eventCallbacks) 0 namespace event data
      end
  end.

(** [_handleEvent] on the values of an inbound frame: the registry has
    string keys only, so any other key finds no handlers. *)
Definition handle_frame (namespace event data : json) : M unit :=
  match namespace, event with
  | JStr ns, JStr ev => _handleEvent ns ev data
  | _, _ => mret tt
  end.

(** ** Identity *)

Definition ready (callback : cbid) : M unit :=
  w ← get;
  if truthy (clientId w) then call_ready callback (clientId w)
  else modify (with_onReady (Some callback)).

Definition getId (w : World) : json := clientId w.

(** ** Plugins *)

Definition registerPlugin (plugin : Plugin) : M unit :=
  match plugin_id plugin with
  | None => throw PluginWithoutId
  | Some id =>
      if String.eqb id "" then throw PluginWithoutId
      else
        w ← get;
        match assoc id (plugins w) with
        | Some _ => throw (PluginAlreadyRegistered id)
        | None =>
            modify (fun w => with_plugins (plugins w ++ [(id, plugin)]) w);;
            match initialize plugin with
            | Some script => record_call (CallInitialize id);; run_script script
            | None => mret tt
            end
        end
  end.

Definition unregisterPlugin (pluginId : string) : M unit :=
  w ← get;
  match assoc pluginId (plugins w) with
  | None => mret tt
  | Some plugin =>
      match cleanup plugin with
      | Some script =>
          try_catch (record_call (CallCleanup pluginId);; run_script script)
                    (fun err => console_error (LogCleanupError pluginId err))
      | None => mret tt
      end;;
      modify (fun w =>
        with_plugins (filter (fun p => p.1 ≠ pluginId) (plugins w)) w)
  end.

Definition getPlugins (w : World) : list Plugin := (plugins w).*2.

(** [for (const [pluginId] of this.plugins) this.unregisterPlugin(pluginId)].
    A cleanup script has no call that touches the plugin map, so the keys
    the iterator meets are the keys present when the loop starts. *)
Fixpoint for_of_plugins (ids : list string) : M unit :=
  match ids with
  | [] => mret tt
  | pluginId :: rest => unregisterPlugin pluginId;; for_of_plugins rest
  end.

(** ** Connection lifecycle *)

Definition connect : M unit :=
  w ← get;
  if match ws w with
     | Some i => bool_decide (socket_state w i = Some CONNECTING)
                 || bool_decide (socket_state w i = Some OPEN)
     | None => false
     end
  then mret tt
  else if isConnecting w then mret tt
  else
    modify (with_isConnecting true);;
    i ← new_WebSocket (url w);
    modify (with_ws (Some i)).


Definition onopen : M unit :=
  modify (with_isConnecting false);;
  w ← get;
  match reconnectTimer w with
  | Some t => clearTimeout t;; modify (with_reconnectTimer None)
  | None => mret tt
  end;;
  _handleEvent "system" "connected" JNull.

Definition onclose : M unit :=
  modify (with_isConnecting false);;
  modify (with_clientId JNull);;
  _handleEvent "system" "disconnected" JNull;;
  w ← get;
  if autoReconnect w then
    t ← setTimeout;
    modify (with_reconnectTimer (Some t))
  else mret tt.

Definition onerror (error : json) : M unit :=
  _handleEvent "system" "error" error.

(** The text of an inbound message, as [JSON.parse] sees it. *)
Inductive Payload : Type :=
| Unparseable
| Parsed (message : json).

Definition JSON_parse (p : Payload) : M json :=
  match p with
  | Unparseable => throw SyntaxError
  | Parsed message => mret message
  end.

Definition read (v : json) (k : string) : M json :=
  match get_prop v k with
  | Ok x => mret x
  | Throw e => throw e
  end.

Definition is_string (v : json) (s : string) : bool :=
  match v with
  | JStr s' => String.eqb s' s
  | _ => false
  end.

Definition onmessage (event_data : Payload) : M unit :=
  try_catch
    (message ← JSON_parse event_data;
     namespace ← read message "namespace";
     if truthy namespace then
       event ← read message "event";
       if truthy event then
         (if is_string namespace "system" && is_string event "init" then
            data ← read message "data";
            id ← read data "clientId";
            modify (with_clientId id);;
            w ← get;
            match onReady w with
            | Some callback => call_ready callback (clientId w)
            | None => mret tt
            end
          else mret tt);;
         data ← read message "data";
         handle_frame namespace event data
       else mret tt
     else mret tt)
    (fun error => console_error (LogParseFailure error)).

Definition disconnect : M unit :=
  w ← get;
  match reconnectTimer w with
  | Some t => clearTimeout t;; modify (with_reconnectTimer None)
  | None => mret tt
  end;;
  match ws w with
  | Some i =>
      modify (with_autoReconnect false);;
      ws_close i;;
      modify (with_ws None);;
      modify (with_clientId JNull);;
      w' ← get;
      for_of_plugins (plugins w').*1;;
      modify (with_plugins [])
  | None => mret tt
  end.

(** ** What can happen to a session

    The application calls a method or writes to one of its own objects, a
    transport instance reports an event, or a timer fires. An event that
    cannot happen in the current state (an open event of an instance that is
    not connecting, a timer that is not pending, ...) leaves the state as it
    is. *)

Definition val_in_heap (h : gmap loc obj) (v : val) : bool :=
  match v with
  | VRef l => bool_decide (is_Some (h !! l))
  | _ => true
  end.

Inductive Event : Type :=
| EConnect
| EDisconnect
| ERegisterEvent (namespace event : string) (callback : cbid)
| EUnregisterEvent (namespace event : string) (callback : cbid)
| ESend (namespace event : string) (data : option loc)
| ESetMetadata (metadata_arg : loc)
| EGetMetadata
| EReady (callback : cbid)
| ERegisterPlugin (plugin : Plugin)
| EUnregisterPlugin (pluginId : string)
| ENewObject (o : obj)
| EWrite (l : loc) (k : string) (v : val)
| EOpen (i : nat)
| EClose (i : nat)
| EError (i : nat) (error : json)
| EMessage (i : nat) (event_data : Payload)
| ETimer (t : nat).

Definition set_socket_state (i : nat) (st : ReadyState) : M unit :=
  modify (fun w => with_sockets (alter (set_readyState st) i (sockets w)) w).

Definition exec (e : Event) : M unit :=
  match e with
  | EConnect => connect
  | EDisconnect => disconnect
  | ERegisterEvent ns ev cb => registerEvent ns ev cb
  | EUnregisterEvent ns ev cb => unregisterEvent ns ev cb
  | ESend ns ev data => send ns ev data
  | ESetMetadata l => setMetadata l
  | EGetMetadata => getMetadata;; mret tt
  | EReady cb => ready cb
  | ERegisterPlugin p => registerPlugin p
  | EUnregisterPlugin id => unregisterPlugin id
  | ENewObject o =>
      w ← get;
      if forallb (fun kv => val_in_heap (heap w) kv.2) o
      then alloc o;; mret tt else mret tt
  | EWrite l k v =>
      w ← get;
      if bool_decide (is_Some (heap w !! l)) && bool_decide (l ≠ metadata w)
         && val_in_heap (heap w) v
      then modify (with_heap (<[l := set_prop (props_of (heap w) l) k v]> (heap w)))
      else mret tt
  | EOpen i =>
      w ← get;
      if bool_decide (socket_state w i = Some CONNECTING)
      then set_socket_state i OPEN;; onopen else mret tt
  | EClose i =>
      w ← get;
      match socket_state w i with
      | Some CONNECTING | Some OPEN | Some CLOSING =>
          set_socket_state i CLOSED;; onclose
      | _ => mret tt
      end
  | EError i error =>
      w ← get;
      if bool_decide (is_Some (socket_state w i)) then onerror error else mret tt
  | EMessage i event_data =>
      w ← get;
      match socket_state w i with
      | Some OPEN | Some CLOSING => onmessage event_data
      | _ => mret tt
      end
  | ETimer t =>
      w ← get;
      if bool_decide (t ∈ pending w)
      then
        modify (fun w => with_timers (filter (fun t' => t' ≠ t) (pending w))
                                     (next_timer w) w);;
        connect
      else mret tt
  end.

Definition step (w : World) (e : Event) : World := (exec e w).2.

Definition run (events : list Event) (w : World) : World :=
  foldl step w events.

End Client.

(** ** Construction *)

Record Location : Type := { protocol : string; host : string }.

Definition getDefaultHost (window : option Location) : string :=
  match window with
  | Some l =>
      ((if String.eqb (protocol l) "https:" then "wss" else "ws") ++ "://" ++ host l)%string
  | None => "ws://localhost:8080"
  end.

Record Options : Type := {
  opt_url : option string;
  opt_autoReconnect : option bool;
  opt_reconnectInterval : option Z
}.

Definition no_options : Options :=
  {| opt_url := None; opt_autoReconnect := None; opt_reconnectInterval := None |}.

(** [new LibrandaClient(options)] in a host whose heap is [h] and where no
    transport and no timer exists yet. Timer handles are truthy: they are
    counted from 1. *)
Definition constructor (window : option Location) (options : Options)
    (h : gmap loc obj) : World :=
  {| url := match opt_url options with
            | Some u => if String.eqb u "" then getDefaultHost window else u
            | None => getDefaultHost window
            end;
     autoReconnect := match opt_autoReconnect options with
                      | Some false => false
                      | _ => true
                      end;
     reconnectInterval := match opt_reconnectInterval options with
                          | Some n => if (n =? 0)%Z then 5000%Z else n
                          | None => 5000%Z
                          end;
     eventHandlers := ∅;
     ws := None;
     isConnecting := false;
     reconnectTimer := None;
     clientId := JNull;
     metadata := fresh (dom h);
     onReady := None;
     plugins := [];
     sockets := [];
     pending := [];
     next_timer := 1;
     heap := <[fresh (dom h) := []]> h;
     calls := [];
     console := [] |}.

(** ** Clients and applications used in examples *)

(** A new client with default options, in a host with an empty heap. *)
Definition fresh_client : World := constructor None no_options ∅.

(** Callbacks that do nothing. *)
Definition quiet : UserCode :=
  {| handler_body := fun _ _ => {| unregisters := []; throws := false |};
     ready_body := fun _ _ => [] |}.

(** Ready callbacks that throw. *)
Definition failing_ready : UserCode :=
  {| handler_body := fun _ _ => {| unregisters := []; throws := false |};
     ready_body := fun _ _ => [CThrow] |}.

(** Handlers for [chat:message] that unregister themselves when called;
    handler 1 throws after that. *)
Definition once_handlers : UserCode :=
  {| handler_body := fun c _ =>
       {| unregisters := [("chat", "message", c)];
          throws := bool_decide (c = 1) |};
     ready_body := fun _ _ => [] |}.

(** Handlers for [chat:message] where handler 1 unregisters handler 2. *)
Definition jealous_handlers : UserCode :=
  {| handler_body := fun c _ =>
       {| unregisters := if bool_decide (c = 1) then [("chat", "message", 2)] else [];
          throws := false |};
     ready_body := fun _ _ => [] |}.

(** The frame [{namespace: "system", event: "init", data}]. *)
Definition init_frame (data : json) : json :=
  JObj [("namespace", JStr "system"); ("event", JStr "init"); ("data", data)].

(** A connected client whose application holds an object (at location 1)
    that contains itself. *)
Definition client_with_cyclic_object : World :=
  run quiet [ENewObject []; EWrite 1 "self" (VRef 1); EConnect; EOpen 0]
      fresh_client.

(** A client whose metadata was set from [{prefs: {theme: "dark"}}]: the
    nested object is at location 1. *)
Definition client_with_nested_metadata : World :=
  run quiet [ENewObject [("theme", VStr "dark")]; ENewObject [("prefs", VRef 1)];
             ESetMetadata 2]
      fresh_client.

(** ** Notions used to state the properties *)

(** Sequences of [registerEvent] calls and of calls to the capabilities they
    returned. *)
Inductive RegOp : Type :=
| Register (namespace event : string) (callback : cbid)
| Unregister (namespace event : string) (callback : cbid).

Definition apply_op (w : World) (op : RegOp) : World :=
  match op with
  | Register ns ev cb => (registerEvent ns ev cb w).2
  | Unregister ns ev cb => (unregisterEvent ns ev cb w).2
  end.

(** The set of callbacks registered for a pair after a sequence of calls, as
    a list without repetition in order of registration: registering adds the
    callback unless it is there, unregistering removes it. *)
Definition registered_step (namespace event : string) (acc : list cbid) (op : RegOp)
  : list cbid :=
  match op with
  | Register ns ev cb =>
      if decide (ns = namespace ∧ ev = event)
      then (if decide (cb ∈ acc) then acc else acc ++ [cb])
      else acc
  | Unregister ns ev cb =>
      if decide (ns = namespace ∧ ev = event)
      then filter (fun c => c ≠ cb) acc
      else acc
  end.

Definition registered (ops : list RegOp) (namespace event : string) : list cbid :=
  foldl (registered_step namespace event) [] ops.

(** A set entry after the callbacks [cs] have been deleted. *)
Definition tomb (cs : list cbid) (e : option cbid) : option cbid :=
  match e with
  | Some c => if decide (c ∈ cs) then None else Some c
  | None => None
  end.

(** The registrations of a handler's unregister calls that concern a pair. *)
Definition concerns (namespace event : string) (r : string * string * cbid)
  : option cbid :=
  if decide (r.1.1 = namespace ∧ r.1.2 = event) then Some r.2 else None.

(** The callbacks a handler unregisters from one pair. *)
Definition unregistered_by (U : UserCode) (namespace event : string) (data : json)
    (c : cbid) : list cbid :=
  omap (concerns namespace event) (unregisters (handler_body U c data)).

(** The state of the connection state machine: the transport in use, the
    policy flag, the tracked timer, the timers armed, and the state of every
    transport instance. *)
Definition connection_state (w : World)
  : option nat * bool * bool * option nat * list nat * list ReadyState :=
  (ws w, isConnecting w, autoReconnect w, reconnectTimer w, pending w,
   readyState <$> sockets w).

(** Every frame written so far, on any transport instance. *)
Definition frames_written (w : World) : list json :=
  concat (sent <$> sockets w).

(** How often a ready callback has been called. *)
Definition is_ready_call (callback : cbid) (c : Invocation) : bool :=
  match c with
  | CallReady cb _ => bool_decide (cb = callback)
  | _ => false
  end.

Definition ready_calls (callback : cbid) (w : World) : nat :=
  length (filter (fun c => is_ready_call callback c = true) (calls w)).

(** No object of the heap refers to an object that is not there. *)
Definition heap_closed (h : gmap loc obj) : Prop :=
  ∀ l o k l', h !! l = Some o → (k, VRef l') ∈ o → is_Some (h !! l').

(** Every reference held by an object satisfies [D]. *)
Definition refs_in (D : loc → Prop) (o : obj) : Prop :=
  ∀ k l, (k, VRef l) ∈ o → D l.

(** The application writes properties of one of its objects, in turn. *)
Definition write_all (U : UserCode) (l : loc) (writes : list (string * val))
    (w : World) : World :=
  foldl (fun w kv => step U w (EWrite l kv.1 kv.2)) w writes.

(** What [JSON.stringify(this.metadata)] gives: the metadata as outbound
    frames carry it. *)
Definition metadata_snapshot (w : World) : option (option json) :=
  stringify_val (size (heap w)) (heap w) (VRef (metadata w)).

(** The state in which [disconnect] reaches the plugin loop when a
    transport exists. *)
Definition disconnecting (i : nat) (w : World) : World :=
  with_clientId JNull
    (with_ws None
       ((ws_close i
           (with_autoReconnect false
              match reconnectTimer w with
              | Some t =>
                  with_reconnectTimer None
                    (with_timers (filter (fun t' => t' ≠ t) (pending w))
                                 (next_timer w) w)
              | None => w
              end)).2)).

(** What a dispatch over the callbacks [L] (in iteration order) may invoke:
    callbacks of [L], in that order and each at most as often as it stands
    in [L]; every callback of [L] that no other invoked callback
    unregisters; and none that a callback invoked before it unregistered. *)
Definition dispatched (U : UserCode) (namespace event : string) (data : json)
    (L invoked : list cbid) : Prop :=
  invoked `sublist_of` L ∧
  (∀ c, c ∈ L →
        (∀ c', c' ∈ invoked → c' ≠ c → c ∉ unregistered_by U namespace event data c') →
        c ∈ invoked) ∧
  (∀ pre c post, invoked = pre ++ c :: post →
                 ∀ c', c' ∈ pre → c ∉ unregistered_by U namespace event data c').

(** The callbacks that a dispatch over the callbacks [L] (in iteration
    order) calls, when the callbacks [removed] have been unregistered
    already: each callback of [L] in turn, unless a callback called before
    it has unregistered it. *)
Fixpoint visited (U : UserCode) (namespace event : string) (data : json)
    (removed L : list cbid) : list cbid :=
  match L with
  | [] => []
  | c :: rest =>
      if decide (c ∈ removed) then visited U namespace event data removed rest
      else c :: visited U namespace event data
                  (unregistered_by U namespace event data c ++ removed) rest
  end.

(** The lines that the handlers called in a dispatch leave on the console:
    one for each that throws. *)
Definition handler_errors (U : UserCode) (namespace event : string) (data : json)
    (invoked : list cbid) : list LogLine :=
  (fun _ => LogHandlerError namespace event UserError) <$>
    filter (fun c => throws (handler_body U c data) = true) invoked.

(** The line that a plugin cleanup leaves on the console: one when it
    throws. *)
Definition cleanup_error (pluginId : string) (outcome : result unit) : list LogLine :=
  match outcome with
  | Throw e => [LogCleanupError pluginId e]
  | Ok _ => []
  end.

(** A method preserves a relation between the state before and after. *)
Definition preserves {A} (R : relation World) (m : M A) : Prop :=
  ∀ w, R w (m w).2.

(** Relations that do not look at what application code can reach through
    its scripts and handlers: the registry, the frames written, the console.
    [P] says which calls into application code the relation allows to be
    recorded. *)
Class ScriptFrame (P : Invocation → Prop) (R : relation World) : Prop := {
  frame_preorder :: PreOrder R;
  frame_calls : ∀ w c, P c → R w (with_calls (calls w ++ [c]) w);
  frame_console : ∀ w ls, R w (with_console ls w);
  frame_eventHandlers : ∀ w eh, R w (with_eventHandlers eh w);
  frame_sent : ∀ w i frame,
    R w (with_sockets (alter (push_frame frame) i (sockets w)) w)
}.

(** Relations that do not look at the bookkeeping of plugins and identity
    either. *)
Class Frame (P : Invocation → Prop) (R : relation World) : Prop := {
  frame_script :: ScriptFrame P R;
  frame_plugins : ∀ w ps, R w (with_plugins ps w);
  frame_clientId : ∀ w v, R w (with_clientId v w)
}.

(** Relations that do not look at the heap nor at which object is the
    metadata. *)
Class HeapFrame (R : relation World) : Prop := {
  frame_heap : ∀ w h, R w (with_heap h w);
  frame_metadata : ∀ w l, R w (with_metadata l w)
}.

(** The events that allocate or write objects. *)
Definition touches_heap (e : Event) : bool :=
  match e with
  | ESetMetadata _ | EGetMetadata | ENewObject _ | EWrite _ _ _ => true
  | _ => false
  end.

(** The heap is closed and holds the metadata object. *)
Definition heap_ok (w : World) : Prop :=
  heap_closed (heap w) ∧ is_Some (heap w !! metadata w).

(** Relations that, besides, let the connection go through its lifecycle:
    they hold across a new transport instance, a change of its state, a
    cleared timer, the policy flag turned off, and a timer armed while the
    policy flag is on. *)
Class Lifecycle (R : relation World) : Prop := {
  lifecycle_frame :: Frame (fun _ => True) R;
  lifecycle_isConnecting : ∀ w b, R w (with_isConnecting b w);
  lifecycle_ws : ∀ w x, R w (with_ws x w);
  lifecycle_sockets : ∀ w ss, R w (with_sockets ss w);
  lifecycle_clear : ∀ w t,
    R w (with_timers (filter (fun t' => t' ≠ t) (pending w)) (next_timer w) w);
  lifecycle_untrack : ∀ w, R w (with_reconnectTimer None w);
  lifecycle_opt_out : ∀ w, R w (with_autoReconnect false w);
  lifecycle_arm : ∀ w,
    autoReconnect w = true →
    R w (with_reconnectTimer (Some (next_timer w))
           (with_timers (pending w ++ [next_timer w]) (S (next_timer w)) w))
}.

(** Once the policy flag is off it stays off, no timer is armed, and the
    tracked timer stays cleared. *)
Definition policy_off (w w' : World) : Prop :=
  autoReconnect w = false →
  autoReconnect w' = false ∧ pending w' ⊆ pending w ∧
  (reconnectTimer w = None → reconnectTimer w' = None).

Definition same_onReady (w w' : World) : Prop := onReady w' = onReady w.

Definition same_connection (w w' : World) : Prop :=
  connection_state w' = connection_state w.

(** A projection of the state is the same before and after. *)
Definition unchanged {A} (f : World → A) (w w' : World) : Prop := f w' = f w.

(** Everything that scripts and handlers have no call to change: all of the
    state but the registry, the frames written, the calls recorded and the
    console. *)
Definition beyond_scripts (w : World) :=
  (url w, autoReconnect w, reconnectInterval w, ws w, isConnecting w,
   reconnectTimer w, clientId w, metadata w, onReady w, plugins w,
   readyState <$> sockets w, pending w, next_timer w, heap w).

(** The state in which [registerPlugin] calls the initializer. *)
Definition registering (id : string) (p : Plugin) (w : World) : World :=
  with_calls (calls w ++ [CallInitialize id])
    (with_plugins (plugins w ++ [(id, p)]) w).

(** The calls recorded in between all satisfy [P]. *)
Definition calls_extended (P : Invocation → Prop) (w w' : World) : Prop :=
  ∃ l, calls w' = calls w ++ l ∧ Forall P l.

(** The timers of the host: those pending, and the next handle. *)
Definition timers (w : World) : list nat * nat := (pending w, next_timer w).

(** The state in which [connect] leaves a client when it starts a
    connection attempt. *)
Definition attempting (w : World) : World :=
  with_ws (Some (length (sockets w)))
    (with_sockets
       (sockets w ++ [{| sock_url := url w; readyState := CONNECTING; sent := [] |}])
       (with_isConnecting true w)).

(** The transport in use is connecting or open. *)
Definition live (w : World) : bool :=
  match ws w with
  | Some i => bool_decide (socket_state w i = Some CONNECTING)
              || bool_decide (socket_state w i = Some OPEN)
  | None => false
  end.

(** The state in which an open event reaches its dispatch. *)
Definition opened (w : World) : World :=
  match reconnectTimer w with
  | Some t =>
      with_reconnectTimer None
        (with_timers (filter (fun t' => t' ≠ t) (pending w)) (next_timer w)
           (with_isConnecting false w))
  | None => with_isConnecting false w
  end.

(** What a close event does after its dispatch. *)
Definition rearm (w : World) : World :=
  if autoReconnect w
  then with_reconnectTimer (Some (next_timer w))
         (with_timers (pending w ++ [next_timer w]) (S (next_timer w)) w)
  else w.

(** One object holds a reference to another. *)
Definition refers (h : gmap loc obj) (l l' : loc) : Prop :=
  ∃ k, (k, VRef l') ∈ props_of h l.

(** A value that leads to an object which contains itself, directly or
    through other objects. *)
Definition circular (h : gmap loc obj) (v : val) : Prop :=
  ∃ l l', v = VRef l ∧ rtc (refers h) l l' ∧ tc (refers h) l' l'.

(** A path of references that starts at [l]. *)
Fixpoint chain (h : gmap loc obj) (l : loc) (path : list loc) : Prop :=
  match path with
  | [] => True
  | l' :: rest => refers h l l' ∧ chain h l' rest
  end.

(** Relations that hold across everything a session does except arming a
    timer: application code, plugins, metadata, a new transport instance to
    the client's URL, a change of a transport's state, a cleared timer and
    the policy flag turned off. *)
Class Session (R : relation World) : Prop := {
  session_frame :: Frame (fun _ => True) R;
  session_heap :: HeapFrame R;
  session_onReady : ∀ w c, R w (with_onReady c w);
  session_isConnecting : ∀ w b, R w (with_isConnecting b w);
  session_ws : ∀ w x, R w (with_ws x w);
  session_state : ∀ w i f,
    (∀ s, sock_url (f s) = sock_url s) →
    R w (with_sockets (alter f i (sockets w)) w);
  session_new : ∀ w,
    R w (with_sockets
           (sockets w ++ [{| sock_url := url w; readyState := CONNECTING; sent := [] |}])
           w);
  session_clear : ∀ w t,
    R w (with_timers (filter (fun t' => t' ≠ t) (pending w)) (next_timer w) w);
  session_untrack : ∀ w, R w (with_reconnectTimer None w);
  session_opt_out : ∀ w, R w (with_autoReconnect false w)
}.

(** No timer is armed. *)
Definition timers_kept (w w' : World) : Prop :=
  pending w' ⊆ pending w ∧ next_timer w' = next_timer w.

(** The configuration is what it was, and if every transport instance was
    created for the client's URL, every transport instance still is. *)
Definition same_endpoint (w w' : World) : Prop :=
  url w' = url w ∧ reconnectInterval w' = reconnectInterval w ∧
  (Forall (fun s => sock_url s = url w) (sockets w) →
   Forall (fun s => sock_url s = url w) (sockets w')).

(** A script that neither registers nor unregisters a handler. *)
Definition registry_free (script : list ClientCall) : bool :=
  forallb (fun c => match c with
                    | CSend _ _ _ | CThrow => true
                    | _ => false
                    end) script.

(** Application code that leaves the registry alone: handlers unregister
    nothing and ready callbacks neither register nor unregister. *)
Definition passive (U : UserCode) : Prop :=
  (∀ cb data, unregisters (handler_body U cb data) = []) ∧
  (∀ cb id, registry_free (ready_body U cb id) = true).

(** The calls by which the application changes the registry or the plugin
    map itself. *)
Definition registry_event (e : Event) : bool :=
  match e with
  | ERegisterEvent _ _ _ | EUnregisterEvent _ _ _ | ERegisterPlugin _ => true
  | _ => false
  end.

(** The registry and the plugin map. *)
Definition registry (w : World)
  : gmap string (gmap string (list (option cbid))) * list (string * Plugin) :=
  (eventHandlers w, plugins w).

Ltac unfold_M :=
  unfold mbind, M_bind, bind, mret, M_ret, ret, throw, try_catch, get, modify in *.

(** * Properties *)

(** ** Plugin registration *)

Lemma registerPlugin_without_id (p : Plugin) (w : World) :
  plugin_id p = None ∨ plugin_id p = Some "" →
  registerPlugin p w = (Throw PluginWithoutId, w).
Proof.
  unfold registerPlugin. intros [-> | ->]; reflexivity.
Qed.

Lemma registerPlugin_duplicate (p q : Plugin) (id : string) (w : World) :
  plugin_id p = Some id → id ≠ "" → assoc id (plugins w) = Some q →
  registerPlugin p w = (Throw (PluginAlreadyRegistered id), w).
Proof.
  unfold registerPlugin. intros -> Hne Hq.
  destruct (String.eqb_spec id "") as [->|_]; [done|].
  unfold_M. by rewrite Hq.
Qed.

(** C8. [registerPlugin(plugin)] throws when [plugin.id] is absent or empty,
    and when a plugin with that id is registered. In both cases the state
    after the call is the state before it; in particular the plugin map is
    unchanged, no application code has been called (no initializer ran),
    and the plugin registered under the id is still the one that was. *)
Theorem C8_registerPlugin_failure_mutates_nothing (p : Plugin) (w : World) :
  (plugin_id p = None ∨ plugin_id p = Some "" →
   registerPlugin p w = (Throw PluginWithoutId, w)) ∧
  (∀ id q, plugin_id p = Some id → id ≠ "" → assoc id (plugins w) = Some q →
     registerPlugin p w = (Throw (PluginAlreadyRegistered id), w) ∧
     plugins (registerPlugin p w).2 = plugins w ∧
     calls (registerPlugin p w).2 = calls w ∧
     assoc id (plugins (registerPlugin p w).2) = Some q).
Proof.
  split.
  - apply registerPlugin_without_id.
  - intros id q Hid Hne Hq.
    by rewrite (registerPlugin_duplicate p q id w Hid Hne Hq).
Qed.

Lemma C8_witness :
  registerPlugin
    {| plugin_id := Some ""; initialize := Some [CThrow]; cleanup := None |}
    fresh_client = (Throw PluginWithoutId, fresh_client) ∧
  registerPlugin
    {| plugin_id := Some "p"; initialize := Some [CThrow]; cleanup := None |}
    (registerPlugin
       {| plugin_id := Some "p"; initialize := None; cleanup := None |}
       fresh_client).2
  = (Throw (PluginAlreadyRegistered "p"),
     (registerPlugin
        {| plugin_id := Some "p"; initialize := None; cleanup := None |}
        fresh_client).2).
Proof.
  split.
  - exact (proj1 (C8_registerPlugin_failure_mutates_nothing
                    {| plugin_id := Some ""; initialize := Some [CThrow];
                       cleanup := None |}
                    fresh_client) (or_intror eq_refl)).
  - refine (proj1 (proj2 (C8_registerPlugin_failure_mutates_nothing
                    {| plugin_id := Some "p"; initialize := Some [CThrow];
                       cleanup := None |}
                    (registerPlugin
                       {| plugin_id := Some "p"; initialize := None;
                          cleanup := None |}
                       fresh_client).2)
                    "p"
                    {| plugin_id := Some "p"; initialize := None; cleanup := None |}
                    eq_refl _ eq_refl)).
    discriminate.
Defined.

(** ** Sending *)

Lemma isConnected_spec (w : World) :
  isConnected w = true ↔ ∃ i, ws w = Some i ∧ socket_state w i = Some OPEN.
Proof.
  unfold isConnected. destruct (ws w) as [i|]; split.
  - intros H%bool_decide_eq_true. eauto.
  - intros (j & [= <-] & H). by apply bool_decide_eq_true.
  - discriminate.
  - intros (j & [=] & _).
Qed.

Lemma send_not_connected (ns ev : string) (data : option loc) (w : World) :
  isConnected w = false → send ns ev data w = (Throw NotConnected, w).
Proof.
  unfold isConnected, send. unfold_M. intros H.
  destruct (ws w); [|done]. by rewrite H.
Qed.

Lemma send_unserialisable (ns ev : string) (data : option loc) (w : World) :
  isConnected w = true →
  stringify_frame w ns ev (send_payload w data) = None →
  send ns ev data w = (Throw TypeError, w).
Proof.
  unfold isConnected, send. unfold_M. intros H1 H2.
  destruct (ws w); [|done]. by rewrite H1, H2.
Qed.

Lemma send_connected (ns ev : string) (data : option loc) (w : World) (i : nat)
    (frame : json) :
  ws w = Some i → socket_state w i = Some OPEN →
  stringify_frame w ns ev (send_payload w data) = Some frame →
  send ns ev data w =
    (Ok tt, with_sockets (alter (push_frame frame) i (sockets w)) w).
Proof.
  intros Hws Hst Hfr. unfold send, ws_send. unfold_M.
  rewrite Hws, Hfr. by rewrite bool_decide_eq_true_2.
Qed.

Lemma frames_after_push (frame : json) (l : list Socket) (i : nat) :
  i < length l →
  length (concat (sent <$> alter (push_frame frame) i l)) =
  S (length (concat (sent <$> l))).
Proof.
  revert i. induction l as [|s l IH]; intros i Hi; simpl in *; [lia|].
  destruct i as [|i]; simpl.
  - rewrite !length_app. simpl. lia.
  - specialize (IH i ltac:(lia)). rewrite !length_app.
    change (list_fmap _ _ sent (list_alter (push_frame frame) i l))
      with (sent <$> alter (push_frame frame) i l).
    rewrite IH. change (list_fmap _ _ sent l) with (sent <$> l). lia.
Qed.

(** C7, amended. While the transport is absent or not open, [send] throws
    the not-connected error and leaves the state, hence every transport,
    untouched. While it is open, [send] writes exactly one frame, the
    serialised [{namespace, event, data}], at the end of what was written to
    that transport, when the payload can be serialised; when it cannot,
    [JSON.stringify] throws and nothing is written. *)
Theorem C7_send_writes_one_frame_or_fails
    (ns ev : string) (data : option loc) (w : World) :
  ((ws w = None ∨ ∃ i, ws w = Some i ∧ socket_state w i ≠ Some OPEN) →
     send ns ev data w = (Throw NotConnected, w)) ∧
  (∀ i, ws w = Some i → socket_state w i = Some OPEN →
     match stringify_frame w ns ev (send_payload w data) with
     | Some frame =>
         (send ns ev data w).1 = Ok tt ∧
         (sent <$> sockets (send ns ev data w).2 !! i) =
           ((fun s => (sent s ++ [frame])%list) <$> sockets w !! i) ∧
         (∀ j, j ≠ i → sockets (send ns ev data w).2 !! j = sockets w !! j) ∧
         length (frames_written (send ns ev data w).2) =
           S (length (frames_written w))
     | None => send ns ev data w = (Throw TypeError, w)
     end).
Proof.
  split.
  - intros H. apply send_not_connected.
    destruct (isConnected w) eqn:Hc; [|done].
    apply isConnected_spec in Hc as (j & Hj & Hst).
    destruct H as [H | (i & Hi & Hne)]; congruence.
  - intros i Hws Hst.
    destruct (stringify_frame w ns ev (send_payload w data)) as [frame|] eqn:Hfr.
    + rewrite (send_connected _ _ _ _ _ _ Hws Hst Hfr). simpl.
      split; [done|]. split; [|split].
      * rewrite list_lookup_alter. case_decide; [|done].
        destruct (sockets w !! i); reflexivity.
      * intros j Hj. by apply list_lookup_alter_ne.
      * unfold frames_written. simpl. apply frames_after_push.
        unfold socket_state in Hst.
        destruct (sockets w !! i) eqn:E; [|done].
        by apply lookup_lt_Some in E.
    + apply send_unserialisable; [|done]. apply isConnected_spec; eauto.
Qed.

(** C7, counterexample. The transport is open and the application sends
    an object that contains itself: [send] throws a [TypeError] from
    [JSON.stringify], which is not the not-connected error, and writes no
    frame. *)
Lemma C7_counterexample_unserialisable_payload :
  isConnected client_with_cyclic_object = true ∧
  assoc "self" (props_of (heap client_with_cyclic_object) 1) = Some (VRef 1) ∧
  (send "chat" "message" (Some 1) client_with_cyclic_object).1 = Throw TypeError ∧
  frames_written (send "chat" "message" (Some 1) client_with_cyclic_object).2 = [].
Proof. vm_compute. repeat split; reflexivity. Qed.

Lemma C7_witness :
  ws fresh_client = None ∧
  send "chat" "message" None fresh_client = (Throw NotConnected, fresh_client) ∧
  ws (run quiet [EConnect; EOpen 0] fresh_client) = Some 0 ∧
  socket_state (run quiet [EConnect; EOpen 0] fresh_client) 0 = Some OPEN ∧
  length (frames_written
            (send "chat" "message" None
                  (run quiet [EConnect; EOpen 0] fresh_client)).2) = 1.
Proof.
  assert (ws fresh_client = None) as H1 by reflexivity.
  assert (ws (run quiet [EConnect; EOpen 0] fresh_client) = Some 0) as H2
    by (vm_compute; reflexivity).
  assert (socket_state (run quiet [EConnect; EOpen 0] fresh_client) 0 = Some OPEN)
    as H3 by (vm_compute; reflexivity).
  split; [exact H1|]. split.
  - exact (proj1 (C7_send_writes_one_frame_or_fails "chat" "message" None
                    fresh_client) (or_introl H1)).
  - split; [exact H2|]. split; [exact H3|].
    pose proof (proj2 (C7_send_writes_one_frame_or_fails "chat" "message" None
                         (run quiet [EConnect; EOpen 0] fresh_client)) 0 H2 H3)
      as H.
    destruct (stringify_frame _ _ _ _) as [frame|] eqn:E in H.
    + destruct H as (_ & _ & _ & H). rewrite H. vm_compute. reflexivity.
    + vm_compute in E. discriminate E.
Defined.


(** ** Preservation through the monad *)

Section Preserves.
Context (R : relation World) `{!PreOrder R}.

Lemma preserves_ret {A} (a : A) : preserves R (mret a).
Proof. intros w. reflexivity. Qed.

Lemma preserves_throw {A} (e : exn) : preserves R (@throw A e).
Proof. intros w. reflexivity. Qed.

Lemma preserves_get : preserves R get.
Proof. intros w. reflexivity. Qed.

Lemma preserves_modify (f : World → World) :
  (∀ w, R w (f w)) → preserves R (modify f).
Proof. intros H w. apply H. Qed.

Lemma preserves_bind {A B} (m : M A) (f : A → M B) :
  preserves R m → (∀ a, preserves R (f a)) → preserves R (m ≫= f).
Proof.
  intros Hm Hf w. unfold_M. specialize (Hm w).
  destruct (m w) as [[a|e] w1]; simpl in *; [|done].
  etrans; [exact Hm|apply Hf].
Qed.

Lemma preserves_get_bind {B} (f : World → M B) :
  (∀ w, R w (f w w).2) → preserves R (get ≫= f).
Proof. intros H w. apply H. Qed.

Lemma preserves_try_catch {A} (m : M A) (h : exn → M A) :
  preserves R m → (∀ e, preserves R (h e)) → preserves R (try_catch m h).
Proof.
  intros Hm Hh w. unfold_M. specialize (Hm w).
  destruct (m w) as [[a|e] w1]; simpl in *; [done|].
  etrans; [exact Hm|apply Hh].
Qed.
End Preserves.

(** One structural step on a goal [preserves R m]. *)
Ltac pres_step :=
  lazymatch goal with
  | |- preserves _ (mret _) => apply preserves_ret; try apply _
  | |- preserves _ (throw _) => apply preserves_throw; try apply _
  | |- preserves _ get => apply preserves_get; try apply _
  | |- preserves _ (_ ≫= _) => apply preserves_bind; [try apply _| |intros ?]
  | |- preserves _ (try_catch _ _) =>
      apply preserves_try_catch; [try apply _| |intros ?]
  | |- preserves _ (match ?x with _ => _ end) => destruct x eqn:?
  end.

(** ** What application code cannot disturb *)

Section Scripts.
Context (P : Invocation → Prop) (R : relation World) `{!ScriptFrame P R}.

Lemma pres_record_call c : P c → preserves R (record_call c).
Proof. intros Hc. apply preserves_modify. intros w. by apply frame_calls. Qed.

Lemma pres_console_error l : preserves R (console_error l).
Proof. apply preserves_modify. intros w. apply frame_console. Qed.

Lemma pres_registerEvent ns ev cb : preserves R (registerEvent ns ev cb).
Proof. apply preserves_modify. intros w. apply frame_eventHandlers. Qed.

Lemma pres_unregisterEvent ns ev cb : preserves R (unregisterEvent ns ev cb).
Proof.
  apply preserves_modify. intros w.
  destruct (eventHandlers w !! ns) as [m|]; [|reflexivity].
  destruct (m !! ev); [apply frame_eventHandlers|reflexivity].
Qed.

Lemma pres_ws_send i frame : preserves R (ws_send i frame).
Proof. apply preserves_modify. intros w. apply frame_sent. Qed.

Lemma pres_send ns ev data : preserves R (send ns ev data).
Proof.
  unfold send. repeat pres_step. apply pres_ws_send.
Qed.

Lemma pres_run_script script : preserves R (run_script script).
Proof.
  induction script as [|c script IH]; simpl; [pres_step|].
  destruct c; repeat pres_step;
    auto using pres_send, pres_registerEvent, pres_unregisterEvent.
Qed.

Lemma pres_run_unregisters l : preserves R (run_unregisters l).
Proof.
  induction l as [|[[ns ev] cb] l IH]; simpl; repeat pres_step;
    auto using pres_unregisterEvent.
Qed.

Lemma pres_call_handler U ns ev cb data :
  P (CallHandler ns ev cb data) →
  preserves R (call_handler U ns ev cb data).
Proof.
  intros HP. unfold call_handler. repeat pres_step;
    auto using pres_record_call, pres_run_unregisters.
Qed.

Lemma pres_call_ready U cb id :
  P (CallReady cb id) → preserves R (call_ready U cb id).
Proof.
  intros HP. unfold call_ready. repeat pres_step;
    auto using pres_record_call, pres_run_script.
Qed.

Lemma pres_for_of_callbacks U steps i ns ev data :
  (∀ cb, P (CallHandler ns ev cb data)) →
  preserves R (for_of_callbacks U steps i ns ev data).
Proof.
  intros HP. revert i.
  induction steps as [|k IH]; intros i; simpl; repeat pres_step;
    auto using pres_call_handler, pres_console_error.
Qed.

Lemma pres_handleEvent U ns ev data :
  (∀ cb, P (CallHandler ns ev cb data)) →
  preserves R (_handleEvent U ns ev data).
Proof.
  intros HP. unfold _handleEvent. repeat pres_step;
    auto using pres_for_of_callbacks.
Qed.

Lemma pres_handle_frame U ns ev data :
  (∀ ns' ev' cb, P (CallHandler ns' ev' cb data)) →
  preserves R (handle_frame U ns ev data).
Proof.
  intros HP. unfold handle_frame. repeat pres_step; auto using pres_handleEvent.
Qed.

End Scripts.

(** ** What metadata cannot disturb *)

Section Heaps.
Context (R : relation World) `{!PreOrder R} `{!HeapFrame R}.

Lemma pres_alloc o : preserves R (alloc o).
Proof. intros w. apply frame_heap. Qed.

Lemma pres_setMetadata l : preserves R (setMetadata l).
Proof.
  unfold setMetadata. repeat pres_step; [apply pres_alloc|].
  apply preserves_modify. intros w. apply frame_metadata.
Qed.

Lemma pres_getMetadata : preserves R getMetadata.
Proof. unfold getMetadata. repeat pres_step. apply pres_alloc. Qed.
End Heaps.

(** ** What plugins cannot disturb *)

Section Framed.
Context (P : Invocation → Prop) (R : relation World) `{!Frame P R}.

Lemma pres_registerPlugin p :
  (∀ id, P (CallInitialize id)) → preserves R (registerPlugin p).
Proof.
  intros HP. unfold registerPlugin. repeat pres_step;
    try (apply (pres_record_call P); first [apply _|done]);
    try apply (pres_run_script P), _.
  apply preserves_modify. intros w. apply frame_plugins.
Qed.

Lemma pres_unregisterPlugin id :
  P (CallCleanup id) → preserves R (unregisterPlugin id).
Proof.
  intros HP. unfold unregisterPlugin. repeat pres_step;
    try (apply (pres_record_call P); first [apply _|done]);
    try apply (pres_run_script P), _; try apply (pres_console_error P), _.
  all: apply preserves_modify; intros w; apply frame_plugins.
Qed.

Lemma pres_for_of_plugins ids :
  (∀ id, P (CallCleanup id)) → preserves R (for_of_plugins ids).
Proof.
  intros HP. induction ids as [|id ids IH]; simpl; repeat pres_step;
    auto using pres_unregisterPlugin.
Qed.
End Framed.

(** ** What the lifecycle cannot disturb *)

(** Leaves of a lifecycle method: a field update the relation allows, or a
    call into application code. *)
Ltac lifecycle_leaf :=
  first
    [ apply preserves_modify; intros ?;
      first [ apply lifecycle_isConnecting | apply lifecycle_ws
            | apply lifecycle_sockets | apply lifecycle_clear
            | apply lifecycle_untrack | apply lifecycle_opt_out
            | apply (frame_clientId (P := fun _ => True))
            | apply (frame_plugins (P := fun _ => True)) ]
    | apply (pres_handleEvent (fun _ => True)); [apply _|done]
    | apply (pres_handle_frame (fun _ => True)); [apply _|done]
    | apply (pres_call_ready (fun _ => True)); [apply _|done]
    | apply (pres_console_error (fun _ => True)), _
    | apply (pres_for_of_plugins (fun _ => True)); [apply _|done] ].

Section Lifecycles.
Context (R : relation World) `{!Lifecycle R}.

Lemma pres_clearTimeout t : preserves R (clearTimeout t).
Proof. lifecycle_leaf. Qed.

Lemma pres_new_WebSocket u : preserves R (new_WebSocket u).
Proof. intros w. apply lifecycle_sockets. Qed.

Lemma pres_connect : preserves R connect.
Proof.
  unfold connect. repeat pres_step;
    auto using pres_new_WebSocket; lifecycle_leaf.
Qed.

Lemma pres_onopen U : preserves R (onopen U).
Proof.
  unfold onopen. repeat pres_step; auto using pres_clearTimeout; lifecycle_leaf.
Qed.

Lemma pres_onclose U : preserves R (onclose U).
Proof.
  unfold onclose. do 3 (pres_step; [lifecycle_leaf|]).
  apply preserves_get_bind. intros w.
  destruct (autoReconnect w) eqn:E; [|reflexivity].
  apply lifecycle_arm, E.
Qed.

Lemma pres_onerror U error : preserves R (onerror U error).
Proof. unfold onerror. lifecycle_leaf. Qed.

Lemma pres_read v k : preserves R (read v k).
Proof. unfold read. repeat pres_step. Qed.

Lemma pres_onmessage U p : preserves R (onmessage U p).
Proof.
  unfold onmessage. pres_step; [|lifecycle_leaf].
  pres_step; [destruct p; simpl; pres_step|].
  repeat pres_step; auto using pres_read; lifecycle_leaf.
Qed.

Lemma pres_ws_close i : preserves R (ws_close i).
Proof. lifecycle_leaf. Qed.

Lemma pres_disconnect : preserves R disconnect.
Proof.
  unfold disconnect. repeat pres_step;
    auto using pres_clearTimeout, pres_ws_close; lifecycle_leaf.
Qed.

Lemma pres_set_socket_state i st : preserves R (set_socket_state i st).
Proof. lifecycle_leaf. Qed.

(** Every event but a call of [ready] and those that touch the heap. *)
Lemma pres_exec_session U (e : Event) :
  (∀ cb, e ≠ EReady cb) → touches_heap e = false → preserves R (exec U e).
Proof.
  intros Hready Hheap. destruct e; simpl; try discriminate Hheap;
    try (by destruct (Hready callback));
    repeat pres_step;
    auto using pres_connect, pres_disconnect, pres_set_socket_state,
               pres_onopen, pres_onclose, pres_onerror, pres_onmessage;
    first [ apply (pres_registerEvent (fun _ => True)), _
          | apply (pres_unregisterEvent (fun _ => True)), _
          | apply (pres_send (fun _ => True)), _
          | apply (pres_registerPlugin (fun _ => True)); [apply _|done]
          | apply (pres_unregisterPlugin (fun _ => True)); [apply _|done]
          | lifecycle_leaf ].
Qed.

(** Every event but a call of [ready]. *)
Lemma pres_exec `{!HeapFrame R} U (e : Event) :
  (∀ cb, e ≠ EReady cb) → preserves R (exec U e).
Proof.
  intros Hready. destruct (touches_heap e) eqn:Hheap;
    [|by apply pres_exec_session].
  destruct e; try discriminate Hheap; simpl; repeat pres_step;
    first [ apply pres_setMetadata; apply _
          | apply pres_getMetadata; apply _
          | apply pres_alloc; apply _
          | apply preserves_modify; intros ?; apply frame_heap ].
Qed.
End Lifecycles.

(** ** The relations used below *)

Global Instance policy_off_preorder : PreOrder policy_off.
Proof.
  split.
  - intros w H. done.
  - intros w1 w2 w3 H12 H23 H1.
    destruct (H12 H1) as (A2 & P2 & T2). destruct (H23 A2) as (A3 & P3 & T3).
    split; [done|]. split; [by etrans|auto].
Qed.

Global Instance policy_off_script : ScriptFrame (fun _ => True) policy_off.
Proof. split; [apply _|..]; intros; intros ?; done. Qed.

Global Instance policy_off_frame : Frame (fun _ => True) policy_off.
Proof. split; [apply _|..]; intros; intros ?; done. Qed.

Global Instance policy_off_heap : HeapFrame policy_off.
Proof. split; intros; intros ?; done. Qed.

Global Instance policy_off_lifecycle : Lifecycle policy_off.
Proof.
  split; [apply _|..]; intros; intros Hoff; simpl; try done.
  - split; [done|]. split; [|done].
    intros x Hx. by apply list_elem_of_filter in Hx as [_ ?].
  - congruence.
Qed.

Global Instance same_onReady_preorder : PreOrder same_onReady.
Proof.
  split; [by intros w|]. unfold same_onReady. intros w1 w2 w3. congruence.
Qed.

Global Instance same_onReady_script : ScriptFrame (fun _ => True) same_onReady.
Proof. split; [apply _|..]; done. Qed.

Global Instance same_onReady_frame : Frame (fun _ => True) same_onReady.
Proof. split; [apply _|..]; done. Qed.

Global Instance same_onReady_heap : HeapFrame same_onReady.
Proof. split; done. Qed.

Global Instance same_onReady_lifecycle : Lifecycle same_onReady.
Proof. split; [apply _|..]; done. Qed.

Global Instance same_connection_preorder : PreOrder same_connection.
Proof.
  split; [by intros w|]. unfold same_connection. intros w1 w2 w3. congruence.
Qed.

Lemma readyState_push_frame (frame : json) (i : nat) (l : list Socket) :
  readyState <$> alter (push_frame frame) i l = readyState <$> l.
Proof.
  apply list_eq. intros j. rewrite !list_lookup_fmap, list_lookup_alter.
  case_decide; [subst j|done]. destruct (l !! i); reflexivity.
Qed.

Global Instance same_connection_script :
  ScriptFrame (fun _ => True) same_connection.
Proof.
  split; [apply _|..]; try done.
  intros w i frame. unfold same_connection, connection_state. simpl.
  by rewrite readyState_push_frame.
Qed.

Global Instance same_connection_frame : Frame (fun _ => True) same_connection.
Proof. split; [apply _|..]; done. Qed.

Lemma preserves_run (R : relation World) `{!Lifecycle R} `{!HeapFrame R}
    (U : UserCode)
    (events : list Event) (w : World) :
  (∀ e cb, e ∈ events → e ≠ EReady cb) → R w (run U events w).
Proof.
  revert w. induction events as [|e events IH]; intros w H; simpl; [done|].
  etrans.
  - apply (pres_exec R U e). intros cb. apply H. by left.
  - apply IH. intros e' cb He'. apply H. by right.
Qed.

Global Instance calls_extended_preorder P : PreOrder (calls_extended P).
Proof.
  split.
  - intros w. exists []. by rewrite app_nil_r.
  - intros w1 w2 w3 (l1 & E1 & F1) (l2 & E2 & F2). exists (l1 ++ l2).
    split; [by rewrite E2, E1, app_assoc|by apply Forall_app].
Qed.

Global Instance calls_extended_script P : ScriptFrame P (calls_extended P).
Proof.
  split; [apply _|..]; try (intros; exists []; by rewrite app_nil_r).
  intros w c Hc. exists [c]. split; [done|by constructor].
Qed.

Global Instance calls_extended_frame P : Frame P (calls_extended P).
Proof. split; [apply _|..]; intros; exists []; by rewrite app_nil_r. Qed.

(** ** Reconnection policy *)

Lemma policy_off_exec (U : UserCode) (e : Event) :
  preserves policy_off (exec U e).
Proof.
  assert ((∃ cb, e = EReady cb) ∨ ∀ cb, e ≠ EReady cb) as [[cb ->]|Hne]
    by (destruct e; eauto; right; intros; discriminate).
  - simpl. unfold ready. repeat pres_step.
    + apply (pres_call_ready (fun _ => True)); [apply _|done].
    + apply preserves_modify. intros w Hoff. done.
  - by apply pres_exec; [apply _|apply _|].
Qed.

Lemma policy_off_run (U : UserCode) (events : list Event) (w : World) :
  policy_off w (run U events w).
Proof.
  revert w. induction events as [|e events IH]; intros w; simpl; [done|].
  etrans; [apply policy_off_exec|apply IH].
Qed.

Lemma disconnect_without_transport (w : World) :
  ws w = None →
  disconnect w =
    (Ok tt,
     match reconnectTimer w with
     | Some t =>
         with_reconnectTimer None
           (with_timers (filter (fun t' => t' ≠ t) (pending w)) (next_timer w) w)
     | None => w
     end).
Proof.
  intros Hws. unfold disconnect, clearTimeout. unfold_M.
  destruct (reconnectTimer w); simpl; by rewrite Hws.
Qed.

Lemma disconnect_with_transport (w : World) (i : nat) :
  ws w = Some i →
  disconnect w =
    match for_of_plugins (plugins w).*1 (disconnecting i w) with
    | (Ok _, w') => (Ok tt, with_plugins [] w')
    | (Throw e, w') => (Throw e, w')
    end.
Proof.
  intros Hws. unfold disconnect, disconnecting, clearTimeout, ws_close. unfold_M.
  destruct (reconnectTimer w); simpl; rewrite Hws; simpl; reflexivity.
Qed.

Lemma disconnecting_policy (i : nat) (w : World) :
  autoReconnect (disconnecting i w) = false ∧
  reconnectTimer (disconnecting i w) = None ∧
  pending (disconnecting i w) ⊆ pending w ∧
  (∀ t, reconnectTimer w = Some t → t ∉ pending (disconnecting i w)).
Proof.
  unfold disconnecting, ws_close. unfold_M.
  destruct (reconnectTimer w) as [t|] eqn:Ht; simpl.
  - split; [done|]. split; [done|]. split.
    + intros x Hx. by apply list_elem_of_filter in Hx as [_ ?].
    + intros t' [= <-] Hin. by apply list_elem_of_filter in Hin as [? _].
  - split; [done|]. split; [done|]. split; [done|]. intros ? [=].
Qed.

Lemma disconnect_policy (w : World) (i : nat) :
  ws w = Some i →
  autoReconnect (disconnect w).2 = false ∧
  reconnectTimer (disconnect w).2 = None ∧
  pending (disconnect w).2 ⊆ pending w ∧
  (∀ t, reconnectTimer w = Some t → t ∉ pending (disconnect w).2).
Proof.
  intros Hws. rewrite (disconnect_with_transport _ _ Hws).
  destruct (disconnecting_policy i w) as (A & T & P & N).
  pose proof (pres_for_of_plugins (fun _ => True) policy_off (plugins w).*1
                (fun _ => I) (disconnecting i w) A) as (A' & P' & T').
  destruct (for_of_plugins _ _) as [[[]|e] w']; simpl in *.
  all: split; [done|]; split; [auto|]; split; [by etrans|].
  all: intros t Ht Hin; by apply (N t Ht), P'.
Qed.

(** C1, amended. Called while a transport instance exists, [disconnect]
    turns [autoReconnect] off and clears the tracked timer, and from then on,
    whatever the application and the transports do, the flag stays off, the
    tracked timer stays cleared and no timer is armed. Called while no
    transport instance exists, [disconnect] leaves [autoReconnect] as it
    was. *)
Theorem C1_disconnect_opts_out_when_transport_exists (U : UserCode) (w : World) :
  (ws w = None → autoReconnect (disconnect w).2 = autoReconnect w) ∧
  (ws w ≠ None →
   autoReconnect (disconnect w).2 = false ∧
   reconnectTimer (disconnect w).2 = None ∧
   (∀ t, reconnectTimer w = Some t → t ∉ pending (disconnect w).2) ∧
   ∀ events,
     autoReconnect (run U events (disconnect w).2) = false ∧
     reconnectTimer (run U events (disconnect w).2) = None ∧
     pending (run U events (disconnect w).2) ⊆ pending (disconnect w).2).
Proof.
  split.
  - intros Hws. rewrite (disconnect_without_transport _ Hws). simpl.
    by destruct (reconnectTimer w).
  - intros Hws. destruct (ws w) as [i|] eqn:E; [clear Hws|done].
    destruct (disconnect_policy w i E) as (A & T & _ & N).
    split; [done|]. split; [done|]. split; [done|].
    intros events.
    destruct (policy_off_run U events (disconnect w).2 A) as (A' & P' & T').
    auto.
Qed.

(** C1, counterexample. On a client that has not connected yet,
    [disconnect] leaves [autoReconnect] on: after it, a connection that
    closes arms timer 1, and when that timer fires [connect] creates a second
    transport instance. *)
Lemma C1_counterexample_disconnect_before_connect :
  ws fresh_client = None ∧
  autoReconnect (disconnect fresh_client).2 = true ∧
  pending (run quiet [EConnect; EClose 0] (disconnect fresh_client).2) = [1] ∧
  length (sockets (run quiet [EConnect; EClose 0; ETimer 1]
                     (disconnect fresh_client).2)) = 2.
Proof. vm_compute. repeat split; reflexivity. Qed.

Lemma C1_witness :
  ws (run quiet [EConnect; EOpen 0] fresh_client) ≠ None ∧
  autoReconnect (disconnect (run quiet [EConnect; EOpen 0] fresh_client)).2 = false.
Proof.
  assert (ws (run quiet [EConnect; EOpen 0] fresh_client) ≠ None) as H
    by (vm_compute; discriminate).
  split; [exact H|].
  exact (proj1 (proj2 (C1_disconnect_opts_out_when_transport_exists quiet
                         (run quiet [EConnect; EOpen 0] fresh_client)) H)).
Defined.

(** ** The registry *)

Lemma set_delete_tomb (cb : cbid) (E : list (option cbid)) :
  set_delete cb E = tomb [cb] <$> E.
Proof.
  unfold set_delete. apply list_fmap_ext. intros _ [c|] _; simpl; [|done].
  destruct (decide (Some c = Some cb)) as [[= ->]|Hne].
  - by rewrite decide_True by by left.
  - rewrite decide_False; [done|]. intros ->%list_elem_of_singleton. done.
Qed.

Lemma foldl_set_delete (cs : list cbid) (E : list (option cbid)) :
  foldl (fun E c => set_delete c E) E cs = tomb cs <$> E.
Proof.
  revert E. induction cs as [|c cs IH]; intros E; simpl.
  - rewrite <-(list_fmap_id E) at 1. apply list_fmap_ext. by intros _ [?|] _.
  - rewrite IH, set_delete_tomb, <-list_fmap_compose.
    apply list_fmap_ext. intros _ [x|] _; simpl; [|done].
    destruct (decide (x ∈ [c])) as [Hx|Hx]; simpl.
    + rewrite decide_True; [done|].
      apply list_elem_of_singleton in Hx as ->. by left.
    + destruct (decide (x ∈ cs)) as [Hc|Hc].
      * rewrite decide_True; [done|]. by right.
      * rewrite decide_False; [done|].
        intros [->|Hin]%elem_of_cons; [|done]. apply Hx. by left.
Qed.

Lemma set_members_tomb (cs : list cbid) (E : list (option cbid)) :
  set_members (tomb cs <$> E) = filter (fun c => c ∉ cs) (set_members E).
Proof.
  unfold set_members. induction E as [|[c|] E IH]; [done| |exact IH].
  rewrite fmap_cons. cbn [omap list_omap tomb id]. rewrite filter_cons.
  destruct (decide (c ∈ cs)); cbn [id].
  - rewrite decide_False by auto. exact IH.
  - rewrite decide_True by auto. f_equal. exact IH.
Qed.

Lemma elem_of_set_members (c : cbid) (E : list (option cbid)) :
  c ∈ set_members E ↔ Some c ∈ E.
Proof.
  unfold set_members. rewrite list_elem_of_omap. split.
  - intros (x & Hx & Hid). unfold id in Hid. by subst x.
  - intros H. by exists (Some c).
Qed.

Lemma set_members_add (cb : cbid) (E : list (option cbid)) :
  set_members (set_add cb E) =
  if decide (cb ∈ set_members E) then set_members E else set_members E ++ [cb].
Proof.
  unfold set_add. destruct (decide (Some cb ∈ E)) as [H|H].
  - by rewrite decide_True by by apply elem_of_set_members.
  - rewrite decide_False by by rewrite elem_of_set_members.
    unfold set_members. by rewrite omap_app.
Qed.

Lemma set_members_delete (cb : cbid) (E : list (option cbid)) :
  set_members (set_delete cb E) = filter (fun c => c ≠ cb) (set_members E).
Proof.
  rewrite set_delete_tomb, set_members_tomb. apply list_filter_iff.
  intros c. rewrite list_elem_of_singleton. done.
Qed.

Lemma callbacks_of_registerEvent (ns' ev' ns ev : string) (cb : cbid) (w : World) :
  callbacks_of (eventHandlers (registerEvent ns' ev' cb w).2) ns ev =
  if decide (ns' = ns ∧ ev' = ev)
  then set_add cb (callbacks_of (eventHandlers w) ns ev)
  else callbacks_of (eventHandlers w) ns ev.
Proof.
  unfold registerEvent, callbacks_of. unfold_M. simpl.
  destruct (eventHandlers w !! ns') as [m|] eqn:Hm; simpl.
  - rewrite Hm. simpl.
    destruct (m !! ev') as [E|] eqn:HE; simpl.
    + rewrite HE. simpl. destruct (decide (ns' = ns)) as [->|Hns].
      * rewrite lookup_insert_eq, Hm. simpl.
        destruct (decide (ev' = ev)) as [->|Hev].
        -- rewrite decide_True by done. by rewrite lookup_insert_eq, HE.
        -- rewrite decide_False by tauto. by rewrite lookup_insert_ne.
      * rewrite decide_False by tauto. by rewrite lookup_insert_ne.
    + rewrite lookup_insert_eq. simpl. destruct (decide (ns' = ns)) as [->|Hns].
      * rewrite lookup_insert_eq, Hm. simpl.
        destruct (decide (ev' = ev)) as [->|Hev].
        -- rewrite decide_True by done. by rewrite lookup_insert_eq, HE.
        -- rewrite decide_False by tauto.
           by rewrite lookup_insert_ne, lookup_insert_ne.
      * rewrite decide_False by tauto. by rewrite lookup_insert_ne.
  - rewrite lookup_insert_eq. simpl. rewrite lookup_empty. simpl.
    rewrite lookup_insert_eq. simpl. destruct (decide (ns' = ns)) as [->|Hns].
    + rewrite lookup_insert_eq, Hm. simpl.
      destruct (decide (ev' = ev)) as [->|Hev].
      * rewrite decide_True by done. by rewrite lookup_insert_eq.
      * rewrite decide_False by tauto.
        by rewrite lookup_insert_ne, lookup_insert_ne, lookup_empty.
    + rewrite decide_False by tauto.
      by rewrite lookup_insert_ne, lookup_insert_ne.
Qed.

Lemma callbacks_of_unregisterEvent (ns' ev' ns ev : string) (cb : cbid) (w : World) :
  callbacks_of (eventHandlers (unregisterEvent ns' ev' cb w).2) ns ev =
  if decide (ns' = ns ∧ ev' = ev)
  then set_delete cb (callbacks_of (eventHandlers w) ns ev)
  else callbacks_of (eventHandlers w) ns ev.
Proof.
  unfold unregisterEvent, callbacks_of. unfold_M. simpl.
  destruct (eventHandlers w !! ns') as [m|] eqn:Hm; simpl.
  - destruct (m !! ev') as [E|] eqn:HE; simpl.
    + destruct (decide (ns' = ns)) as [->|Hns].
      * rewrite lookup_insert_eq, Hm. simpl.
        destruct (decide (ev' = ev)) as [->|Hev].
        -- rewrite decide_True by done. by rewrite lookup_insert_eq, HE.
        -- rewrite decide_False by tauto. by rewrite lookup_insert_ne.
      * rewrite decide_False by tauto. by rewrite lookup_insert_ne.
    + case_decide as H; [|done]. destruct H as [<- <-]. by rewrite Hm; simpl; rewrite HE.
  - case_decide as H; [|done]. destruct H as [<- <-]. by rewrite Hm.
Qed.

(** ** Dispatch *)

Lemma tomb_nil (E : list (option cbid)) : tomb [] <$> E = E.
Proof. by rewrite <-foldl_set_delete. Qed.

Lemma tomb_cons (c : cbid) (cs : list cbid) (E : list (option cbid)) :
  tomb cs <$> set_delete c E = tomb (c :: cs) <$> E.
Proof. by rewrite <-!foldl_set_delete. Qed.

Lemma run_unregisters_effect (l : list (string * string * cbid)) (ns ev : string)
    (w : World) :
  ∃ w', run_unregisters l w = (Ok tt, w') ∧ calls w' = calls w ∧
        callbacks_of (eventHandlers w') ns ev =
          tomb (omap (concerns ns ev) l) <$> callbacks_of (eventHandlers w) ns ev.
Proof.
  revert w. induction l as [|[[ns' ev'] cb] l IH]; intros w; simpl.
  - exists w. by rewrite tomb_nil.
  - pose proof (callbacks_of_unregisterEvent ns' ev' ns ev cb w) as Hcb.
    assert (calls (unregisterEvent ns' ev' cb w).2 = calls w) as Hcalls.
    { unfold unregisterEvent. unfold_M. simpl.
      destruct (eventHandlers w !! ns') as [m|]; [|done]. by destruct (m !! ev'). }
    unfold_M. change (unregisterEvent ns' ev' cb w)
      with (Ok tt, (unregisterEvent ns' ev' cb w).2).
    destruct (IH (unregisterEvent ns' ev' cb w).2) as (w' & Hrun & Hc & He).
    exists w'. split; [done|]. split; [congruence|].
    rewrite He, Hcb. unfold concerns at 2. simpl.
    case_decide; [by rewrite tomb_cons|done].
Qed.

Lemma try_call_handler (U : UserCode) (ns ev : string) (cb : cbid) (data : json)
    (w : World) :
  ∃ w', try_catch (call_handler U ns ev cb data)
          (fun err => console_error (LogHandlerError ns ev err)) w = (Ok tt, w') ∧
        calls w' = calls w ++ [CallHandler ns ev cb data] ∧
        callbacks_of (eventHandlers w') ns ev =
          tomb (unregistered_by U ns ev data cb) <$>
            callbacks_of (eventHandlers w) ns ev.
Proof.
  unfold call_handler, record_call, console_error, unregistered_by. unfold_M.
  destruct (run_unregisters_effect (unregisters (handler_body U cb data)) ns ev
              (with_calls (calls w ++ [CallHandler ns ev cb data]) w))
    as (w' & Hrun & Hc & He).
  rewrite Hrun. destruct (throws (handler_body U cb data)).
  - eexists. split; [reflexivity|]. simpl. by rewrite Hc, He.
  - eexists. split; [reflexivity|]. by rewrite Hc, He.
Qed.

Lemma dispatched_nil (U : UserCode) (ns ev : string) (data : json) :
  dispatched U ns ev data [] [].
Proof.
  split; [done|]. split; [by intros c Hc%elem_of_nil|].
  intros pre c post H. by destruct pre.
Qed.

Lemma dispatched_cons (U : UserCode) (ns ev : string) (data : json)
    (cb : cbid) (L invoked : list cbid) :
  dispatched U ns ev data
    (filter (fun c => c ∉ unregistered_by U ns ev data cb) L) invoked →
  dispatched U ns ev data (cb :: L) (cb :: invoked).
Proof.
  intros (Hsub & Hall & Hreg). split; [|split].
  - apply sublist_skip. etrans; [exact Hsub|apply sublist_filter].
  - intros c Hc Hnot. destruct (decide (c = cb)) as [->|Hne]; [by left|].
    right. apply Hall.
    + apply list_elem_of_filter. split.
      * apply Hnot; [by left|done].
      * by apply elem_of_cons in Hc as [?|?].
    + intros c' Hc'. apply Hnot. by right.
  - intros pre c post Heq c' Hc'. destruct pre as [|x pre]; [by apply elem_of_nil in Hc'|].
    injection Heq as <- Heq. apply elem_of_cons in Hc' as [->|Hc'].
    + assert (c ∈ invoked) as Hin
        by (rewrite Heq; apply elem_of_app; right; by left).
      apply sublist_subseteq in Hsub. apply Hsub in Hin.
      by apply list_elem_of_filter in Hin as [? _].
    + by eapply Hreg.
Qed.

Lemma for_of_callbacks_S (U : UserCode) (ns ev : string) (data : json)
    (k i : nat) (w : World) :
  for_of_callbacks U (S k) i ns ev data w =
  match callbacks_of (eventHandlers w) ns ev !! i with
  | None => (Ok tt, w)
  | Some None => for_of_callbacks U k (S i) ns ev data w
  | Some (Some cb) =>
      match try_catch (call_handler U ns ev cb data)
              (fun err => console_error (LogHandlerError ns ev err)) w with
      | (Ok _, w') => for_of_callbacks U k (S i) ns ev data w'
      | (Throw e, w') => (Throw e, w')
      end
  end.
Proof.
  simpl. unfold_M.
  destruct (callbacks_of (eventHandlers w) ns ev !! i) as [[cb|]|]; reflexivity.
Qed.

Lemma for_of_callbacks_spec (U : UserCode) (ns ev : string) (data : json)
    (steps i : nat) (w : World) :
  i + steps = length (callbacks_of (eventHandlers w) ns ev) →
  ∃ invoked w',
    for_of_callbacks U steps i ns ev data w = (Ok tt, w') ∧
    calls w' = calls w ++ ((fun c => CallHandler ns ev c data) <$> invoked) ∧
    dispatched U ns ev data
      (set_members (drop i (callbacks_of (eventHandlers w) ns ev))) invoked.
Proof.
  revert i w. induction steps as [|k IH]; intros i w Hlen.
  - exists [], w. split; [done|]. split; [by rewrite app_nil_r|].
    rewrite drop_ge by lia. apply dispatched_nil.
  - destruct (lookup_lt_is_Some_2 (callbacks_of (eventHandlers w) ns ev) i)
      as [e He]; [lia|].
    rewrite for_of_callbacks_S, He, (drop_S _ _ _ He).
    destruct e as [cb|].
    + destruct (try_call_handler U ns ev cb data w) as (w1 & Hrun & Hc & Hcb).
      rewrite Hrun.
      destruct (IH (S i) w1) as (invoked & w' & Hfor & Hcalls & Hd).
      { rewrite Hcb, length_fmap. lia. }
      exists (cb :: invoked), w'. split; [done|]. split.
      * rewrite Hcalls, Hc, <-app_assoc. done.
      * rewrite Hcb, <-fmap_drop, set_members_tomb in Hd.
        by apply dispatched_cons.
    + destruct (IH (S i) w) as (invoked & w' & Hfor & Hcalls & Hd); [lia|].
      by exists invoked, w'.
Qed.

Lemma handleEvent_spec (U : UserCode) (ns ev : string) (data : json) (w : World) :
  ∃ invoked w',
    _handleEvent U ns ev data w = (Ok tt, w') ∧
    calls w' = calls w ++ ((fun c => CallHandler ns ev c data) <$> invoked) ∧
    dispatched U ns ev data
      (set_members (callbacks_of (eventHandlers w) ns ev)) invoked.
Proof.
  unfold _handleEvent. unfold_M.
  destruct (eventHandlers w !! ns) as [m|] eqn:Hm.
  - destruct (m !! ev) as [E|] eqn:HE.
    + assert (callbacks_of (eventHandlers w) ns ev = E) as HE'
        by (unfold callbacks_of; rewrite Hm; simpl; by rewrite HE).
      destruct (for_of_callbacks_spec U ns ev data (length E) 0 w)
        as (invoked & w' & ? & ? & Hd); [by rewrite HE'|].
      rewrite drop_0 in Hd. by exists invoked, w'.
    + exists [], w. split; [done|]. split; [by rewrite app_nil_r|].
      unfold callbacks_of. rewrite Hm. simpl. rewrite HE. apply dispatched_nil.
  - exists [], w. split; [done|]. split; [by rewrite app_nil_r|].
    unfold callbacks_of. rewrite Hm. apply dispatched_nil.
Qed.

Lemma members_apply_op (ns ev : string) (w : World) (op : RegOp) :
  set_members (callbacks_of (eventHandlers (apply_op w op)) ns ev) =
  registered_step ns ev (set_members (callbacks_of (eventHandlers w) ns ev)) op.
Proof.
  destruct op as [ns' ev' cb|ns' ev' cb]; unfold apply_op, registered_step.
  - rewrite callbacks_of_registerEvent. case_decide; [|done].
    apply set_members_add.
  - rewrite callbacks_of_unregisterEvent. case_decide; [|done].
    apply set_members_delete.
Qed.

Lemma members_foldl_apply_op (ns ev : string) (ops : list RegOp) (w : World) :
  set_members (callbacks_of (eventHandlers (foldl apply_op w ops)) ns ev) =
  foldl (registered_step ns ev)
        (set_members (callbacks_of (eventHandlers w) ns ev)) ops.
Proof.
  revert w. induction ops as [|op ops IH]; intros w; simpl; [done|].
  by rewrite IH, members_apply_op.
Qed.

Lemma registered_step_NoDup (ns ev : string) (acc : list cbid) (op : RegOp) :
  NoDup acc → NoDup (registered_step ns ev acc op).
Proof.
  intros Hnd. destruct op as [ns' ev' cb|ns' ev' cb]; simpl;
    case_decide; try done.
  - case_decide; [done|]. apply NoDup_app. split; [done|]. split.
    + intros x Hx ->%list_elem_of_singleton. done.
    + apply NoDup_singleton.
  - by apply NoDup_filter.
Qed.

Lemma registered_NoDup (ops : list RegOp) (ns ev : string) :
  NoDup (registered ops ns ev).
Proof.
  unfold registered. generalize (NoDup_nil_2 (A := cbid)).
  generalize (@nil cbid) as acc. induction ops as [|op ops IH]; intros acc Hnd;
    simpl; [done|]. by apply IH, registered_step_NoDup.
Qed.

Lemma sublist_full {A} (l1 l2 : list A) :
  l1 `sublist_of` l2 → (length l2 ≤ length l1)%nat → l1 = l2.
Proof.
  induction 1 as [|x l1 l2 _ IH|x l1 l2 Hsub _]; simpl; intros Hlen; [done| |].
  - f_equal. apply IH. lia.
  - apply sublist_length in Hsub. lia.
Qed.

Lemma tomb_tomb (a b : list cbid) (E : list (option cbid)) :
  tomb a <$> (tomb b <$> E) = tomb (a ++ b) <$> E.
Proof.
  rewrite <-list_fmap_compose. apply list_fmap_ext. intros _ [c|] _; simpl; [|done].
  destruct (decide (c ∈ b)) as [Hb|Hb]; simpl.
  - rewrite decide_True; [done|]. apply elem_of_app. by right.
  - destruct (decide (c ∈ a)) as [Ha|Ha].
    + rewrite decide_True; [done|]. apply elem_of_app. by left.
    + rewrite decide_False; [done|]. by intros [?|?]%elem_of_app.
Qed.

Lemma run_unregisters_console (l : list (string * string * cbid)) (w : World) :
  console (run_unregisters l w).2 = console w.
Proof.
  revert w. induction l as [|[[ns ev] cb] l IH]; intros w; simpl; [done|].
  unfold_M. change (unregisterEvent ns ev cb w)
    with (Ok tt, (unregisterEvent ns ev cb w).2).
  cbv beta iota. rewrite IH. unfold unregisterEvent. unfold_M. simpl.
  destruct (eventHandlers w !! ns) as [m|]; [|done]. by destruct (m !! ev).
Qed.

Lemma try_call_handler_log (U : UserCode) (ns ev : string) (cb : cbid) (data : json)
    (w : World) :
  console (try_catch (call_handler U ns ev cb data)
             (fun err => console_error (LogHandlerError ns ev err)) w).2 =
  console w ++ handler_errors U ns ev data [cb].
Proof.
  unfold call_handler, record_call, console_error, handler_errors. unfold_M.
  pose proof (run_unregisters_console (unregisters (handler_body U cb data))
                (with_calls (calls w ++ [CallHandler ns ev cb data]) w)) as Hc.
  destruct (run_unregisters_effect (unregisters (handler_body U cb data)) ns ev
              (with_calls (calls w ++ [CallHandler ns ev cb data]) w))
    as (w' & Hrun & _).
  rewrite Hrun in *. simpl in Hc.
  destruct (throws (handler_body U cb data)) eqn:Ht.
  - rewrite filter_cons_True by done. simpl. by rewrite Hc.
  - rewrite filter_cons_False by (rewrite Ht; discriminate). simpl.
    by rewrite Hc, app_nil_r.
Qed.

Lemma handler_errors_cons (U : UserCode) (ns ev : string) (data : json)
    (c : cbid) (l : list cbid) :
  handler_errors U ns ev data (c :: l) =
  handler_errors U ns ev data [c] ++ handler_errors U ns ev data l.
Proof.
  unfold handler_errors. change (c :: l) with ([c] ++ l).
  by rewrite filter_app, fmap_app.
Qed.

Lemma for_of_callbacks_visited (U : UserCode) (ns ev : string) (data : json)
    (E0 : list (option cbid)) (steps i : nat) (removed : list cbid) (w : World) :
  callbacks_of (eventHandlers w) ns ev = tomb removed <$> E0 →
  i + steps = length E0 →
  ∃ w',
    for_of_callbacks U steps i ns ev data w = (Ok tt, w') ∧
    calls w' = calls w ++
      ((fun c => CallHandler ns ev c data) <$>
         visited U ns ev data removed (set_members (drop i E0))) ∧
    console w' = console w ++
      handler_errors U ns ev data
        (visited U ns ev data removed (set_members (drop i E0))).
Proof.
  revert i removed w. induction steps as [|k IH]; intros i removed w HE Hlen.
  - exists w. rewrite drop_ge by lia. simpl. by rewrite !app_nil_r.
  - destruct (lookup_lt_is_Some_2 E0 i) as [e He]; [lia|].
    rewrite for_of_callbacks_S, HE, list_lookup_fmap, He, (drop_S _ _ _ He). simpl.
    destruct e as [cb|]; simpl.
    + unfold set_members. simpl. fold (set_members (drop (S i) E0)).
      destruct (decide (cb ∈ removed)) as [Hin|Hnotin].
      * destruct (IH (S i) removed w HE) as (w' & Hfor & Hcalls & Hlog); [lia|].
        by exists w'.
      * destruct (try_call_handler U ns ev cb data w) as (w1 & Hrun & Hc & Hcb).
        pose proof (try_call_handler_log U ns ev cb data w) as Hlog1.
        rewrite Hrun in *. simpl in Hlog1.
        destruct (IH (S i) (unregistered_by U ns ev data cb ++ removed) w1)
          as (w' & Hfor & Hcalls & Hlog); [by rewrite Hcb, HE, tomb_tomb|lia|].
        exists w'. split; [done|]. split.
        -- by rewrite Hcalls, Hc, <-app_assoc.
        -- by rewrite Hlog, Hlog1, <-app_assoc, <-handler_errors_cons.
    + destruct (IH (S i) removed w HE) as (w' & Hfor & Hcalls & Hlog); [lia|].
      by exists w'.
Qed.

Lemma handleEvent_visited (U : UserCode) (ns ev : string) (data : json) (w : World) :
  ∃ w',
    _handleEvent U ns ev data w = (Ok tt, w') ∧
    calls w' = calls w ++
      ((fun c => CallHandler ns ev c data) <$>
         visited U ns ev data [] (set_members (callbacks_of (eventHandlers w) ns ev))) ∧
    console w' = console w ++
      handler_errors U ns ev data
        (visited U ns ev data [] (set_members (callbacks_of (eventHandlers w) ns ev))).
Proof.
  unfold _handleEvent. unfold_M.
  destruct (eventHandlers w !! ns) as [m|] eqn:Hm.
  - destruct (m !! ev) as [E|] eqn:HE.
    + assert (callbacks_of (eventHandlers w) ns ev = E) as HE'
        by (unfold callbacks_of; rewrite Hm; simpl; by rewrite HE).
      destruct (for_of_callbacks_visited U ns ev data E (length E) 0 [] w)
        as (w' & ? & ? & ?); [by rewrite HE', tomb_nil|done|].
      rewrite drop_0 in *. rewrite HE'. by exists w'.
    + exists w. split; [done|]. unfold callbacks_of. rewrite Hm. simpl. rewrite HE.
      simpl. by rewrite !app_nil_r.
  - exists w. split; [done|]. unfold callbacks_of. rewrite Hm. simpl.
    by rewrite !app_nil_r.
Qed.

Lemma invoked_visited (U : UserCode) (ns ev : string) (data : json) (w : World)
    (invoked : list cbid) :
  calls (_handleEvent U ns ev data w).2 =
    calls w ++ ((fun c => CallHandler ns ev c data) <$> invoked) →
  invoked =
    visited U ns ev data [] (set_members (callbacks_of (eventHandlers w) ns ev)).
Proof.
  destruct (handleEvent_visited U ns ev data w) as (w' & -> & Hcalls & _).
  simpl. rewrite Hcalls. intros H%app_inv_head.
  assert (Inj (=) (=) (fun c => CallHandler ns ev c data)) as Hinj
    by (intros c1 c2 Heq; by injection Heq).
  symmetry. by apply (inj (fmap (fun c => CallHandler ns ev c data))).
Qed.

(** C6, amended. After any sequence of [registerEvent] calls and calls of
    the functions they returned, dispatching a frame for a pair returns
    normally, whatever the handlers throw, and calls the callbacks registered
    for the pair in order of registration, each once (a callback registered
    several times is in the set once), except those that a callback called
    before them in this dispatch has unregistered: these are skipped, and
    only these. So every registered callback that no other called callback
    unregisters is called, and when handlers unregister nothing but
    themselves, exactly the registered set is called. *)
Theorem C6_dispatch_calls_what_is_still_registered
    (U : UserCode) (ops : list RegOp) (w0 : World) (ns ev : string) (data : json) :
  eventHandlers w0 = ∅ →
  (_handleEvent U ns ev data (foldl apply_op w0 ops)).1 = Ok tt ∧
  calls (_handleEvent U ns ev data (foldl apply_op w0 ops)).2 =
    calls (foldl apply_op w0 ops) ++
      ((fun c => CallHandler ns ev c data) <$>
         visited U ns ev data [] (registered ops ns ev)) ∧
  NoDup (registered ops ns ev) ∧
  NoDup (visited U ns ev data [] (registered ops ns ev)) ∧
  visited U ns ev data [] (registered ops ns ev) `sublist_of` registered ops ns ev ∧
  (∀ c, c ∈ registered ops ns ev →
        (∀ c', c' ∈ visited U ns ev data [] (registered ops ns ev) → c' ≠ c →
               c ∉ unregistered_by U ns ev data c') →
        c ∈ visited U ns ev data [] (registered ops ns ev)) ∧
  (∀ pre c post,
     visited U ns ev data [] (registered ops ns ev) = pre ++ c :: post →
     ∀ c', c' ∈ pre → c ∉ unregistered_by U ns ev data c') ∧
  ((∀ c, c ∈ registered ops ns ev → unregistered_by U ns ev data c ⊆ [c]) →
   visited U ns ev data [] (registered ops ns ev) = registered ops ns ev).
Proof.
  intros Hempty.
  destruct (handleEvent_spec U ns ev data (foldl apply_op w0 ops))
    as (invoked & w' & Hrun & Hcalls & Hd).
  assert (set_members (callbacks_of (eventHandlers (foldl apply_op w0 ops)) ns ev)
          = registered ops ns ev) as Hreg.
  { rewrite members_foldl_apply_op. unfold registered. f_equal.
    unfold callbacks_of. by rewrite Hempty, lookup_empty. }
  assert (invoked = visited U ns ev data [] (registered ops ns ev)) as ->.
  { rewrite <-Hreg. apply invoked_visited. by rewrite Hrun. }
  rewrite Hreg in Hd. destruct Hd as (Hsub & Hall & Hpre).
  pose proof (registered_NoDup ops ns ev) as Hnd.
  rewrite Hrun. simpl.
  split; [done|]. split; [done|]. split; [done|].
  split; [by eapply sublist_NoDup|]. split; [done|]. split; [done|].
  split; [done|].
  intros Hself. apply sublist_full; [done|].
  apply submseteq_length, NoDup_submseteq; [done|].
  intros c Hc. apply Hall; [done|]. intros c' Hc' Hne Hin.
  apply sublist_subseteq in Hsub. apply Hsub, Hself in Hc'.
  apply Hc', list_elem_of_singleton in Hin. congruence.
Qed.

(** C6, counterexample. Callbacks 1, 2 and 3 are registered for
    [chat:message], and callback 1 unregisters callback 2: the dispatch
    calls 1 and 3 and skips 2, which was registered when the frame
    arrived. *)
Lemma C6_counterexample_unregistered_during_dispatch :
  registered [Register "chat" "message" 1; Register "chat" "message" 2;
              Register "chat" "message" 3] "chat" "message" = [1; 2; 3] ∧
  unregisters (handler_body jealous_handlers 1 JNull) = [("chat", "message", 2)] ∧
  calls (_handleEvent jealous_handlers "chat" "message" JNull
           (foldl apply_op fresh_client
              [Register "chat" "message" 1; Register "chat" "message" 2;
               Register "chat" "message" 3])).2
  = [CallHandler "chat" "message" 1 JNull; CallHandler "chat" "message" 3 JNull].
Proof. vm_compute. repeat split; reflexivity. Qed.

Lemma C6_witness :
  eventHandlers fresh_client = ∅ ∧
  calls (_handleEvent once_handlers "chat" "message" (JStr "hello")
           (foldl apply_op fresh_client
              [Register "chat" "message" 1; Register "chat" "message" 2;
               Register "chat" "message" 1; Register "chat" "message" 3;
               Unregister "chat" "message" 3])).2
  = calls (foldl apply_op fresh_client
              [Register "chat" "message" 1; Register "chat" "message" 2;
               Register "chat" "message" 1; Register "chat" "message" 3;
               Unregister "chat" "message" 3])
    ++ ((fun c => CallHandler "chat" "message" c (JStr "hello")) <$>
          visited once_handlers "chat" "message" (JStr "hello") []
            (registered
               [Register "chat" "message" 1; Register "chat" "message" 2;
                Register "chat" "message" 1; Register "chat" "message" 3;
                Unregister "chat" "message" 3] "chat" "message")).
Proof.
  assert (eventHandlers fresh_client = ∅) as H by reflexivity.
  split; [exact H|].
  exact (proj1 (proj2 (C6_dispatch_calls_what_is_still_registered once_handlers
              [Register "chat" "message" 1; Register "chat" "message" 2;
               Register "chat" "message" 1; Register "chat" "message" 3;
               Unregister "chat" "message" 3]
              fresh_client "chat" "message" (JStr "hello") H))).
Defined.

(** ** Plugins *)

Global Instance unchanged_preorder {A} (f : World → A) : PreOrder (unchanged f).
Proof.
  split; [by intros w|]. unfold unchanged. intros w1 w2 w3. congruence.
Qed.

Global Instance beyond_scripts_frame :
  ScriptFrame (fun _ => True) (unchanged beyond_scripts).
Proof.
  split; [apply _|..]; try done.
  intros w i frame. unfold unchanged, beyond_scripts. simpl.
  by rewrite readyState_push_frame.
Qed.

Lemma calls_extended_False (w w' : World) :
  calls_extended (fun _ => False) w w' → calls w' = calls w.
Proof.
  intros (l & -> & Hl). destruct l as [|c l]; [by rewrite app_nil_r|].
  by apply Forall_cons in Hl as [[] _].
Qed.

(** A script records no call and changes nothing beyond its reach. *)
Lemma run_script_frame (script : list ClientCall) (w : World) :
  calls (run_script script w).2 = calls w ∧
  beyond_scripts (run_script script w).2 = beyond_scripts w.
Proof.
  split.
  - apply calls_extended_False.
    apply (pres_run_script (fun _ => False) (calls_extended (fun _ => False))
             script w).
  - apply (pres_run_script (fun _ => True) (unchanged beyond_scripts) script w).
Qed.

Lemma assoc_filter_ne {A} (id id' : string) (l : list (string * A)) :
  id' ≠ id → assoc id' (filter (fun p => p.1 ≠ id) l) = assoc id' l.
Proof.
  intros Hne. induction l as [|[k v] l IH]; [done|].
  rewrite filter_cons. simpl. destruct (decide (k ≠ id)) as [Hk|Hk]; simpl.
  - by rewrite IH.
  - apply dec_stable in Hk. subst k.
    destruct (String.eqb_spec id' id); [done|exact IH].
Qed.

Lemma assoc_filter_eq {A} (id : string) (l : list (string * A)) :
  assoc id (filter (fun p => p.1 ≠ id) l) = None.
Proof.
  induction l as [|[k v] l IH]; [done|].
  rewrite filter_cons. simpl. destruct (decide (k ≠ id)) as [Hk|Hk]; simpl; [|done].
  destruct (String.eqb_spec id k); [congruence|exact IH].
Qed.

Lemma assoc_Some_key {A} (id : string) (v : A) (l : list (string * A)) :
  assoc id l = Some v → id ∈ l.*1.
Proof.
  induction l as [|[k x] l IH]; simpl; [done|].
  destruct (String.eqb_spec id k) as [->|_]; [by left|]. right. auto.
Qed.

Lemma unregisterPlugin_effect (id : string) (w : World) :
  ∃ w', unregisterPlugin id w = (Ok tt, w') ∧
        (∀ id', id' ≠ id → assoc id' (plugins w') = assoc id' (plugins w)) ∧
        assoc id (plugins w') = None ∧
        (∃ l, calls w' = calls w ++ l) ∧
        (∀ p, assoc id (plugins w) = Some p → is_Some (cleanup p) →
              CallCleanup id ∈ calls w').
Proof.
  unfold unregisterPlugin, record_call, console_error. unfold_M.
  destruct (assoc id (plugins w)) as [p|] eqn:Hp.
  - destruct (cleanup p) as [script|] eqn:Hc.
    + destruct (run_script_frame script
                  (with_calls (calls w ++ [CallCleanup id]) w)) as [Hcalls Hrest].
      assert (plugins (run_script script
                (with_calls (calls w ++ [CallCleanup id]) w)).2 = plugins w) as Hpl
        by (unfold beyond_scripts in Hrest; by simplify_eq).
      destruct (run_script script _) as [[[]|e] w1]; simpl in *.
      all: eexists; split; [reflexivity|]; simpl; rewrite Hpl.
      all: split; [intros; by apply assoc_filter_ne|].
      all: split; [apply assoc_filter_eq|].
      all: rewrite Hcalls; split; [by eexists|].
      all: intros _ _ _; apply elem_of_app; right; by left.
    + eexists. split; [reflexivity|]. simpl.
      split; [intros; by apply assoc_filter_ne|].
      split; [apply assoc_filter_eq|].
      split; [exists []; by rewrite app_nil_r|].
      intros p' [= <-] [? ?]. congruence.
  - exists w. split; [done|]. split; [done|]. split; [done|].
    split; [exists []; by rewrite app_nil_r|]. intros p [=].
Qed.

Lemma for_of_plugins_effect (ids : list string) (w : World) :
  ∃ w', for_of_plugins ids w = (Ok tt, w') ∧
        (∃ l, calls w' = calls w ++ l) ∧
        (∀ id p, id ∈ ids → assoc id (plugins w) = Some p → is_Some (cleanup p) →
                 CallCleanup id ∈ calls w').
Proof.
  revert w. induction ids as [|id ids IH]; intros w; simpl.
  - exists w. split; [done|]. split; [exists []; by rewrite app_nil_r|].
    by intros id p Hin%elem_of_nil.
  - destruct (unregisterPlugin_effect id w) as (w1 & Hrun & Hother & _ & [l1 Hl1] & Hcl).
    destruct (IH w1) as (w' & Hfor & [l2 Hl2] & Hrest).
    unfold_M. rewrite Hrun. exists w'. split; [done|].
    split; [exists (l1 ++ l2); by rewrite Hl2, Hl1, app_assoc|].
    intros id' p Hin Hp Hc. destruct (decide (id' = id)) as [->|Hne].
    + rewrite Hl2. apply elem_of_app. left. by eapply Hcl.
    + apply (Hrest id' p); [|by rewrite Hother|done].
      by apply elem_of_cons in Hin as [?|?].
Qed.

Lemma disconnecting_frame (i : nat) (w : World) :
  plugins (disconnecting i w) = plugins w ∧ calls (disconnecting i w) = calls w.
Proof.
  unfold disconnecting, ws_close. unfold_M. by destruct (reconnectTimer w).
Qed.

Lemma disconnect_tears_down (w : World) (i : nat) :
  ws w = Some i →
  (disconnect w).1 = Ok tt ∧ plugins (disconnect w).2 = [] ∧
  ∀ id p, assoc id (plugins w) = Some p → is_Some (cleanup p) →
          CallCleanup id ∈ calls (disconnect w).2.
Proof.
  intros Hws. rewrite (disconnect_with_transport _ _ Hws).
  destruct (disconnecting_frame i w) as [Hpl Hcalls].
  destruct (for_of_plugins_effect (plugins w).*1 (disconnecting i w))
    as (w' & Hfor & _ & Hcl).
  rewrite Hfor. simpl. split; [done|]. split; [done|].
  intros id p Hp Hc. apply (Hcl id p); [by eapply assoc_Some_key|by rewrite Hpl|done].
Qed.




(** ** Failures of application code *)

Lemma registerPlugin_runs_initializer (p : Plugin) (id : string)
    (script : list ClientCall) (w : World) :
  plugin_id p = Some id → id ≠ "" → assoc id (plugins w) = None →
  initialize p = Some script →
  registerPlugin p w = run_script script (registering id p w).
Proof.
  intros Hid Hne Hfresh Hinit. unfold registerPlugin, registering, record_call.
  rewrite Hid. destruct (String.eqb_spec id "") as [->|_]; [done|].
  unfold_M. rewrite Hfresh, Hinit. simpl.
  by destruct (run_script script _) as [[[]|e] w'].
Qed.

Lemma ready_known_id (U : UserCode) (cb : cbid) (w : World) :
  truthy (clientId w) = true →
  ready U cb w =
    run_script (ready_body U cb (clientId w))
               (with_calls (calls w ++ [CallReady cb (clientId w)]) w).
Proof.
  intros H. unfold ready, call_ready, record_call. unfold_M. rewrite H.
  by destruct (run_script _ _) as [[[]|e] w'].
Qed.

(** *** What failures leave on the console *)

Lemma send_console (ns ev : string) (data : option loc) (w : World) :
  console (send ns ev data w).2 = console w.
Proof.
  unfold send, ws_send. unfold_M. destruct (ws w); [|done].
  destruct (negb _); [done|]. by destruct (stringify_frame _ _ _ _).
Qed.

Lemma run_script_console (script : list ClientCall) (w : World) :
  console (run_script script w).2 = console w.
Proof.
  revert w. induction script as [|c script IH]; intros w; [done|].
  destruct c as [ns ev d|ns ev cb|ns ev cb|]; simpl; unfold_M; [| | |done].
  - pose proof (send_console ns ev d w) as Hs.
    destruct (send ns ev d w) as [[[]|e] w1]; simpl in *; [|done].
    by rewrite IH.
  - change (registerEvent ns ev cb w) with (Ok tt, (registerEvent ns ev cb w).2).
    cbv beta iota. by rewrite IH.
  - change (unregisterEvent ns ev cb w) with (Ok tt, (unregisterEvent ns ev cb w).2).
    cbv beta iota. rewrite IH. unfold unregisterEvent. unfold_M. simpl.
    destruct (eventHandlers w !! ns) as [m|]; [|done]. by destruct (m !! ev).
Qed.

Lemma unregisterPlugin_console (id : string) (w : World) :
  console (unregisterPlugin id w).2 =
  console w ++
    match assoc id (plugins w) ≫= cleanup with
    | Some script =>
        cleanup_error id
          (run_script script (with_calls (calls w ++ [CallCleanup id]) w)).1
    | None => []
    end.
Proof.
  unfold unregisterPlugin, record_call, console_error, cleanup_error. unfold_M.
  destruct (assoc id (plugins w)) as [p|]; simpl; [|by rewrite app_nil_r].
  destruct (cleanup p) as [script|]; simpl; [|by rewrite app_nil_r].
  pose proof (run_script_console script (with_calls (calls w ++ [CallCleanup id]) w))
    as Hc.
  destruct (run_script script _) as [[[]|e] w1]; simpl in *; rewrite Hc;
    [by rewrite app_nil_r|done].
Qed.

Lemma for_of_plugins_console (ids : list string) (w : World) :
  ∃ l, console (for_of_plugins ids w).2 = console w ++ l.
Proof.
  revert w. induction ids as [|id ids IH]; intros w; simpl.
  - exists []. by rewrite app_nil_r.
  - unfold_M. pose proof (unregisterPlugin_console id w) as H1.
    destruct (unregisterPlugin_effect id w) as (w1 & Hrun & _).
    rewrite Hrun in *. simpl in H1. destruct (IH w1) as [l Hl].
    eexists. by rewrite Hl, H1, <-app_assoc.
Qed.

Lemma for_of_plugins_logs (ids : list string) (w : World) (id : string)
    (p : Plugin) (script : list ClientCall) :
  id ∈ ids → assoc id (plugins w) = Some p → cleanup p = Some script →
  (∀ w0, (run_script script w0).1 ≠ Ok tt) →
  ∃ e, LogCleanupError id e ∈ console (for_of_plugins ids w).2.
Proof.
  intros Hin Hp Hc Hthrows. revert w Hin Hp.
  induction ids as [|id' ids IH]; intros w Hin Hp; [by apply elem_of_nil in Hin|].
  simpl. unfold_M. pose proof (unregisterPlugin_console id' w) as H1.
  destruct (unregisterPlugin_effect id' w) as (w1 & Hrun & Hother & _).
  rewrite Hrun in *. simpl in H1.
  destruct (decide (id' = id)) as [->|Hne].
  - rewrite Hp in H1. simpl in H1. rewrite Hc in H1.
    specialize (Hthrows (with_calls (calls w ++ [CallCleanup id]) w)).
    destruct (run_script script _).1 as [[]|e] eqn:E; [done|]. simpl in H1.
    destruct (for_of_plugins_console ids w1) as [l Hl].
    exists e. rewrite Hl, H1. apply elem_of_app. left. apply elem_of_app. right.
    by left.
  - apply IH.
    + by apply elem_of_cons in Hin as [?|?].
    + by rewrite Hother.
Qed.

Lemma disconnect_logs (w : World) (i : nat) (id : string) (p : Plugin)
    (script : list ClientCall) :
  ws w = Some i → assoc id (plugins w) = Some p → cleanup p = Some script →
  (∀ w0, (run_script script w0).1 ≠ Ok tt) →
  ∃ e, LogCleanupError id e ∈ console (disconnect w).2.
Proof.
  intros Hws Hp Hc Hthrows. rewrite (disconnect_with_transport _ _ Hws).
  destruct (disconnecting_frame i w) as [Hpl _].
  destruct (for_of_plugins_logs (plugins w).*1 (disconnecting i w) id p script)
    as [e He]; [by eapply assoc_Some_key|by rewrite Hpl|done|done|].
  destruct (for_of_plugins_effect (plugins w).*1 (disconnecting i w))
    as (w' & Hfor & _).
  rewrite Hfor in *. by exists e.
Qed.

(** C5, amended. An exception thrown by an event handler during dispatch,
    or by a plugin cleanup, is caught and logged where it is called: the
    dispatch and the teardown return normally; the console gets one line for
    each called handler that threw, one line for a cleanup that threw, and no
    other line; the connection state is what it was; every registered
    handler that no other handler unregisters is still called; and every
    plugin is still torn down, a cleanup that throws whenever it runs
    leaving its line on the console. An exception thrown by a plugin
    initializer or by a ready callback called from [ready] is not caught:
    the outcome of [registerPlugin] and of [ready] is the outcome of the
    code they call. *)
Theorem C5_handler_and_cleanup_failures_are_isolated (U : UserCode) (w : World) :
  (∀ ns ev data,
     (_handleEvent U ns ev data w).1 = Ok tt ∧
     connection_state (_handleEvent U ns ev data w).2 = connection_state w ∧
     plugins (_handleEvent U ns ev data w).2 = plugins w ∧
     (∀ c, c ∈ set_members (callbacks_of (eventHandlers w) ns ev) →
           (∀ c', c' ≠ c → c ∉ unregistered_by U ns ev data c') →
           CallHandler ns ev c data ∈ calls (_handleEvent U ns ev data w).2) ∧
     calls (_handleEvent U ns ev data w).2 =
       calls w ++
         ((fun c => CallHandler ns ev c data) <$>
            visited U ns ev data []
              (set_members (callbacks_of (eventHandlers w) ns ev))) ∧
     console (_handleEvent U ns ev data w).2 =
       console w ++
         handler_errors U ns ev data
           (visited U ns ev data []
              (set_members (callbacks_of (eventHandlers w) ns ev))) ∧
     (∀ c, CallHandler ns ev c data ∈ calls (_handleEvent U ns ev data w).2 →
           CallHandler ns ev c data ∉ calls w →
           throws (handler_body U c data) = true →
           LogHandlerError ns ev UserError
             ∈ console (_handleEvent U ns ev data w).2)) ∧
  (∀ id,
     (unregisterPlugin id w).1 = Ok tt ∧
     connection_state (unregisterPlugin id w).2 = connection_state w ∧
     assoc id (plugins (unregisterPlugin id w).2) = None ∧
     (∀ id', id' ≠ id →
             assoc id' (plugins (unregisterPlugin id w).2) = assoc id' (plugins w)) ∧
     console (unregisterPlugin id w).2 =
       console w ++
         match assoc id (plugins w) ≫= cleanup with
         | Some script =>
             cleanup_error id
               (run_script script (with_calls (calls w ++ [CallCleanup id]) w)).1
         | None => []
         end) ∧
  ((disconnect w).1 = Ok tt ∧
   (ws w ≠ None →
    plugins (disconnect w).2 = [] ∧
    (∀ id p, assoc id (plugins w) = Some p → is_Some (cleanup p) →
             CallCleanup id ∈ calls (disconnect w).2) ∧
    (∀ id p script,
       assoc id (plugins w) = Some p → cleanup p = Some script →
       (∀ w0, (run_script script w0).1 ≠ Ok tt) →
       ∃ e, LogCleanupError id e ∈ console (disconnect w).2))) ∧
  (∀ p id script,
     plugin_id p = Some id → id ≠ "" → assoc id (plugins w) = None →
     initialize p = Some script →
     registerPlugin p w = run_script script (registering id p w)) ∧
  (∀ cb,
     truthy (clientId w) = true →
     ready U cb w =
       run_script (ready_body U cb (clientId w))
                  (with_calls (calls w ++ [CallReady cb (clientId w)]) w)).
Proof.
  split; [|split; [|split; [|split]]].
  - intros ns ev data.
    destruct (handleEvent_spec U ns ev data w) as (invoked & w' & Hrun & Hcalls & Hd).
    destruct (handleEvent_visited U ns ev data w) as (w'' & Hrun' & Hcalls' & Hlog).
    pose proof (pres_handleEvent (fun _ => True) same_connection U ns ev data
                  (fun _ => I) w) as Hconn.
    pose proof (pres_handleEvent (fun _ => True) (unchanged beyond_scripts)
                  U ns ev data (fun _ => I) w) as Hrest.
    rewrite Hrun in Hrun'. injection Hrun' as <-.
    rewrite Hrun in *. simpl in *. split; [done|]. split; [exact Hconn|].
    split; [unfold unchanged, beyond_scripts in Hrest; by simplify_eq|].
    split; [|split; [done|split; [done|]]].
    + intros c Hc Hnot. destruct Hd as (_ & Hall & _).
      rewrite Hcalls. apply elem_of_app. right.
      apply (list_elem_of_fmap_2 (fun c => CallHandler ns ev c data)).
      apply Hall; [done|]. intros c' _ Hne. by apply Hnot.
    + intros c Hin Hnew Hthrows. rewrite Hcalls' in Hin.
      apply elem_of_app in Hin as [Hin|Hin]; [done|].
      apply list_elem_of_fmap in Hin as (c' & Heq & Hin). injection Heq as <-.
      rewrite Hlog. apply elem_of_app. right. unfold handler_errors.
      apply list_elem_of_fmap. exists c. split; [done|].
      by apply list_elem_of_filter.
  - intros id.
    destruct (unregisterPlugin_effect id w) as (w' & Hrun & Hother & Hgone & _).
    pose proof (pres_unregisterPlugin (fun _ => True) same_connection id I w)
      as Hconn.
    pose proof (unregisterPlugin_console id w) as Hlog.
    rewrite Hrun in *. simpl in *. done.
  - destruct (ws w) as [i|] eqn:Hws.
    + destruct (disconnect_tears_down w i Hws) as (Hok & Hpl & Hcl).
      split; [done|]. intros _. split; [done|]. split; [done|].
      intros id p script. by apply disconnect_logs with i.
    + rewrite (disconnect_without_transport _ Hws). done.
  - intros p id script. apply registerPlugin_runs_initializer.
  - intros cb. apply ready_known_id.
Qed.

(** C5, counterexample. The initializer of a plugin throws: [registerPlugin]
    throws the same exception to its caller. *)
Lemma C5_counterexample_initializer_exception_propagates :
  (registerPlugin
     {| plugin_id := Some "p"; initialize := Some [CThrow]; cleanup := None |}
     fresh_client).1 = Throw UserError.
Proof. reflexivity. Qed.

Lemma C5_witness :
  1 ∈ set_members
        (callbacks_of
           (eventHandlers
              (foldl apply_op fresh_client
                 [Register "chat" "message" 1; Register "chat" "message" 2]))
           "chat" "message") ∧
  throws (handler_body once_handlers 1 JNull) = true ∧
  (_handleEvent once_handlers "chat" "message" JNull
     (foldl apply_op fresh_client
        [Register "chat" "message" 1; Register "chat" "message" 2])).1 = Ok tt ∧
  CallHandler "chat" "message" 2 JNull
    ∈ calls (_handleEvent once_handlers "chat" "message" JNull
               (foldl apply_op fresh_client
                  [Register "chat" "message" 1; Register "chat" "message" 2])).2 ∧
  LogHandlerError "chat" "message" UserError
    ∈ console (_handleEvent once_handlers "chat" "message" JNull
                 (foldl apply_op fresh_client
                    [Register "chat" "message" 1; Register "chat" "message" 2])).2.
Proof.
  split; [vm_compute; by left|]. split; [reflexivity|].
  pose proof (proj1 (C5_handler_and_cleanup_failures_are_isolated once_handlers
                       (foldl apply_op fresh_client
                          [Register "chat" "message" 1;
                           Register "chat" "message" 2]))
                "chat" "message" JNull) as (Hok & _ & _ & Hall & _ & _ & Hlog).
  split; [exact Hok|]. split.
  - apply Hall.
    + vm_compute. right. by left.
    + intros c' Hne Hin. vm_compute in Hin.
      apply list_elem_of_singleton in Hin. congruence.
  - apply (Hlog 1).
    + vm_compute. by left.
    + vm_compute. apply not_elem_of_nil.
    + reflexivity.
Defined.

(** ** The reconnect timer *)

Lemma handleEvent_beyond (U : UserCode) (ns ev : string) (data : json) (w : World) :
  beyond_scripts (_handleEvent U ns ev data w).2 = beyond_scripts w.
Proof.
  apply (pres_handleEvent (fun _ => True) (unchanged beyond_scripts)
           U ns ev data (fun _ => I) w).
Qed.

(** An open event cancels the tracked timer. *)
Lemma onopen_cancels_tracked (U : UserCode) (w : World) :
  reconnectTimer (onopen U w).2 = None ∧
  ∀ t, reconnectTimer w = Some t → t ∉ pending (onopen U w).2.
Proof.
  unfold onopen, clearTimeout. unfold_M. simpl.
  destruct (reconnectTimer w) as [t|] eqn:Ht; simpl.
  - pose proof (handleEvent_beyond U "system" "connected" JNull
                  (with_reconnectTimer None
                     (with_timers (filter (fun t' => t' ≠ t) (pending w))
                        (next_timer w) (with_isConnecting false w)))) as H.
    unfold beyond_scripts in H. simpl in H.
    destruct (_handleEvent U _ _ _ _) as [[[]|e] w']; simpl in *.
    all: split; [by simplify_eq|].
    all: intros t' [= <-]; replace (pending w') with
           (filter (fun t' => t' ≠ t) (pending w)) by by simplify_eq.
    all: by intros [? _]%list_elem_of_filter.
  - pose proof (handleEvent_beyond U "system" "connected" JNull
                  (with_isConnecting false w)) as H.
    unfold beyond_scripts in H. simpl in H.
    destruct (_handleEvent U _ _ _ _) as [[[]|e] w']; simpl in *.
    all: split; [simplify_eq; congruence|]. all: intros t [=].
Qed.

(** [disconnect] cancels the tracked timer. *)
Lemma disconnect_cancels_tracked (w : World) :
  reconnectTimer (disconnect w).2 = None ∧
  ∀ t, reconnectTimer w = Some t → t ∉ pending (disconnect w).2.
Proof.
  destruct (ws w) as [i|] eqn:Hws.
  - destruct (disconnect_policy w i Hws) as (_ & T & _ & N). done.
  - rewrite (disconnect_without_transport _ Hws). simpl.
    destruct (reconnectTimer w) as [t|] eqn:Ht; simpl.
    + split; [done|]. intros t' [= <-]. by intros [? _]%list_elem_of_filter.
    + split; [done|]. intros t [=].
Qed.

(** C2, failing run. An open event and [disconnect] cancel the tracked
    timer before anything else. A close event and [connect] do not: a
    connection attempt fails and arms timer 1; the application calls
    [connect] again before the timer fires; that attempt fails too and arms
    timer 2 without cancelling timer 1. Two timers are pending, one of them
    untracked: [disconnect] cancels only the tracked one, and the other
    still fires and reconnects. *)
Theorem C2_second_close_leaves_two_pending_timers :
  (∀ U w t, reconnectTimer w = Some t → t ∉ pending (onopen U w).2) ∧
  (∀ w t, reconnectTimer w = Some t → t ∉ pending (disconnect w).2) ∧
  pending (run quiet [EConnect; EClose 0; EConnect; EClose 1] fresh_client)
    = [1; 2] ∧
  reconnectTimer (run quiet [EConnect; EClose 0; EConnect; EClose 1] fresh_client)
    = Some 2 ∧
  pending (run quiet [EConnect; EClose 0; EConnect; EClose 1; EDisconnect]
             fresh_client) = [1] ∧
  ws (run quiet [EConnect; EClose 0; EConnect; EClose 1; EDisconnect; ETimer 1]
        fresh_client) = Some 2.
Proof.
  split; [intros U w; apply onopen_cancels_tracked|].
  split; [intros w; apply disconnect_cancels_tracked|].
  vm_compute. repeat split; reflexivity.
Qed.

(** ** The identity handshake *)

Lemma onmessage_init (U : UserCode) (w : World) (message data id : json) :
  get_prop message "namespace" = Ok (JStr "system") →
  get_prop message "event" = Ok (JStr "init") →
  get_prop message "data" = Ok data →
  get_prop data "clientId" = Ok id →
  onmessage U (Parsed message) w =
    match onReady w with
    | None => _handleEvent U "system" "init" data (with_clientId id w)
    | Some cb =>
        match call_ready U cb id (with_clientId id w) with
        | (Ok _, w2) => _handleEvent U "system" "init" data w2
        | (Throw e, w2) =>
            (Ok tt, with_console (console w2 ++ [LogParseFailure e]) w2)
        end
    end.
Proof.
  intros Hns Hev Hdata Hid.
  unfold onmessage, read, JSON_parse, handle_frame, console_error. unfold_M.
  rewrite Hns, Hev, Hdata, Hid. simpl.
  destruct (onReady w) as [cb|].
  - destruct (call_ready U cb id (with_clientId id w)) as [[[]|e] w2]; [|done].
    destruct (handleEvent_spec U "system" "init" data w2) as (? & w' & -> & _).
    done.
  - destruct (handleEvent_spec U "system" "init" data (with_clientId id w))
      as (? & w' & -> & _).
    done.
Qed.

Lemma onmessage_init_without_data (U : UserCode) (w : World) (message data : json) :
  get_prop message "namespace" = Ok (JStr "system") →
  get_prop message "event" = Ok (JStr "init") →
  get_prop message "data" = Ok data →
  data = JUndefined ∨ data = JNull →
  onmessage U (Parsed message) w =
    (Ok tt, with_console (console w ++ [LogParseFailure TypeError]) w).
Proof.
  intros Hns Hev Hdata Hnone.
  unfold onmessage, read, JSON_parse, handle_frame, console_error. unfold_M.
  rewrite Hns, Hev, Hdata. simpl. by destruct Hnone as [-> | ->].
Qed.

Lemma call_ready_effect (U : UserCode) (cb : cbid) (id : json) (w : World) :
  calls (call_ready U cb id w).2 = calls w ++ [CallReady cb id] ∧
  beyond_scripts (call_ready U cb id w).2 = beyond_scripts w.
Proof.
  unfold call_ready, record_call. unfold_M.
  destruct (run_script_frame (ready_body U cb id)
              (with_calls (calls w ++ [CallReady cb id]) w)) as [Hc Hb].
  by destruct (run_script _ _) as [[[]|e] w'].
Qed.

Lemma handleEvent_effect (U : UserCode) (ns ev : string) (data : json) (w : World) :
  (∃ invoked, calls (_handleEvent U ns ev data w).2 =
                calls w ++ ((fun c => CallHandler ns ev c data) <$> invoked)) ∧
  beyond_scripts (_handleEvent U ns ev data w).2 = beyond_scripts w.
Proof.
  split.
  - destruct (handleEvent_spec U ns ev data w) as (invoked & w' & -> & Hc & _).
    by exists invoked.
  - apply (pres_handleEvent (fun _ => True) (unchanged beyond_scripts)
             U ns ev data (fun _ => I) w).
Qed.

Lemma filter_ready_handler_calls (cb : cbid) (ns ev : string) (data : json)
    (invoked : list cbid) :
  filter (fun c => is_ready_call cb c = true)
         ((fun c => CallHandler ns ev c data) <$> invoked) = [].
Proof.
  induction invoked as [|c l IH]; [done|].
  rewrite fmap_cons, filter_cons_False; [exact IH|]. simpl. discriminate.
Qed.

Lemma ready_calls_after_init (U : UserCode) (cb : cbid) (w : World)
    (message data id : json) :
  onReady w = Some cb →
  get_prop message "namespace" = Ok (JStr "system") →
  get_prop message "event" = Ok (JStr "init") →
  get_prop message "data" = Ok data →
  get_prop data "clientId" = Ok id →
  ready_calls cb (onmessage U (Parsed message) w).2 = S (ready_calls cb w) ∧
  CallReady cb id ∈ calls (onmessage U (Parsed message) w).2.
Proof.
  intros Hcb Hns Hev Hdata Hid.
  rewrite (onmessage_init U w message data id Hns Hev Hdata Hid), Hcb.
  destruct (call_ready_effect U cb id (with_clientId id w)) as [Hc _].
  destruct (call_ready U cb id (with_clientId id w)) as [[[]|e] w2];
    simpl in Hc.
  - destruct (handleEvent_effect U "system" "init" data w2) as [[inv Hh] _].
    unfold ready_calls. rewrite Hh, Hc. split.
    + rewrite !filter_app, filter_ready_handler_calls, !length_app.
      rewrite filter_cons_True by (simpl; by apply bool_decide_eq_true).
      simpl. lia.
    + apply elem_of_app. left. apply elem_of_app. right. by left.
  - unfold ready_calls. simpl. rewrite Hc. split.
    + rewrite filter_app, length_app.
      rewrite filter_cons_True by (simpl; by apply bool_decide_eq_true).
      simpl. lia.
    + apply elem_of_app. right. by left.
Qed.

Lemma same_onReady_run (U : UserCode) (events : list Event) (w : World) :
  (∀ e c, e ∈ events → e ≠ EReady c) → onReady (run U events w) = onReady w.
Proof. intros H. by apply (preserves_run same_onReady). Qed.

(** C4, amended. Called while [clientId] is unknown, [ready] stores the
    callback and does not call it. The callback stays stored whatever
    happens next, [disconnect] and close events included, until another call
    of [ready] stores a callback in its place. Every [system:init] frame
    whose data is an object calls the stored callback exactly once, with the
    frame's [clientId]: it is called again on the init frame of a later
    connection. *)
Theorem C4_stored_ready_callback_fires_on_every_init
    (U : UserCode) (cb : cbid) (w : World) :
  truthy (clientId w) = false →
  ready U cb w = (Ok tt, with_onReady (Some cb) w) ∧
  (∀ events, (∀ e c, e ∈ events → e ≠ EReady c) →
     onReady (run U events (ready U cb w).2) = Some cb) ∧
  (∀ w' message data id,
     onReady w' = Some cb →
     get_prop message "namespace" = Ok (JStr "system") →
     get_prop message "event" = Ok (JStr "init") →
     get_prop message "data" = Ok data →
     get_prop data "clientId" = Ok id →
     ready_calls cb (onmessage U (Parsed message) w').2 = S (ready_calls cb w') ∧
     CallReady cb id ∈ calls (onmessage U (Parsed message) w').2).
Proof.
  intros Hunknown.
  assert (ready U cb w = (Ok tt, with_onReady (Some cb) w)) as Hready
    by (unfold ready; unfold_M; by rewrite Hunknown).
  split; [done|]. split.
  - intros events Hev. rewrite Hready. simpl. by rewrite same_onReady_run.
  - intros w' message data id. apply ready_calls_after_init.
Qed.

(** C4, counterexample. [ready(7)] is called once, before connecting. The
    first connection delivers an init frame, the application disconnects and
    connects again, and the second connection delivers an init frame:
    callback 7 is called for both, with no new call of [ready]. *)
Lemma C4_counterexample_ready_callback_called_again :
  calls (run quiet
           [EReady 7; EConnect; EOpen 0;
            EMessage 0 (Parsed (init_frame (JObj [("clientId", JStr "abc")])));
            EDisconnect; EConnect; EOpen 1;
            EMessage 1 (Parsed (init_frame (JObj [("clientId", JStr "def")])))]
           fresh_client)
  = [CallReady 7 (JStr "abc"); CallReady 7 (JStr "def")].
Proof. vm_compute. reflexivity. Qed.

Lemma C4_witness :
  truthy (clientId fresh_client) = false ∧
  ready quiet 7 fresh_client = (Ok tt, with_onReady (Some 7) fresh_client).
Proof.
  assert (truthy (clientId fresh_client) = false) as H by reflexivity.
  split; [exact H|].
  exact (proj1 (C4_stored_ready_callback_fires_on_every_init quiet 7
                  fresh_client H)).
Defined.

(** C10, amended. A [system:init] frame whose data is present (not
    [undefined], not [null]) but has no [clientId] sets [clientId] to
    [undefined] and calls the stored ready callback, if any, with
    [undefined]; it is then dispatched to the registered handlers, provided
    that callback returned normally. If the callback throws, or if the data
    is absent so that reading [clientId] throws, the message handler catches
    the exception and logs it, and the frame is not dispatched; with absent
    data nothing else changes. *)
Theorem C10_init_frame_without_clientId
    (U : UserCode) (w : World) (message data : json) :
  get_prop message "namespace" = Ok (JStr "system") →
  get_prop message "event" = Ok (JStr "init") →
  get_prop message "data" = Ok data →
  (get_prop data "clientId" = Ok JUndefined →
   clientId (onmessage U (Parsed message) w).2 = JUndefined ∧
   match onReady w with
   | None =>
       onmessage U (Parsed message) w =
         _handleEvent U "system" "init" data (with_clientId JUndefined w)
   | Some cb =>
       calls (call_ready U cb JUndefined (with_clientId JUndefined w)).2 =
         calls w ++ [CallReady cb JUndefined] ∧
       match call_ready U cb JUndefined (with_clientId JUndefined w) with
       | (Ok _, w2) =>
           onmessage U (Parsed message) w = _handleEvent U "system" "init" data w2
       | (Throw e, w2) =>
           onmessage U (Parsed message) w =
             (Ok tt, with_console (console w2 ++ [LogParseFailure e]) w2)
       end
   end) ∧
  (data = JUndefined ∨ data = JNull →
   onmessage U (Parsed message) w =
     (Ok tt, with_console (console w ++ [LogParseFailure TypeError]) w)).
Proof.
  intros Hns Hev Hdata. split.
  - intros Hid.
    pose proof (onmessage_init U w message data JUndefined Hns Hev Hdata Hid) as Hm.
    assert (∀ w0, clientId (_handleEvent U "system" "init" data w0).2 = clientId w0)
      as Hkeep.
    { intros w0. destruct (handleEvent_effect U "system" "init" data w0) as [_ H].
      unfold beyond_scripts in H. by simplify_eq. }
    destruct (onReady w) as [cb|].
    + destruct (call_ready_effect U cb JUndefined (with_clientId JUndefined w))
        as [Hc Hb].
      assert (clientId (call_ready U cb JUndefined (with_clientId JUndefined w)).2
              = JUndefined) as Hcid
        by (unfold beyond_scripts in Hb; by simplify_eq).
      destruct (call_ready U cb JUndefined (with_clientId JUndefined w))
        as [[[]|e] w2]; simpl in *; rewrite Hm.
      * by rewrite Hkeep.
      * done.
    + rewrite Hm. by rewrite Hkeep.
  - by apply onmessage_init_without_data.
Qed.

(** C10, counterexample. A ready callback that throws is stored and a
    handler is registered for [system:init]. An init frame whose data is an
    object without [clientId] calls the ready callback with [undefined];
    the handler is not called and the exception is logged. *)
Lemma C10_counterexample_throwing_ready_callback_drops_frame :
  calls (run failing_ready
           [EReady 7; ERegisterEvent "system" "init" 1; EConnect; EOpen 0;
            EMessage 0 (Parsed (init_frame (JObj [])))]
           fresh_client)
  = [CallReady 7 JUndefined] ∧
  console (run failing_ready
           [EReady 7; ERegisterEvent "system" "init" 1; EConnect; EOpen 0;
            EMessage 0 (Parsed (init_frame (JObj [])))]
           fresh_client)
  = [LogParseFailure UserError].
Proof. vm_compute. split; reflexivity. Qed.

Lemma C10_witness :
  get_prop (init_frame (JObj [])) "namespace" = Ok (JStr "system") ∧
  get_prop (init_frame (JObj [])) "event" = Ok (JStr "init") ∧
  get_prop (init_frame (JObj [])) "data" = Ok (JObj []) ∧
  get_prop (JObj []) "clientId" = Ok JUndefined ∧
  clientId (onmessage quiet (Parsed (init_frame (JObj []))) fresh_client).2
    = JUndefined.
Proof.
  assert (get_prop (init_frame (JObj [])) "namespace" = Ok (JStr "system"))
    as H1 by reflexivity.
  assert (get_prop (init_frame (JObj [])) "event" = Ok (JStr "init"))
    as H2 by reflexivity.
  assert (get_prop (init_frame (JObj [])) "data" = Ok (JObj []))
    as H3 by reflexivity.
  assert (get_prop (JObj []) "clientId" = Ok JUndefined) as H4 by reflexivity.
  split; [exact H1|]. split; [exact H2|]. split; [exact H3|]. split; [exact H4|].
  exact (proj1 (proj1 (C10_init_frame_without_clientId quiet fresh_client
                         (init_frame (JObj [])) (JObj []) H1 H2 H3) H4)).
Defined.

(** ** Metadata *)

Lemma refs_in_set_prop (D : loc → Prop) (o : obj) (k : string) (v : val) :
  refs_in D o → (∀ l, v = VRef l → D l) → refs_in D (set_prop o k v).
Proof.
  intros Ho Hv. induction o as [|[k' v'] o IH]; simpl.
  - intros k0 l Hin. apply list_elem_of_singleton in Hin. apply Hv. congruence.
  - destruct (String.eqb k k').
    + intros k0 l Hin. apply elem_of_cons in Hin as [Heq|Hin].
      * apply Hv. congruence.
      * apply (Ho k0). by right.
    + intros k0 l Hin. apply elem_of_cons in Hin as [Heq|Hin].
      * apply (Ho k0). rewrite Heq. by left.
      * revert Hin. apply IH. intros k1 l1 H1. apply (Ho k1). by right.
Qed.

Lemma refs_in_spread (D : loc → Prop) (a b : obj) :
  refs_in D a → refs_in D b → refs_in D (spread a b).
Proof.
  unfold spread. revert a. induction b as [|[k v] b IH]; intros a Ha Hb; [done|].
  simpl. apply IH.
  - apply refs_in_set_prop; [done|]. intros l ->. apply (Hb k). by left.
  - intros k' l' H. apply (Hb k'). by right.
Qed.

Lemma stringify_props_agree (D : loc → Prop) (f g : val → option (option json))
    (o : obj) :
  (∀ v, (∀ l, v = VRef l → D l) → f v = g v) →
  refs_in D o → stringify_props f o = stringify_props g o.
Proof.
  intros Hfg. induction o as [|[k v] o IH]; intros Ho; [done|].
  simpl. rewrite (Hfg v), IH; [done| |].
  - intros k' l' H. apply (Ho k'). by right.
  - intros l ->. apply (Ho k). by left.
Qed.

(** Serialisation reads only what can be reached: two heaps that agree on a
    closed set of locations serialise its values alike. *)
Lemma stringify_val_agree (D : loc → Prop) (h h' : gmap loc obj) (depth : nat)
    (v : val) :
  (∀ l, D l → h !! l = h' !! l) →
  (∀ l, D l → refs_in D (props_of h l)) →
  (∀ l, v = VRef l → D l) →
  stringify_val depth h v = stringify_val depth h' v.
Proof.
  intros Hagree Hclosed. revert v.
  induction depth as [|d IH]; intros v Hv; destruct v as [| | | | |l]; try done.
  simpl. assert (D l) as Hl by by apply Hv.
  assert (props_of h' l = props_of h l) as -> by (unfold props_of; by rewrite Hagree).
  by rewrite (stringify_props_agree D (stringify_val d h) (stringify_val d h')
                (props_of h l) IH (Hclosed l Hl)).
Qed.

Lemma heap_closed_refs_in (h : gmap loc obj) (l : loc) :
  heap_closed h → refs_in (fun l' => is_Some (h !! l')) (props_of h l).
Proof.
  intros Hc k l' Hin. unfold props_of in Hin.
  destruct (h !! l) as [o|] eqn:Ho; simpl in Hin; [by eapply Hc|].
  by apply elem_of_nil in Hin.
Qed.

Lemma getMetadata_alloc (w : World) :
  getMetadata w =
    (Ok (fresh (dom (heap w))),
     with_heap (<[fresh (dom (heap w)) :=
                    spread [] (props_of (heap w) (metadata w))]> (heap w)) w).
Proof. reflexivity. Qed.

Lemma getMetadata_copy (w : World) :
  props_of (heap (getMetadata w).2) (fresh (dom (heap w))) =
  spread [] (props_of (heap w) (metadata w)).
Proof. unfold props_of at 1. simpl. by rewrite lookup_insert_eq. Qed.

Lemma fresh_loc_unused (h : gmap loc obj) : h !! fresh (dom h) = None.
Proof. apply not_elem_of_dom, is_fresh. Qed.

(** What writes to a fresh object [r] leave alone: the metadata reference,
    every object of the heap [h0] that [r] was not part of, and the number
    of objects. *)
Lemma write_all_frame (U : UserCode) (h0 : gmap loc obj) (r : loc)
    (writes : list (string * val)) (w : World) :
  h0 !! r = None → is_Some (heap w !! r) →
  (∀ l, is_Some (h0 !! l) → heap w !! l = h0 !! l) →
  metadata (write_all U r writes w) = metadata w ∧
  size (heap (write_all U r writes w)) = size (heap w) ∧
  (∀ l, is_Some (h0 !! l) → heap (write_all U r writes w) !! l = h0 !! l) ∧
  sockets (write_all U r writes w) = sockets w ∧
  ws (write_all U r writes w) = ws w.
Proof.
  intros Hr. revert w. unfold write_all.
  induction writes as [|[k v] writes IH]; intros w Hin Hagree; simpl; [done|].
  set (w1 := step U w (EWrite r k v)).
  assert (metadata w1 = metadata w ∧ size (heap w1) = size (heap w) ∧
          is_Some (heap w1 !! r) ∧
          (∀ l, is_Some (h0 !! l) → heap w1 !! l = h0 !! l) ∧
          sockets w1 = sockets w ∧ ws w1 = ws w) as (Hm & Hs & Hin1 & Hag1 & Hso & Hws).
  { unfold w1, step. simpl. unfold_M.
    destruct (_ && _); simpl; [|done].
    split; [done|]. split; [|split; [|split; [|done]]].
    - by rewrite map_size_insert_Some.
    - rewrite lookup_insert_eq. eauto.
    - intros l Hl. rewrite lookup_insert_ne; [by apply Hagree|].
      intros <-. rewrite Hr in Hl. by destruct Hl. }
  destruct (IH w1 Hin1 Hag1) as (Hm' & Hs' & Hag' & Hso' & Hws').
  split; [congruence|]. split; [congruence|]. split; [done|].
  split; congruence.
Qed.

(** *** The heap of a session stays closed *)

Global Instance same_heap_script :
  ScriptFrame (fun _ => True) (unchanged (fun w => (heap w, metadata w))).
Proof. split; [apply _|..]; done. Qed.

Global Instance same_heap_frame :
  Frame (fun _ => True) (unchanged (fun w => (heap w, metadata w))).
Proof. split; [apply _|..]; done. Qed.

Global Instance same_heap_lifecycle :
  Lifecycle (unchanged (fun w => (heap w, metadata w))).
Proof. split; [apply _|..]; done. Qed.

Lemma heap_closed_insert (h : gmap loc obj) (r : loc) (o : obj) :
  heap_closed h → refs_in (fun l => is_Some (h !! l)) o →
  heap_closed (<[r := o]> h).
Proof.
  intros Hc Ho l o' k l' Hl Hin.
  apply lookup_insert_is_Some'. right.
  apply lookup_insert_Some in Hl as [[<- <-]|[_ Hl]].
  - by apply (Ho k).
  - by eapply Hc.
Qed.

Lemma refs_in_checked (h : gmap loc obj) (o : obj) :
  forallb (fun kv => val_in_heap h kv.2) o = true →
  refs_in (fun l => is_Some (h !! l)) o.
Proof.
  intros H k l Hin. rewrite forallb_forall in H.
  specialize (H (k, VRef l)). simpl in H.
  eapply bool_decide_eq_true_1, H. by apply list_elem_of_In.
Qed.

Lemma same_heap_ready (U : UserCode) (cb : cbid) :
  preserves (unchanged (fun w => (heap w, metadata w))) (ready U cb).
Proof.
  unfold ready. repeat pres_step.
  - apply (pres_call_ready (fun _ => True)); [apply _|done].
  - by apply preserves_modify.
Qed.

Lemma heap_ok_step (U : UserCode) (w : World) (e : Event) :
  heap_ok w → heap_ok (step U w e).
Proof.
  intros [Hc Hm]. unfold step.
  destruct (touches_heap e) eqn:Hheap.
  - destruct e; try discriminate Hheap; simpl; unfold_M; unfold heap_ok; simpl.
    + split.
      * apply heap_closed_insert; [done|].
        apply refs_in_spread; [|by apply heap_closed_refs_in].
        apply refs_in_spread; [|by apply heap_closed_refs_in].
        by intros k l Hin%elem_of_nil.
      * rewrite lookup_insert_eq. eauto.
    + split.
      * apply heap_closed_insert; [done|].
        apply refs_in_spread; [|by apply heap_closed_refs_in].
        by intros k l Hin%elem_of_nil.
      * apply lookup_insert_is_Some'. by right.
    + destruct (forallb _ o) eqn:Ho; simpl; [|done]. split.
      * apply heap_closed_insert; [done|]. by apply refs_in_checked.
      * apply lookup_insert_is_Some'. by right.
    + destruct (_ && _) eqn:Hg; simpl; [|done].
      apply andb_true_iff in Hg as [_ Hv]. split.
      * apply heap_closed_insert; [done|].
        apply refs_in_set_prop; [by apply heap_closed_refs_in|].
        intros l' ->. by apply bool_decide_eq_true_1 in Hv.
      * apply lookup_insert_is_Some'. by right.
  - assert (unchanged (fun w => (heap w, metadata w)) w (exec U e w).2) as Hsame.
    { assert ((∃ cb, e = EReady cb) ∨ ∀ cb, e ≠ EReady cb) as [[cb ->]|Hne]
        by (destruct e; eauto; right; intros; discriminate).
      - apply same_heap_ready.
      - by apply pres_exec_session; [apply _| |]. }
    unfold unchanged in Hsame. unfold heap_ok.
    by replace (heap (exec U e w).2) with (heap w) by congruence;
       replace (metadata (exec U e w).2) with (metadata w) by congruence.
Qed.

Lemma heap_ok_run (U : UserCode) (events : list Event) (w : World) :
  heap_ok w → heap_ok (run U events w).
Proof.
  revert w. induction events as [|e events IH]; intros w H; simpl; [done|].
  by apply IH, heap_ok_step.
Qed.

Lemma heap_ok_constructor (window : option Location) (options : Options)
    (h : gmap loc obj) :
  heap_closed h → heap_ok (constructor window options h).
Proof.
  intros Hc. split; simpl.
  - apply heap_closed_insert; [done|]. by intros k l Hin%elem_of_nil.
  - rewrite lookup_insert_eq. eauto.
Qed.

Lemma heap_ok_fresh_client : heap_ok fresh_client.
Proof.
  apply heap_ok_constructor. intros l o k l' Hl. by rewrite lookup_empty in Hl.
Qed.

(** C9, amended. In a state whose heap is closed and holds the metadata
    object, as every state reached from a new client is ([heap_ok_run]),
    [getMetadata] returns a new object that holds the
    top-level properties of the metadata. Whatever properties the
    application then writes on the returned object, the metadata keeps its
    own properties, later [getMetadata] calls return the same properties
    again, and later frames carry the same metadata. Values that are objects
    are shared between the metadata and the copy, so a write inside such a
    nested object is not covered. *)
Theorem C9_getMetadata_copies_top_level
    (U : UserCode) (w : World) (writes : list (string * val)) :
  heap_ok w →
  ∃ r w1,
    getMetadata w = (Ok r, w1) ∧
    r ≠ metadata w ∧ heap w !! r = None ∧
    props_of (heap w1) r = spread [] (props_of (heap w) (metadata w)) ∧
    metadata (write_all U r writes w1) = metadata w ∧
    props_of (heap (write_all U r writes w1)) (metadata w)
      = props_of (heap w) (metadata w) ∧
    props_of (heap (getMetadata (write_all U r writes w1)).2)
             (fresh (dom (heap (write_all U r writes w1))))
      = spread [] (props_of (heap w) (metadata w)) ∧
    metadata_snapshot (write_all U r writes w1) = metadata_snapshot w1 ∧
    ∀ ns ev data,
      (∀ l, data = Some l → is_Some (heap w !! l)) →
      stringify_frame (write_all U r writes w1) ns ev
                      (send_payload (write_all U r writes w1) data)
      = stringify_frame w1 ns ev (send_payload w1 data).
Proof.
  intros [Hclosed Hmeta]. rewrite getMetadata_alloc.
  set (r := fresh (dom (heap w))).
  set (w1 := with_heap (<[r := spread [] (props_of (heap w) (metadata w))]> (heap w)) w).
  pose proof (fresh_loc_unused (heap w)) as Hfresh. fold r in Hfresh.
  assert (r ≠ metadata w) as Hne.
  { intros Heq. rewrite Heq in Hfresh. rewrite Hfresh in Hmeta. by destruct Hmeta. }
  assert (∀ l, is_Some (heap w !! l) → heap w1 !! l = heap w !! l) as Hag1.
  { intros l Hl. simpl. rewrite lookup_insert_ne; [done|].
    intros <-. rewrite Hfresh in Hl. by destruct Hl. }
  assert (is_Some (heap w1 !! r)) as Hin1 by (simpl; rewrite lookup_insert_eq; eauto).
  destruct (write_all_frame U (heap w) r writes w1 Hfresh Hin1 Hag1)
    as (Hm & Hsize & Hag & _ & _).
  change (metadata w1) with (metadata w) in Hm.
  set (w2 := write_all U r writes w1) in *.
  assert (∀ l, is_Some (heap w !! l) → props_of (heap w2) l = props_of (heap w) l)
    as Hprops2 by (intros l Hl; unfold props_of; by rewrite Hag).
  assert (∀ l, is_Some (heap w !! l) → props_of (heap w1) l = props_of (heap w) l)
    as Hprops1 by (intros l Hl; unfold props_of; by rewrite Hag1).
  assert (∀ v, (∀ l, v = VRef l → is_Some (heap w !! l)) →
            stringify_val (size (heap w2)) (heap w2) v =
            stringify_val (size (heap w1)) (heap w1) v) as Hser.
  { intros v Hv. rewrite Hsize.
    transitivity (stringify_val (size (heap w1)) (heap w) v).
    - symmetry. apply (stringify_val_agree (fun l => is_Some (heap w !! l)));
        [by intros; symmetry; apply Hag|by intros; apply heap_closed_refs_in|done].
    - apply (stringify_val_agree (fun l => is_Some (heap w !! l)));
        [by intros; symmetry; apply Hag1|by intros; apply heap_closed_refs_in|done]. }
  exists r, w1. split; [done|]. split; [done|]. split; [done|].
  split; [apply (getMetadata_copy w)|].
  split; [done|]. split; [by apply Hprops2|]. split; [|split].
  - rewrite getMetadata_copy. fold w2. by rewrite Hm, Hprops2.
  - fold w2. unfold metadata_snapshot. rewrite Hm.
    change (metadata w1) with (metadata w).
    apply Hser. by intros l [= <-].
  - intros ns ev data Hdata. fold w2. unfold stringify_frame, send_payload.
    change (metadata w1) with (metadata w). rewrite Hm.
    assert (from_option (props_of (heap w2)) [] data
            = from_option (props_of (heap w1)) [] data) as ->.
    { destruct data as [l|]; [|done]. simpl.
      by rewrite Hprops2, Hprops1 by by apply Hdata. }
    rewrite (stringify_props_agree (fun l => is_Some (heap w !! l))
               (stringify_val (size (heap w2)) (heap w2))
               (stringify_val (size (heap w1)) (heap w1))); [done|exact Hser|].
    apply refs_in_set_prop; [|by intros l [= <-]].
    apply refs_in_spread; [by intros k l Hin%elem_of_nil|].
    destruct data as [l|]; simpl; [|by intros k l Hin%elem_of_nil].
    rewrite Hprops1 by by apply Hdata. by apply heap_closed_refs_in.
Qed.

(** C9, counterexample. The metadata holds a nested object. The
    application takes a copy with [getMetadata] and writes a property of the
    nested object it finds in the copy: the metadata that later frames carry
    has changed, and so has what a later [getMetadata] copy leads to. *)
Lemma C9_counterexample_nested_object_is_shared :
  (getMetadata client_with_nested_metadata).1 = Ok 4 ∧
  assoc "prefs" (props_of (heap (getMetadata client_with_nested_metadata).2) 4)
    = Some (VRef 1) ∧
  metadata_snapshot (getMetadata client_with_nested_metadata).2
    = Some (Some (JObj [("prefs", JObj [("theme", JStr "dark")])])) ∧
  metadata_snapshot
    (step quiet (getMetadata client_with_nested_metadata).2
          (EWrite 1 "theme" (VStr "light")))
    = Some (Some (JObj [("prefs", JObj [("theme", JStr "light")])])) ∧
  frames_written
    (run quiet [EGetMetadata; EWrite 1 "theme" (VStr "light");
                EConnect; EOpen 0; ESend "chat" "message" None]
         client_with_nested_metadata)
    = [JObj [("namespace", JStr "chat"); ("event", JStr "message");
             ("data", JObj [("metadata",
                             JObj [("prefs", JObj [("theme", JStr "light")])])])]].
Proof. vm_compute. repeat split; reflexivity. Qed.

Lemma C9_witness :
  heap_ok client_with_nested_metadata ∧
  ∃ r w1,
    getMetadata client_with_nested_metadata = (Ok r, w1) ∧
    metadata_snapshot
      (write_all quiet r [("prefs", VNull); ("extra", VNum 1)] w1)
    = metadata_snapshot w1.
Proof.
  pose proof (heap_ok_run quiet
              [ENewObject [("theme", VStr "dark")]; ENewObject [("prefs", VRef 1)];
               ESetMetadata 2]
              fresh_client heap_ok_fresh_client) as H.
  fold client_with_nested_metadata in H.
  split; [exact H|].
  destruct (C9_getMetadata_copies_top_level quiet client_with_nested_metadata
              [("prefs", VNull); ("extra", VNum 1)] H)
    as (r & w1 & Hget & _ & _ & _ & _ & _ & _ & Hsnap & _).
  exists r, w1. split; [exact Hget|exact Hsnap].
Defined.

(** * Further properties *)

(** ** More on the registry *)

Lemma with_eventHandlers_id (w : World) :
  with_eventHandlers (eventHandlers w) w = w.
Proof. by destruct w. Qed.

Lemma set_add_idem (cb : cbid) (E : list (option cbid)) :
  set_add cb (set_add cb E) = set_add cb E.
Proof.
  unfold set_add at 1. rewrite decide_True; [done|].
  unfold set_add. case_decide; [done|]. apply elem_of_app. right. by left.
Qed.

Lemma set_delete_absent (cb : cbid) (E : list (option cbid)) :
  Some cb ∉ E → set_delete cb E = E.
Proof.
  intros H. unfold set_delete. rewrite <-(list_fmap_id E) at 2.
  apply list_fmap_ext. intros i e He. case_decide; [|done]. subst e.
  destruct H. by eapply list_elem_of_lookup_2.
Qed.

Lemma registerEvent_twice (ns ev : string) (cb : cbid) (w : World) :
  registerEvent ns ev cb (registerEvent ns ev cb w).2 = registerEvent ns ev cb w.
Proof.
  unfold registerEvent. unfold_M. simpl. f_equal.
  unfold with_eventHandlers. simpl. f_equal.
  rewrite !lookup_insert_eq. simpl. rewrite !lookup_insert_eq. simpl.
  rewrite set_add_idem. by rewrite !insert_insert_eq.
Qed.

(** X1. [registerEvent] returns normally. It adds the callback to the set
    of its pair, last in dispatch order, unless the callback is in the set
    already; it changes the callbacks of no other pair; and a second call
    with the same arguments leaves the state as the first one left it. *)
Theorem X1_registerEvent_adds_callback_once (ns ev : string) (cb : cbid) (w : World) :
  (registerEvent ns ev cb w).1 = Ok tt ∧
  set_members (callbacks_of (eventHandlers (registerEvent ns ev cb w).2) ns ev) =
    (if decide (cb ∈ set_members (callbacks_of (eventHandlers w) ns ev))
     then set_members (callbacks_of (eventHandlers w) ns ev)
     else set_members (callbacks_of (eventHandlers w) ns ev) ++ [cb]) ∧
  (∀ ns' ev', ¬ (ns = ns' ∧ ev = ev') →
     callbacks_of (eventHandlers (registerEvent ns ev cb w).2) ns' ev' =
     callbacks_of (eventHandlers w) ns' ev') ∧
  registerEvent ns ev cb (registerEvent ns ev cb w).2 = registerEvent ns ev cb w.
Proof.
  split; [done|]. split; [|split].
  - rewrite callbacks_of_registerEvent, decide_True by done. apply set_members_add.
  - intros ns' ev' Hne. by rewrite callbacks_of_registerEvent, decide_False.
  - apply registerEvent_twice.
Qed.

Lemma unregisterEvent_absent (ns ev : string) (cb : cbid) (w : World) :
  cb ∉ set_members (callbacks_of (eventHandlers w) ns ev) →
  unregisterEvent ns ev cb w = (Ok tt, w).
Proof.
  rewrite elem_of_set_members. unfold callbacks_of, unregisterEvent. unfold_M.
  intros H. f_equal.
  destruct (eventHandlers w !! ns) as [m|] eqn:Hm; [|done]. simpl in H.
  destruct (m !! ev) as [E|] eqn:HE; [|done]. simpl in H.
  rewrite set_delete_absent by done.
  rewrite (insert_id m ev E HE), (insert_id _ ns m Hm).
  apply with_eventHandlers_id.
Qed.

(** X2. The function returned by [registerEvent] removes its callback from
    the set of its pair and nothing else: the other callbacks of the pair
    keep their order and no other pair changes. When the callback is not
    registered the state stays as it is, so calling the function twice is
    calling it once. Registering the callback again afterwards puts it last
    in dispatch order. *)
Theorem X2_unregister_removes_that_callback (ns ev : string) (cb : cbid) (w : World) :
  (unregisterEvent ns ev cb w).1 = Ok tt ∧
  set_members (callbacks_of (eventHandlers (unregisterEvent ns ev cb w).2) ns ev) =
    filter (fun c => c ≠ cb) (set_members (callbacks_of (eventHandlers w) ns ev)) ∧
  (∀ ns' ev', ¬ (ns = ns' ∧ ev = ev') →
     callbacks_of (eventHandlers (unregisterEvent ns ev cb w).2) ns' ev' =
     callbacks_of (eventHandlers w) ns' ev') ∧
  (cb ∉ set_members (callbacks_of (eventHandlers w) ns ev) →
     unregisterEvent ns ev cb w = (Ok tt, w)) ∧
  unregisterEvent ns ev cb (unregisterEvent ns ev cb w).2 =
    unregisterEvent ns ev cb w ∧
  set_members
    (callbacks_of
       (eventHandlers (registerEvent ns ev cb (unregisterEvent ns ev cb w).2).2)
       ns ev) =
    filter (fun c => c ≠ cb) (set_members (callbacks_of (eventHandlers w) ns ev))
      ++ [cb].
Proof.
  assert (set_members
            (callbacks_of (eventHandlers (unregisterEvent ns ev cb w).2) ns ev) =
          filter (fun c => c ≠ cb)
                 (set_members (callbacks_of (eventHandlers w) ns ev))) as Hdel
    by (rewrite callbacks_of_unregisterEvent, decide_True by done;
        apply set_members_delete).
  assert (cb ∉ set_members
            (callbacks_of (eventHandlers (unregisterEvent ns ev cb w).2) ns ev))
    as Hgone by (rewrite Hdel; by intros [? _]%list_elem_of_filter).
  split; [done|]. split; [done|]. split; [|split; [|split]].
  - intros ns' ev' Hne. by rewrite callbacks_of_unregisterEvent, decide_False.
  - apply unregisterEvent_absent.
  - rewrite (unregisterEvent_absent _ _ _ _ Hgone).
    reflexivity.
  - rewrite callbacks_of_registerEvent, decide_True by done.
    rewrite set_members_add, decide_False by done. by rewrite Hdel.
Qed.

Lemma for_of_callbacks_no_members (U : UserCode) (ns ev : string) (data : json)
    (steps i : nat) (w : World) :
  set_members (callbacks_of (eventHandlers w) ns ev) = [] →
  for_of_callbacks U steps i ns ev data w = (Ok tt, w).
Proof.
  intros Hnone. revert i. induction steps as [|k IH]; intros i; [done|].
  rewrite for_of_callbacks_S.
  destruct (callbacks_of (eventHandlers w) ns ev !! i) as [[cb|]|] eqn:He;
    [|apply IH|done].
  assert (cb ∈ set_members (callbacks_of (eventHandlers w) ns ev)) as Hin
    by (apply elem_of_set_members; by eapply list_elem_of_lookup_2).
  rewrite Hnone in Hin. by apply elem_of_nil in Hin.
Qed.

Lemma handleEvent_no_members (U : UserCode) (ns ev : string) (data : json)
    (w : World) :
  set_members (callbacks_of (eventHandlers w) ns ev) = [] →
  _handleEvent U ns ev data w = (Ok tt, w).
Proof.
  intros Hnone. unfold _handleEvent. unfold_M.
  destruct (eventHandlers w !! ns) as [m|]; [|done].
  destruct (m !! ev) as [E|]; [|done].
  by apply for_of_callbacks_no_members.
Qed.

(** X3. Dispatching an event for which no callback is registered (nothing
    was ever registered for the namespace or for the event, or everything
    has been unregistered) returns normally and leaves the state as it
    is. *)
Theorem X3_dispatch_without_callbacks
    (U : UserCode) (ns ev : string) (data : json) (w : World) :
  set_members (callbacks_of (eventHandlers w) ns ev) = [] →
  _handleEvent U ns ev data w = (Ok tt, w).
Proof. apply handleEvent_no_members. Qed.

Lemma X3_witness :
  set_members
    (callbacks_of
       (eventHandlers
          (foldl apply_op fresh_client
             [Register "chat" "message" 1; Register "chat" "join" 2;
              Unregister "chat" "message" 1]))
       "chat" "message") = [] ∧
  _handleEvent once_handlers "chat" "message" JNull
    (foldl apply_op fresh_client
       [Register "chat" "message" 1; Register "chat" "join" 2;
        Unregister "chat" "message" 1])
  = (Ok tt,
     foldl apply_op fresh_client
       [Register "chat" "message" 1; Register "chat" "join" 2;
        Unregister "chat" "message" 1]).
Proof.
  assert (set_members
    (callbacks_of
       (eventHandlers
          (foldl apply_op fresh_client
             [Register "chat" "message" 1; Register "chat" "join" 2;
              Unregister "chat" "message" 1]))
       "chat" "message") = []) as H by (vm_compute; reflexivity).
  split; [exact H|].
  exact (X3_dispatch_without_callbacks once_handlers "chat" "message" JNull _ H).
Defined.

(** ** More on plugins *)

Lemma assoc_app_None {A} (id : string) (l : list (string * A)) (v : A) :
  assoc id l = None → assoc id (l ++ [(id, v)]) = Some v.
Proof.
  induction l as [|[k x] l IH]; simpl; [by rewrite String.eqb_refl|].
  destruct (String.eqb id k); [done|exact IH].
Qed.

Lemma assoc_app_ne {A} (id id' : string) (l : list (string * A)) (v : A) :
  id' ≠ id → assoc id' (l ++ [(id, v)]) = assoc id' l.
Proof.
  intros Hne. induction l as [|[k x] l IH]; simpl.
  - by destruct (String.eqb_spec id' id).
  - destruct (String.eqb id' k); [done|exact IH].
Qed.

Lemma filter_assoc_None {A} (id : string) (l : list (string * A)) :
  assoc id l = None → filter (fun p => p.1 ≠ id) l = l.
Proof.
  induction l as [|[k x] l IH]; simpl; [done|].
  destruct (String.eqb_spec id k) as [->|Hne]; [done|]. intros H.
  rewrite filter_cons_True by (simpl; congruence). by rewrite IH.
Qed.

Lemma registerPlugin_effect (p : Plugin) (id : string) (w : World) :
  plugin_id p = Some id → id ≠ "" → assoc id (plugins w) = None →
  plugins (registerPlugin p w).2 = plugins w ++ [(id, p)] ∧
  calls (registerPlugin p w).2 =
    calls w ++ match initialize p with
               | Some _ => [CallInitialize id]
               | None => []
               end ∧
  connection_state (registerPlugin p w).2 = connection_state w ∧
  (initialize p = None → (registerPlugin p w).1 = Ok tt).
Proof.
  intros Hid Hne Hfresh.
  pose proof (pres_registerPlugin (fun _ => True) same_connection p (fun _ => I) w)
    as Hconn.
  destruct (initialize p) as [script|] eqn:Hinit.
  - rewrite (registerPlugin_runs_initializer p id script w Hid Hne Hfresh Hinit) in *.
    destruct (run_script_frame script (registering id p w)) as [Hc Hb].
    split; [unfold beyond_scripts in Hb; by simplify_eq|].
    split; [by rewrite Hc|]. split; [exact Hconn|done].
  - revert Hconn. unfold registerPlugin. rewrite Hid.
    destruct (String.eqb_spec id "") as [->|_]; [done|].
    unfold_M. rewrite Hfresh, Hinit. simpl. intros Hconn.
    split; [done|]. split; [by rewrite app_nil_r|]. done.
Qed.

(** X4. [registerPlugin] with a non-empty id that is not registered yet
    adds the plugin at the end of what [getPlugins] returns and leaves the
    other plugins alone, whether the initializer returns or throws. It calls
    the initializer once when the plugin has one, and calls nothing else; it
    does not change the connection state; without an initializer it returns
    normally. *)
Theorem X4_registerPlugin_registers (p : Plugin) (id : string) (w : World) :
  plugin_id p = Some id → id ≠ "" → assoc id (plugins w) = None →
  getPlugins (registerPlugin p w).2 = getPlugins w ++ [p] ∧
  assoc id (plugins (registerPlugin p w).2) = Some p ∧
  (∀ id', id' ≠ id →
     assoc id' (plugins (registerPlugin p w).2) = assoc id' (plugins w)) ∧
  calls (registerPlugin p w).2 =
    calls w ++ match initialize p with
               | Some _ => [CallInitialize id]
               | None => []
               end ∧
  connection_state (registerPlugin p w).2 = connection_state w ∧
  (initialize p = None → (registerPlugin p w).1 = Ok tt).
Proof.
  intros Hid Hne Hfresh.
  destruct (registerPlugin_effect p id w Hid Hne Hfresh) as (Hpl & Hc & Hconn & Hok).
  unfold getPlugins. rewrite Hpl.
  split; [by rewrite fmap_app|]. split; [by apply assoc_app_None|].
  split; [|done]. intros id' Hne'. by apply assoc_app_ne.
Qed.

Lemma X4_witness :
  getPlugins
    (registerPlugin
       {| plugin_id := Some "p"; initialize := Some [CThrow]; cleanup := None |}
       fresh_client).2
  = [{| plugin_id := Some "p"; initialize := Some [CThrow]; cleanup := None |}].
Proof.
  refine (proj1 (X4_registerPlugin_registers
                   {| plugin_id := Some "p"; initialize := Some [CThrow];
                      cleanup := None |}
                   "p" fresh_client eq_refl _ eq_refl)).
  discriminate.
Defined.

Lemma unregisterPlugin_unknown (id : string) (w : World) :
  assoc id (plugins w) = None → unregisterPlugin id w = (Ok tt, w).
Proof. intros H. unfold unregisterPlugin. unfold_M. by rewrite H. Qed.

Lemma unregisterPlugin_calls (id : string) (p : Plugin) (w : World) :
  assoc id (plugins w) = Some p →
  calls (unregisterPlugin id w).2 =
    calls w ++ match cleanup p with
               | Some _ => [CallCleanup id]
               | None => []
               end.
Proof.
  intros Hp. unfold unregisterPlugin, record_call, console_error. unfold_M.
  rewrite Hp. destruct (cleanup p) as [script|]; [|by rewrite app_nil_r].
  destruct (run_script_frame script (with_calls (calls w ++ [CallCleanup id]) w))
    as [Hc _].
  by destruct (run_script script _) as [[[]|e] w1].
Qed.

(** X5. [unregisterPlugin] with an id that is not registered returns
    normally and changes nothing, so a second call for the same id does
    nothing. For a registered plugin it calls the cleanup once when the
    plugin has one, and calls nothing else. *)
Theorem X5_unregisterPlugin_is_idempotent (id : string) (w : World) :
  (assoc id (plugins w) = None → unregisterPlugin id w = (Ok tt, w)) ∧
  unregisterPlugin id (unregisterPlugin id w).2 =
    (Ok tt, (unregisterPlugin id w).2) ∧
  (∀ p, assoc id (plugins w) = Some p →
     calls (unregisterPlugin id w).2 =
       calls w ++ match cleanup p with
                  | Some _ => [CallCleanup id]
                  | None => []
                  end).
Proof.
  split; [apply unregisterPlugin_unknown|]. split.
  - apply unregisterPlugin_unknown.
    destruct (unregisterPlugin_effect id w) as (w' & -> & _ & H & _). exact H.
  - intros p. apply unregisterPlugin_calls.
Qed.

(** X6. [unregisterPlugin] with the plugin's id (what the function
    returned by [registerPlugin] calls), right after the registration,
    returns normally and leaves the plugin map as it was before the
    registration, also when the initializer threw or the cleanup throws;
    the initializer and the cleanup have each been called once, in this
    order. *)
Theorem X6_register_then_unregister_plugin (p : Plugin) (id : string) (w : World) :
  plugin_id p = Some id → id ≠ "" → assoc id (plugins w) = None →
  (unregisterPlugin id (registerPlugin p w).2).1 = Ok tt ∧
  plugins (unregisterPlugin id (registerPlugin p w).2).2 = plugins w ∧
  calls (unregisterPlugin id (registerPlugin p w).2).2 =
    calls w ++ match initialize p with
               | Some _ => [CallInitialize id]
               | None => []
               end
            ++ match cleanup p with
               | Some _ => [CallCleanup id]
               | None => []
               end.
Proof.
  intros Hid Hne Hfresh.
  destruct (registerPlugin_effect p id w Hid Hne Hfresh) as (Hpl & Hc & _).
  set (w1 := (registerPlugin p w).2) in *.
  assert (assoc id (plugins w1) = Some p) as Hp
    by (rewrite Hpl; by apply assoc_app_None).
  rewrite (unregisterPlugin_calls id p w1 Hp), Hc, <-app_assoc.
  split; [|split; [|done]].
  - by destruct (unregisterPlugin_effect id w1) as (w' & -> & _).
  - unfold unregisterPlugin, record_call, console_error. unfold_M. rewrite Hp.
    assert (filter (fun q : string * Plugin => q.1 ≠ id) (plugins w1) = plugins w)
      as Hfilter.
    { rewrite Hpl, filter_app, filter_assoc_None by done.
      rewrite filter_cons_False by (simpl; auto). by rewrite app_nil_r. }
    destruct (cleanup p) as [script|]; [|done].
    destruct (run_script_frame script (with_calls (calls w1 ++ [CallCleanup id]) w1))
      as [_ Hb].
    assert (plugins (run_script script
              (with_calls (calls w1 ++ [CallCleanup id]) w1)).2 = plugins w1) as Hsame
      by (unfold beyond_scripts in Hb; by simplify_eq).
    destruct (run_script script _) as [[[]|e] w2]; simpl in *; by rewrite Hsame.
Qed.

Lemma X6_witness :
  plugins (unregisterPlugin "p"
             (registerPlugin
                {| plugin_id := Some "p"; initialize := Some [CThrow];
                   cleanup := Some [CThrow] |}
                fresh_client).2).2 = [] ∧
  calls (unregisterPlugin "p"
           (registerPlugin
              {| plugin_id := Some "p"; initialize := Some [CThrow];
                 cleanup := Some [CThrow] |}
              fresh_client).2).2 = [CallInitialize "p"; CallCleanup "p"].
Proof.
  destruct (X6_register_then_unregister_plugin
              {| plugin_id := Some "p"; initialize := Some [CThrow];
                 cleanup := Some [CThrow] |}
              "p" fresh_client eq_refl ltac:(discriminate) eq_refl)
    as (_ & Hp & Hc).
  split; [exact Hp|exact Hc].
Defined.

(** ** Connecting *)

Lemma connect_effect (w : World) :
  connect w =
    (Ok tt, if live w || isConnecting w then w else attempting w).
Proof.
  unfold connect, live, attempting, new_WebSocket. unfold_M.
  destruct (match ws w with Some i => _ | None => false end); [done|].
  by destruct (isConnecting w).
Qed.

Lemma connect_cases (w : World) :
  connect w = (Ok tt, w) ∨ connect w = (Ok tt, attempting w).
Proof. rewrite connect_effect. destruct (_ || _); auto. Qed.

Lemma connect_again (w : World) :
  connect (connect w).2 = (Ok tt, (connect w).2).
Proof.
  destruct (connect_cases w) as [H | H]; rewrite H; simpl; [exact H|].
  rewrite connect_effect. unfold live, attempting, socket_state. simpl.
  rewrite lookup_app_r, Nat.sub_diag by done. reflexivity.
Qed.




(** ** Transport events *)

Lemma handleEvent_ok (U : UserCode) (ns ev : string) (data : json) (w : World) :
  (_handleEvent U ns ev data w).1 = Ok tt.
Proof. by destruct (handleEvent_spec U ns ev data w) as (? & w' & -> & _). Qed.

Lemma handleEvent_pair (U : UserCode) (ns ev : string) (data : json) (w : World) :
  _handleEvent U ns ev data w = (Ok tt, (_handleEvent U ns ev data w).2).
Proof. by destruct (handleEvent_spec U ns ev data w) as (? & w' & -> & _). Qed.

Lemma onopen_effect (U : UserCode) (w : World) :
  onopen U w = _handleEvent U "system" "connected" JNull (opened w).
Proof.
  unfold onopen, opened, clearTimeout. unfold_M. simpl.
  destruct (reconnectTimer w) as [t|]; simpl.
  - by destruct (_handleEvent U _ _ _ _) as [[[]|e] w'].
  - by destruct (_handleEvent U _ _ _ _) as [[[]|e] w'].
Qed.

Lemma onclose_effect (U : UserCode) (w : World) :
  onclose U w =
    (Ok tt,
     rearm (_handleEvent U "system" "disconnected" JNull
              (with_clientId JNull (with_isConnecting false w))).2).
Proof.
  unfold onclose, rearm, setTimeout. unfold_M. simpl.
  rewrite (handleEvent_pair U "system" "disconnected" JNull
             (with_clientId JNull (with_isConnecting false w))). simpl.
  by destruct (autoReconnect _).
Qed.

Lemma onclose_beyond (U : UserCode) (w : World) :
  beyond_scripts (onclose U w).2 =
  beyond_scripts (rearm (with_clientId JNull (with_isConnecting false w))).
Proof.
  rewrite onclose_effect. simpl.
  pose proof (handleEvent_beyond U "system" "disconnected" JNull
                (with_clientId JNull (with_isConnecting false w))) as H.
  revert H. generalize (_handleEvent U "system" "disconnected" JNull
                (with_clientId JNull (with_isConnecting false w))).2.
  intros w' H. unfold beyond_scripts in H. simpl in H.
  injection H as H1 H2 H3 H4 H5 H6 H7 H8 H9 H10 H11 H12 H13 H14.
  unfold rearm. simpl. rewrite H2.
  destruct (autoReconnect w) eqn:E; unfold beyond_scripts; simpl; congruence.
Qed.

Lemma try_catch_log_ok (m : M unit) (line : exn → LogLine) (w : World) :
  (try_catch m (fun e => console_error (line e)) w).1 = Ok tt.
Proof. unfold console_error. unfold_M. by destruct (m w) as [[[]|e] w']. Qed.

Lemma onmessage_ok (U : UserCode) (p : Payload) (w : World) :
  (onmessage U p w).1 = Ok tt.
Proof. unfold onmessage. apply (try_catch_log_ok _ LogParseFailure). Qed.

(** X8. No exception leaves the handlers that [connect] attaches to a
    transport: [onopen], [onclose], [onerror] and [onmessage] return
    normally whatever the payload is and whatever event handlers and ready
    callbacks do. An error event changes neither the connection state nor
    the client id. *)
Theorem X8_transport_handlers_never_throw (U : UserCode) (w : World) :
  (onopen U w).1 = Ok tt ∧
  (onclose U w).1 = Ok tt ∧
  (∀ error, (onerror U error w).1 = Ok tt ∧
            connection_state (onerror U error w).2 = connection_state w ∧
            clientId (onerror U error w).2 = clientId w) ∧
  (∀ event_data, (onmessage U event_data w).1 = Ok tt).
Proof.
  split; [|split; [|split]].
  - rewrite onopen_effect. apply handleEvent_ok.
  - by rewrite onclose_effect.
  - intros error. unfold onerror. split; [apply handleEvent_ok|]. split.
    + apply (pres_handleEvent (fun _ => True) same_connection U _ _ _ (fun _ => I) w).
    + pose proof (handleEvent_beyond U "system" "error" error w) as H.
      unfold beyond_scripts in H. by simplify_eq.
  - intros p. apply onmessage_ok.
Qed.

Lemma socket_state_set (i j : nat) (st : ReadyState) (w : World) :
  socket_state (set_socket_state i st w).2 j =
  if decide (j = i) then (fun _ => st) <$> socket_state w i else socket_state w j.
Proof.
  unfold socket_state, set_socket_state. unfold_M. simpl.
  rewrite list_lookup_alter. destruct (decide (j = i)) as [->|Hne].
  - rewrite decide_True by done. by destruct (sockets w !! i).
  - by rewrite decide_False by congruence.
Qed.

Lemma beyond_socket_state (w w' : World) :
  beyond_scripts w' = beyond_scripts w →
  ∀ i, socket_state w' i = socket_state w i.
Proof.
  intros H i. unfold beyond_scripts in H. unfold socket_state.
  assert (readyState <$> sockets w' = readyState <$> sockets w) as Hs
    by by simplify_eq.
  by rewrite <-!list_lookup_fmap, Hs.
Qed.

Lemma beyond_isConnected (w w' : World) :
  beyond_scripts w' = beyond_scripts w → isConnected w' = isConnected w.
Proof.
  intros H. unfold isConnected.
  assert (ws w' = ws w) as -> by (unfold beyond_scripts in H; by simplify_eq).
  destruct (ws w); [|done]. by rewrite (beyond_socket_state _ _ H).
Qed.

Lemma beyond_fields (w w' : World) :
  beyond_scripts w' = beyond_scripts w →
  autoReconnect w' = autoReconnect w ∧ ws w' = ws w ∧
  isConnecting w' = isConnecting w ∧ reconnectTimer w' = reconnectTimer w ∧
  clientId w' = clientId w ∧ pending w' = pending w ∧
  next_timer w' = next_timer w ∧ onReady w' = onReady w ∧
  plugins w' = plugins w ∧ heap w' = heap w ∧ metadata w' = metadata w ∧
  url w' = url w.
Proof.
  unfold beyond_scripts. intros H.
  injection H as H1 H2 H3 H4 H5 H6 H7 H8 H9 H10 H11 H12 H13 H14. done.
Qed.

Lemma step_open (U : UserCode) (w : World) (i : nat) :
  socket_state w i = Some CONNECTING →
  step U w (EOpen i) = (onopen U (set_socket_state i OPEN w).2).2.
Proof.
  intros H. unfold step. simpl. unfold_M.
  by rewrite bool_decide_eq_true_2.
Qed.

(** X9. When the transport in use opens, the client is connected:
    [isConnected] holds, [isConnecting] is off, no reconnect timer is
    tracked, the client id and the reconnection policy are what they were,
    and [send] is no longer refused for want of a connection. *)
Theorem X9_open_event_connects (U : UserCode) (w : World) (i : nat) :
  ws w = Some i → socket_state w i = Some CONNECTING →
  isConnected (step U w (EOpen i)) = true ∧
  isConnecting (step U w (EOpen i)) = false ∧
  reconnectTimer (step U w (EOpen i)) = None ∧
  ws (step U w (EOpen i)) = Some i ∧
  clientId (step U w (EOpen i)) = clientId w ∧
  autoReconnect (step U w (EOpen i)) = autoReconnect w ∧
  ∀ ns ev data, (send ns ev data (step U w (EOpen i))).1 ≠ Throw NotConnected.
Proof.
  intros Hws Hst. rewrite (step_open U w i Hst), onopen_effect.
  set (w1 := (set_socket_state i OPEN w).2).
  pose proof (handleEvent_beyond U "system" "connected" JNull (opened w1)) as Hb.
  set (w2 := (_handleEvent U "system" "connected" JNull (opened w1)).2) in *.
  assert (isConnected (opened w1) = true) as Hc1.
  { apply isConnected_spec. exists i.
    assert (ws (opened w1) = Some i ∧
            ∀ j, socket_state (opened w1) j = socket_state w1 j) as [-> Hj]
      by (unfold opened; by destruct (reconnectTimer w1)).
    split; [done|]. rewrite Hj. unfold w1.
    rewrite socket_state_set, decide_True by done.
    by rewrite Hst. }
  assert (isConnected w2 = true) as Hc2 by by rewrite (beyond_isConnected _ _ Hb).
  destruct (beyond_fields _ _ Hb) as (-> & -> & -> & -> & -> & _).
  split; [done|]. unfold opened.
  destruct (reconnectTimer w1) eqn:E; simpl; rewrite ?E;
    (do 5 (split; [done|])).
  all: intros ns ev data; apply isConnected_spec in Hc2 as (j & Hj & Hopen).
  all: destruct (stringify_frame w2 ns ev (send_payload w2 data)) as [frame|] eqn:Hfr;
    [by rewrite (send_connected ns ev data w2 j frame Hj Hopen Hfr)|].
  all: rewrite (send_unserialisable ns ev data w2); [done| |done].
  all: apply isConnected_spec; eauto.
Qed.

Lemma X9_witness :
  isConnected (step quiet (run quiet [EConnect] fresh_client) (EOpen 0)) = true.
Proof.
  refine (proj1 (X9_open_event_connects quiet (run quiet [EConnect] fresh_client) 0
                   _ _)); reflexivity.
Defined.

Lemma step_close (U : UserCode) (w : World) (i : nat) (st : ReadyState) :
  socket_state w i = Some st → st ≠ CLOSED →
  step U w (EClose i) = (onclose U (set_socket_state i CLOSED w).2).2.
Proof.
  intros H Hne. unfold step. simpl. unfold_M. rewrite H.
  by destruct st.
Qed.

Lemma length_sockets_beyond (w w' : World) :
  beyond_scripts w' = beyond_scripts w → length (sockets w') = length (sockets w).
Proof.
  intros H. unfold beyond_scripts in H.
  assert (readyState <$> sockets w' = readyState <$> sockets w) as Hs
    by by simplify_eq.
  by rewrite <-(length_fmap readyState (sockets w')), Hs, length_fmap.
Qed.

(** X10. Automatic reconnection. When the transport in use closes while
    [autoReconnect] is on, the client id is reset, the client is neither
    connected nor connecting, and one timer is armed and tracked. When that
    timer fires, [connect] creates a new transport instance for the same
    URL, in state CONNECTING, which becomes the transport in use; the timer
    is no longer pending. *)
Theorem X10_close_event_schedules_reconnect
    (U : UserCode) (w : World) (i : nat) (st : ReadyState) :
  ws w = Some i → socket_state w i = Some st → st ≠ CLOSED →
  autoReconnect w = true →
  clientId (step U w (EClose i)) = JNull ∧
  isConnected (step U w (EClose i)) = false ∧
  isConnecting (step U w (EClose i)) = false ∧
  pending (step U w (EClose i)) = pending w ++ [next_timer w] ∧
  reconnectTimer (step U w (EClose i)) = Some (next_timer w) ∧
  ws (step U (step U w (EClose i)) (ETimer (next_timer w)))
    = Some (length (sockets w)) ∧
  socket_state (step U (step U w (EClose i)) (ETimer (next_timer w)))
               (length (sockets w)) = Some CONNECTING ∧
  sock_url <$> sockets (step U (step U w (EClose i)) (ETimer (next_timer w)))
                 !! length (sockets w) = Some (url w) ∧
  next_timer w ∉ pending (step U (step U w (EClose i)) (ETimer (next_timer w))).
Proof.
  intros Hws Hst Hne Hauto. rewrite (step_close U w i st Hst Hne).
  set (w0 := (set_socket_state i CLOSED w).2).
  pose proof (onclose_beyond U w0) as Hb.
  set (w1 := (onclose U w0).2) in *.
  assert (rearm (with_clientId JNull (with_isConnecting false w0)) =
          with_reconnectTimer (Some (next_timer w))
            (with_timers (pending w ++ [next_timer w]) (S (next_timer w))
               (with_clientId JNull (with_isConnecting false w0)))) as Hre
    by (unfold rearm; simpl; by rewrite Hauto).
  rewrite Hre in Hb. clear Hre.
  assert (socket_state w1 i = Some CLOSED) as Hclosed.
  { rewrite (beyond_socket_state _ _ Hb).
    transitivity (socket_state w0 i); [reflexivity|]. unfold w0.
    rewrite socket_state_set, decide_True by done. by rewrite Hst. }
  destruct (beyond_fields _ _ Hb) as (_ & Hws1 & Hic & Hrt & Hid & Hp & Hnt & _).
  simpl in *.
  split; [done|]. split.
  { unfold isConnected. rewrite Hws1, Hws. rewrite Hclosed. done. }
  split; [done|]. split; [done|]. split; [done|].
  assert (step U w1 (ETimer (next_timer w)) =
          (connect (with_timers (filter (fun t' => t' ≠ next_timer w) (pending w1))
                                (next_timer w1) w1)).2) as ->.
  { unfold step. simpl. unfold_M. rewrite bool_decide_eq_true_2; [done|].
    rewrite Hp. apply elem_of_app. right. by left. }
  set (w1' := with_timers _ _ w1).
  assert (live w1' = false) as Hlive.
  { unfold live. simpl. rewrite Hws1, Hws.
    change (socket_state w1' i) with (socket_state w1 i). by rewrite Hclosed. }
  assert (length (sockets w1) = length (sockets w)) as Hlen.
  { rewrite (length_sockets_beyond _ _ Hb). simpl.
    unfold w0, set_socket_state. unfold_M. simpl. apply length_alter. }
  rewrite connect_effect, Hlive. simpl. rewrite Hic. simpl.
  split; [by rewrite Hlen|].
  unfold socket_state. simpl.
  rewrite <-Hlen, lookup_app_r, Nat.sub_diag by done. simpl.
  split; [done|]. split.
  - destruct (beyond_fields _ _ Hb) as (_ & _ & _ & _ & _ & _ & _ & _ & _ & _ & _ & ->).
    done.
  - by intros [? _]%list_elem_of_filter.
Qed.

Lemma X10_witness :
  pending (step quiet (run quiet [EConnect; EOpen 0] fresh_client) (EClose 0)) = [1] ∧
  ws (step quiet (step quiet (run quiet [EConnect; EOpen 0] fresh_client) (EClose 0))
           (ETimer 1)) = Some 1.
Proof.
  pose proof (X10_close_event_schedules_reconnect quiet
                (run quiet [EConnect; EOpen 0] fresh_client) 0 OPEN
                eq_refl eq_refl ltac:(discriminate) eq_refl)
    as (_ & _ & _ & Hp & _ & Hws & _).
  split; [exact Hp|exact Hws].
Defined.

(** ** Disconnecting *)

Lemma unregisterPlugin_beyond (id : string) (w : World) :
  beyond_scripts (with_plugins [] (unregisterPlugin id w).2) =
  beyond_scripts (with_plugins [] w).
Proof.
  unfold unregisterPlugin, record_call, console_error. unfold_M.
  destruct (assoc id (plugins w)) as [p|]; [|reflexivity].
  destruct (cleanup p) as [script|]; [|reflexivity].
  destruct (run_script_frame script (with_calls (calls w ++ [CallCleanup id]) w))
    as [_ Hb].
  destruct (run_script script _) as [[[]|e] w1]; simpl in *.
  all: unfold beyond_scripts in *; simpl in *.
  all: injection Hb as H1 H2 H3 H4 H5 H6 H7 H8 H9 H10 H11 H12 H13 H14; congruence.
Qed.

Lemma for_of_plugins_beyond (ids : list string) (w : World) :
  beyond_scripts (with_plugins [] (for_of_plugins ids w).2) =
  beyond_scripts (with_plugins [] w).
Proof.
  revert w. induction ids as [|id ids IH]; intros w; simpl; [done|].
  unfold_M. pose proof (unregisterPlugin_beyond id w) as H1.
  destruct (unregisterPlugin_effect id w) as (w1 & Hrun & _).
  rewrite Hrun in *. simpl in *. by rewrite IH.
Qed.

Lemma disconnect_beyond (w : World) (i : nat) :
  ws w = Some i →
  beyond_scripts (disconnect w).2 =
  beyond_scripts (with_plugins [] (disconnecting i w)).
Proof.
  intros Hws. rewrite (disconnect_with_transport _ _ Hws).
  pose proof (for_of_plugins_beyond (plugins w).*1 (disconnecting i w)) as H.
  destruct (for_of_plugins_effect (plugins w).*1 (disconnecting i w))
    as (w' & Hfor & _).
  rewrite Hfor in *. exact H.
Qed.

Lemma disconnected (w : World) :
  ws (disconnect w).2 = None ∧ reconnectTimer (disconnect w).2 = None ∧
  isConnecting (disconnect w).2 = isConnecting w.
Proof.
  destruct (ws w) as [i|] eqn:Hws.
  - destruct (beyond_fields _ _ (disconnect_beyond w i Hws))
      as (_ & -> & -> & -> & _).
    unfold disconnecting, ws_close. unfold_M.
    destruct (reconnectTimer w) eqn:E; simpl; by rewrite ?E.
  - rewrite (disconnect_without_transport _ Hws). simpl.
    by destruct (reconnectTimer w) eqn:E.
Qed.

Lemma socket_state_disconnecting (w : World) (i j : nat) :
  socket_state (disconnecting i w) j =
  if decide (j = i)
  then match socket_state w i with
       | Some CONNECTING | Some OPEN => Some CLOSING
       | st => st
       end
  else socket_state w j.
Proof.
  unfold disconnecting, ws_close, socket_state. unfold_M.
  destruct (reconnectTimer w); simpl; rewrite list_lookup_alter.
  all: destruct (decide (j = i)) as [->|Hne];
    [rewrite decide_True by done|by rewrite decide_False by congruence].
  all: destruct (sockets w !! i) as [s|]; [|done]; simpl.
  all: destruct (readyState s) eqn:E; simpl; by rewrite ?E.
Qed.

Lemma disconnect_sockets (w : World) (i : nat) :
  ws w = Some i →
  socket_state (disconnect w).2 i =
    match socket_state w i with
    | Some CONNECTING | Some OPEN => Some CLOSING
    | st => st
    end ∧
  (∀ j, j ≠ i → socket_state (disconnect w).2 j = socket_state w j) ∧
  length (sockets (disconnect w).2) = length (sockets w).
Proof.
  intros Hi.
  pose proof (beyond_socket_state _ _ (disconnect_beyond w i Hi)) as Hs.
  assert (∀ j, socket_state (with_plugins [] (disconnecting i w)) j =
               socket_state (disconnecting i w) j) as Hp by done.
  split; [|split].
  - by rewrite Hs, Hp, socket_state_disconnecting, decide_True.
  - intros j Hj. by rewrite Hs, Hp, socket_state_disconnecting, decide_False.
  - rewrite (length_sockets_beyond _ _ (disconnect_beyond w i Hi)). simpl.
    unfold disconnecting, ws_close. unfold_M.
    destruct (reconnectTimer w); simpl; by rewrite length_alter.
Qed.

Lemma rearm_off (w : World) : autoReconnect w = false → rearm w = w.
Proof. unfold rearm. by intros ->. Qed.

(** X11. After [disconnect] there is no transport in use and no tracked
    timer, [isConnected] is false and every [send] is refused with the
    not-connected error, leaving the state as it is. A second [disconnect]
    changes nothing. The transport that was in use has been asked to close
    (it is closing when it was connecting or open) and the other transport
    instances are in the state they were in. *)
Theorem X11_disconnect_is_idempotent (w : World) :
  ws (disconnect w).2 = None ∧
  reconnectTimer (disconnect w).2 = None ∧
  isConnected (disconnect w).2 = false ∧
  disconnect (disconnect w).2 = (Ok tt, (disconnect w).2) ∧
  (∀ ns ev data,
     send ns ev data (disconnect w).2 = (Throw NotConnected, (disconnect w).2)) ∧
  (∀ i, ws w = Some i →
     socket_state (disconnect w).2 i =
       match socket_state w i with
       | Some CONNECTING | Some OPEN => Some CLOSING
       | st => st
       end ∧
     ∀ j, j ≠ i → socket_state (disconnect w).2 j = socket_state w j).
Proof.
  destruct (disconnected w) as (Hws & Hrt & _).
  assert (isConnected (disconnect w).2 = false) as Hc
    by (unfold isConnected; by rewrite Hws).
  split; [done|]. split; [done|]. split; [done|]. split; [|split].
  - rewrite (disconnect_without_transport _ Hws). by rewrite Hrt.
  - intros ns ev data. by apply send_not_connected.
  - intros i Hi. destruct (disconnect_sockets w i Hi) as (? & ? & _). done.
Qed.

(** X12. [disconnect] during a connection attempt leaves [isConnecting]
    set: a [connect] called after it is ignored. The close event of the
    abandoned transport clears [isConnecting], and [connect] then creates a
    new transport instance. *)
Theorem X12_connect_ignored_until_abandoned_attempt_closes
    (U : UserCode) (w : World) (i : nat) :
  ws w = Some i → isConnecting w = true → socket_state w i = Some CONNECTING →
  connect (disconnect w).2 = (Ok tt, (disconnect w).2) ∧
  isConnecting (step U (disconnect w).2 (EClose i)) = false ∧
  ws (connect (step U (disconnect w).2 (EClose i))).2 = Some (length (sockets w)).
Proof.
  intros Hws Hic Hst.
  destruct (disconnected w) as (Hws' & Hrt' & Hic').
  destruct (disconnect_sockets w i Hws) as (Hi & _ & Hlen).
  split.
  - rewrite connect_effect. unfold live. by rewrite Hws', Hic', Hic.
  - rewrite Hst in Hi.
    rewrite (step_close U _ i CLOSING Hi) by done.
    set (w0 := (set_socket_state i CLOSED (disconnect w).2).2).
    pose proof (onclose_beyond U w0) as Hb.
    rewrite rearm_off in Hb
      by (transitivity (autoReconnect (disconnect w).2); [done|];
          by destruct (disconnect_policy w i Hws) as (-> & _)).
    destruct (beyond_fields _ _ Hb) as (_ & Hws1 & Hic1 & _). simpl in *.
    split; [done|].
    rewrite connect_effect. unfold live. rewrite Hws1, Hic1.
    change (ws w0) with (ws (disconnect w).2). rewrite Hws'. simpl.
    rewrite (length_sockets_beyond _ _ Hb). simpl.
    unfold w0, set_socket_state. unfold_M. simpl. rewrite length_alter.
    by rewrite Hlen.
Qed.

Lemma X12_witness :
  connect (disconnect (run quiet [EConnect] fresh_client)).2
    = (Ok tt, (disconnect (run quiet [EConnect] fresh_client)).2) ∧
  ws (connect (step quiet (disconnect (run quiet [EConnect] fresh_client)).2
                    (EClose 0))).2 = Some 1.
Proof.
  destruct (X12_connect_ignored_until_abandoned_attempt_closes quiet
              (run quiet [EConnect] fresh_client) 0 eq_refl eq_refl eq_refl)
    as (H1 & _ & H2).
  split; [exact H1|exact H2].
Defined.

(** ** Identity *)

(** X13. [getId] after a [system:init] frame whose data is an object is
    that object's [clientId], when the ready callback and the handlers do
    no more than send, register and unregister handlers, and throw (a
    callback that itself calls [disconnect] is not covered here); an open
    event leaves it as it is; a close event of any transport instance resets
    it to [null], and so does [disconnect] when a transport instance
    exists. *)
Theorem X13_getId_follows_the_handshake (U : UserCode) (w : World) :
  (∀ message data id,
     get_prop message "namespace" = Ok (JStr "system") →
     get_prop message "event" = Ok (JStr "init") →
     get_prop message "data" = Ok data →
     get_prop data "clientId" = Ok id →
     getId (onmessage U (Parsed message) w).2 = id) ∧
  getId (onopen U w).2 = getId w ∧
  getId (onclose U w).2 = JNull ∧
  (ws w ≠ None → getId (disconnect w).2 = JNull).
Proof.
  unfold getId. split; [|split; [|split]].
  - intros message data id Hns Hev Hdata Hid.
    rewrite (onmessage_init U w message data id Hns Hev Hdata Hid).
    assert (∀ w0, clientId (_handleEvent U "system" "init" data w0).2 = clientId w0)
      as Hkeep.
    { intros w0. by destruct (beyond_fields _ _
                                (handleEvent_beyond U "system" "init" data w0))
        as (_ & _ & _ & _ & -> & _). }
    destruct (onReady w) as [cb|]; [|by rewrite Hkeep].
    destruct (call_ready_effect U cb id (with_clientId id w)) as [_ Hb].
    destruct (beyond_fields _ _ Hb) as (_ & _ & _ & _ & Hc & _).
    destruct (call_ready U cb id (with_clientId id w)) as [[[]|e] w2];
      simpl in *; [by rewrite Hkeep|done].
  - rewrite onopen_effect.
    destruct (beyond_fields _ _ (handleEvent_beyond U "system" "connected" JNull
                                   (opened w))) as (_ & _ & _ & _ & -> & _).
    unfold opened. by destruct (reconnectTimer w).
  - destruct (beyond_fields _ _ (onclose_beyond U w)) as (_ & _ & _ & _ & -> & _).
    unfold rearm. simpl. by destruct (autoReconnect w).
  - intros Hws. destruct (ws w) as [i|] eqn:E; [|done].
    destruct (beyond_fields _ _ (disconnect_beyond w i E))
      as (_ & _ & _ & _ & -> & _).
    done.
Qed.

(** X14. [ready] called while the client id is known calls the callback at
    once, exactly once and with that id, and does not store it: the stored
    ready callback, the client id and the connection state are what they
    were. *)
Theorem X14_ready_with_known_id_calls_at_once (U : UserCode) (cb : cbid) (w : World) :
  truthy (clientId w) = true →
  calls (ready U cb w).2 = calls w ++ [CallReady cb (clientId w)] ∧
  ready_calls cb (ready U cb w).2 = S (ready_calls cb w) ∧
  onReady (ready U cb w).2 = onReady w ∧
  getId (ready U cb w).2 = getId w ∧
  connection_state (ready U cb w).2 = connection_state w.
Proof.
  intros Hid. rewrite (ready_known_id U cb w Hid).
  destruct (run_script_frame (ready_body U cb (clientId w))
              (with_calls (calls w ++ [CallReady cb (clientId w)]) w)) as [Hc Hb].
  pose proof (pres_run_script (fun _ => True) same_connection
                (ready_body U cb (clientId w))
                (with_calls (calls w ++ [CallReady cb (clientId w)]) w)) as Hconn.
  destruct (beyond_fields _ _ Hb) as (_ & _ & _ & _ & Hcid & _ & _ & Hr & _).
  split; [done|]. split; [|done].
  unfold ready_calls. rewrite Hc. simpl. rewrite filter_app, length_app.
  rewrite filter_cons_True by (simpl; by apply bool_decide_eq_true).
  simpl. lia.
Qed.

Lemma X14_witness :
  truthy (clientId
            (run quiet
               [EConnect; EOpen 0;
                EMessage 0 (Parsed (init_frame (JObj [("clientId", JStr "abc")])))]
               fresh_client)) = true ∧
  calls (ready quiet 7
           (run quiet
              [EConnect; EOpen 0;
               EMessage 0 (Parsed (init_frame (JObj [("clientId", JStr "abc")])))]
              fresh_client)).2
  = [CallReady 7 (JStr "abc")].
Proof.
  assert (truthy (clientId
            (run quiet
               [EConnect; EOpen 0;
                EMessage 0 (Parsed (init_frame (JObj [("clientId", JStr "abc")])))]
               fresh_client)) = true) as H by reflexivity.
  split; [exact H|].
  exact (proj1 (X14_ready_with_known_id_calls_at_once quiet 7 _ H)).
Defined.

(** ** Construction *)

(** X15. A new client, whatever its options, is idle: it is not connected,
    has no id, no plugin, no transport instance and no timer; its metadata
    is an empty object of its own and the objects of the host are
    untouched; [send] is refused with the not-connected error, and
    [disconnect] and any dispatch return normally, all without changing the
    state. *)
Theorem X15_new_client_is_idle
    (U : UserCode) (window : option Location) (options : Options)
    (h : gmap loc obj) :
  isConnected (constructor window options h) = false ∧
  getId (constructor window options h) = JNull ∧
  getPlugins (constructor window options h) = [] ∧
  sockets (constructor window options h) = [] ∧
  pending (constructor window options h) = [] ∧
  props_of (heap (constructor window options h))
           (metadata (constructor window options h)) = [] ∧
  (∀ l o, h !! l = Some o → heap (constructor window options h) !! l = Some o) ∧
  (∀ ns ev data,
     send ns ev data (constructor window options h)
     = (Throw NotConnected, constructor window options h)) ∧
  disconnect (constructor window options h)
    = (Ok tt, constructor window options h) ∧
  (∀ ns ev data,
     _handleEvent U ns ev data (constructor window options h)
     = (Ok tt, constructor window options h)).
Proof.
  split; [done|]. split; [done|]. split; [done|]. split; [done|]. split; [done|].
  split; [unfold props_of; simpl; by rewrite lookup_insert_eq|].
  split; [|split; [|split]].
  - intros l o Hl. simpl. rewrite lookup_insert_ne; [done|].
    intros <-. by rewrite fresh_loc_unused in Hl.
  - intros ns ev data. by apply send_not_connected.
  - by rewrite disconnect_without_transport.
  - intros ns ev data. unfold _handleEvent. unfold_M. simpl.
    by rewrite lookup_empty.
Qed.

(** ** Inbound messages *)

(** X16. An inbound message that is not JSON, or whose JSON is [null], is
    dropped with one line on the error console; a message without a truthy
    [namespace] or without a truthy [event] (also a number, a string or an
    array) is dropped silently. In all these cases nothing else changes and
    no application code is called. *)
Theorem X16_malformed_messages_are_dropped (U : UserCode) (w : World) :
  onmessage U Unparseable w =
    (Ok tt, with_console (console w ++ [LogParseFailure SyntaxError]) w) ∧
  onmessage U (Parsed JNull) w =
    (Ok tt, with_console (console w ++ [LogParseFailure TypeError]) w) ∧
  (∀ message namespace,
     get_prop message "namespace" = Ok namespace → truthy namespace = false →
     onmessage U (Parsed message) w = (Ok tt, w)) ∧
  (∀ message namespace event,
     get_prop message "namespace" = Ok namespace →
     get_prop message "event" = Ok event → truthy event = false →
     onmessage U (Parsed message) w = (Ok tt, w)).
Proof.
  split; [done|]. split; [done|]. split.
  - intros message ns Hns Hf. unfold onmessage, read, JSON_parse. unfold_M.
    by rewrite Hns, Hf.
  - intros message ns ev Hns Hev Hf. unfold onmessage, read, JSON_parse. unfold_M.
    rewrite Hns. simpl. destruct (truthy ns); [|done]. by rewrite Hev, Hf.
Qed.

Lemma onmessage_ordinary
    (U : UserCode) (w : World) (message data : json) (ns ev : string) :
  get_prop message "namespace" = Ok (JStr ns) →
  get_prop message "event" = Ok (JStr ev) →
  get_prop message "data" = Ok data →
  ns ≠ "" → ev ≠ "" → ¬ (ns = "system" ∧ ev = "init") →
  onmessage U (Parsed message) w = _handleEvent U ns ev data w.
Proof.
  intros Hns Hev Hdata Hn He Hinit.
  unfold onmessage, read, JSON_parse, handle_frame. unfold_M.
  rewrite Hns, Hev, Hdata. simpl.
  destruct (String.eqb_spec ns "") as [|_]; [done|].
  destruct (String.eqb_spec ev "") as [|_]; [done|]. simpl.
  assert (String.eqb ns "system" && String.eqb ev "init" = false) as ->.
  { apply andb_false_iff.
    destruct (String.eqb_spec ns "system"), (String.eqb_spec ev "init"); tauto. }
  by rewrite (handleEvent_pair U ns ev data w).
Qed.

(** X17. An inbound frame with a non-empty namespace and event other than
    [system:init] is handled as the dispatch of its [data] (or [undefined])
    to the handlers of its pair, and nothing more: the client id, the
    stored ready callback and the connection state are what they were. *)
Theorem X17_ordinary_frame_is_dispatched
    (U : UserCode) (w : World) (message data : json) (ns ev : string) :
  get_prop message "namespace" = Ok (JStr ns) →
  get_prop message "event" = Ok (JStr ev) →
  get_prop message "data" = Ok data →
  ns ≠ "" → ev ≠ "" → ¬ (ns = "system" ∧ ev = "init") →
  onmessage U (Parsed message) w = _handleEvent U ns ev data w ∧
  getId (onmessage U (Parsed message) w).2 = getId w ∧
  onReady (onmessage U (Parsed message) w).2 = onReady w ∧
  connection_state (onmessage U (Parsed message) w).2 = connection_state w.
Proof.
  intros Hns Hev Hdata Hn He Hinit.
  rewrite (onmessage_ordinary U w message data ns ev Hns Hev Hdata Hn He Hinit).
  split; [done|].
  destruct (beyond_fields _ _ (handleEvent_beyond U ns ev data w))
    as (_ & _ & _ & _ & Hc & _ & _ & Hr & _).
  split; [done|]. split; [done|].
  apply (pres_handleEvent (fun _ => True) same_connection U _ _ _ (fun _ => I) w).
Qed.

Lemma X17_witness :
  onmessage once_handlers
    (Parsed (JObj [("namespace", JStr "chat"); ("event", JStr "message");
                   ("data", JStr "hello")]))
    (foldl apply_op fresh_client [Register "chat" "message" 2])
  = _handleEvent once_handlers "chat" "message" (JStr "hello")
      (foldl apply_op fresh_client [Register "chat" "message" 2]).
Proof.
  refine (proj1 (X17_ordinary_frame_is_dispatched once_handlers
                   (foldl apply_op fresh_client [Register "chat" "message" 2])
                   (JObj [("namespace", JStr "chat"); ("event", JStr "message");
                          ("data", JStr "hello")])
                   (JStr "hello") "chat" "message"
                   eq_refl eq_refl eq_refl _ _ _)).
  - discriminate.
  - discriminate.
  - intros [? _]. discriminate.
Defined.

(** ** Delivery *)



(** ** Connected or not *)

(** X19. [isConnected] holds exactly when a transport is in use and open,
    and it tells what [send] does: [send] is refused with the not-connected
    error, leaving the state as it is, exactly when [isConnected] is false;
    when it holds, [send] returns normally or fails in [JSON.stringify]. *)
Theorem X19_isConnected_tells_whether_send_is_refused
    (ns ev : string) (data : option loc) (w : World) :
  (isConnected w = true ↔ ∃ i, ws w = Some i ∧ socket_state w i = Some OPEN) ∧
  (isConnected w = false ↔ send ns ev data w = (Throw NotConnected, w)) ∧
  (isConnected w = true ↔
   (send ns ev data w).1 = Ok tt ∨ send ns ev data w = (Throw TypeError, w)).
Proof.
  assert (isConnected w = true →
          (send ns ev data w).1 = Ok tt ∨ send ns ev data w = (Throw TypeError, w))
    as Hopen.
  { intros Hc. destruct (proj1 (isConnected_spec w) Hc) as (i & Hws & Hst).
    destruct (stringify_frame w ns ev (send_payload w data)) as [frame|] eqn:Hfr.
    - left. by rewrite (send_connected ns ev data w i frame Hws Hst Hfr).
    - right. by apply send_unserialisable. }
  split; [apply isConnected_spec|]. split; split.
  - apply send_not_connected.
  - intros Hsend. destruct (isConnected w) eqn:Hc; [|done].
    destruct (Hopen eq_refl) as [H|H]; rewrite Hsend in H; done.
  - exact Hopen.
  - intros Hsend. destruct (isConnected w) eqn:Hc; [done|].
    rewrite (send_not_connected ns ev data w Hc) in Hsend.
    by destruct Hsend.
Qed.

(** ** Objects *)

Lemma assoc_set_prop (o : obj) (k k' : string) (v : val) :
  assoc k' (set_prop o k v) = if decide (k' = k) then Some v else assoc k' o.
Proof.
  induction o as [|[k0 v0] o IH]; simpl.
  - destruct (String.eqb_spec k' k); by case_decide.
  - destruct (String.eqb_spec k k0) as [->|Hne]; simpl.
    + destruct (String.eqb_spec k' k0); by case_decide.
    + destruct (String.eqb_spec k' k0) as [->|Hne']; [|exact IH].
      by rewrite decide_False by congruence.
Qed.

Lemma elem_of_set_prop (o : obj) (k : string) (v : val) :
  (k, v) ∈ set_prop o k v.
Proof.
  induction o as [|[k0 v0] o IH]; simpl; [by left|].
  destruct (String.eqb_spec k k0) as [<-|_]; [by left|by right].
Qed.

Lemma set_prop_keys (o : obj) (k : string) (v : val) :
  (set_prop o k v).*1 = if decide (k ∈ o.*1) then o.*1 else o.*1 ++ [k].
Proof.
  induction o as [|[k0 v0] o IH]; simpl.
  - reflexivity.
  - destruct (String.eqb_spec k k0) as [->|Hne]; simpl.
    + rewrite decide_True; [done|]. by left.
    + change (list_fmap _ _ fst (set_prop o k v)) with ((set_prop o k v).*1).
      change (list_fmap _ _ fst o) with (o.*1).
      rewrite IH. destruct (decide (k ∈ o.*1)) as [Hin|Hin].
      * by rewrite decide_True by by right.
      * rewrite decide_False; [done|]. by intros [?|?]%elem_of_cons.
Qed.

Lemma set_prop_NoDup (o : obj) (k : string) (v : val) :
  NoDup o.*1 → NoDup (set_prop o k v).*1.
Proof.
  intros H. rewrite set_prop_keys. case_decide; [done|].
  apply NoDup_app. split; [done|]. split; [|apply NoDup_singleton].
  by intros x Hx ->%list_elem_of_singleton.
Qed.

Lemma spread_NoDup (a b : obj) : NoDup a.*1 → NoDup (spread a b).*1.
Proof.
  unfold spread. revert a. induction b as [|[k v] b IH]; intros a Ha; [done|].
  simpl. by apply IH, set_prop_NoDup.
Qed.

Lemma assoc_None_keys {A} (k : string) (l : list (string * A)) :
  assoc k l = None ↔ k ∉ l.*1.
Proof.
  induction l as [|[k0 v0] l IH]; simpl.
  - split; [by intros _ ?%elem_of_nil|done].
  - destruct (String.eqb_spec k k0) as [->|Hne].
    + split; [done|]. intros []. by left.
    + rewrite IH. split.
      * by intros H [?|?]%elem_of_cons.
      * intros H Hin. apply H. by right.
Qed.

(** [{...a, ...b}] read property by property. *)
Lemma assoc_spread (a b : obj) (k : string) :
  NoDup b.*1 →
  assoc k (spread a b) =
    match assoc k b with Some v => Some v | None => assoc k a end.
Proof.
  unfold spread. revert a. induction b as [|[k0 v0] b IH]; intros a Hnd; [done|].
  apply NoDup_cons in Hnd as [Hk0 Hnd]. simpl in *.
  rewrite (IH _ Hnd), assoc_set_prop.
  destruct (String.eqb_spec k k0) as [->|Hne].
  - rewrite decide_True by done. by apply assoc_None_keys in Hk0 as ->.
  - by rewrite decide_False.
Qed.

(** A copy of an object with distinct property names has the same
    properties in the same order. *)
Lemma spread_nil_id (o : obj) : NoDup o.*1 → spread [] o = o.
Proof.
  assert (∀ a, NoDup (a ++ o).*1 → spread a o = a ++ o) as H; [|apply (H [])].
  unfold spread. induction o as [|[k v] o IH]; intros a Hnd; simpl.
  - by rewrite app_nil_r.
  - assert (set_prop a k v = a ++ [(k, v)]) as ->.
    { rewrite fmap_app in Hnd. apply NoDup_app in Hnd as (_ & Hd & _).
      assert (k ∉ a.*1) as Hk by (intros Hin; apply (Hd k Hin); by left).
      clear -Hk. induction a as [|[k0 v0] a IHa]; simpl; [done|].
      destruct (String.eqb_spec k k0) as [->|Hne]; [destruct Hk; by left|].
      rewrite IHa; [done|]. intros Hin. apply Hk. by right. }
    rewrite IH; rewrite <-app_assoc; done.
Qed.

(** ** Serialisation *)

Lemma stringify_props_None (rec : val → option (option json)) (o : obj) :
  stringify_props rec o = None ↔ ∃ k v, (k, v) ∈ o ∧ rec v = None.
Proof.
  induction o as [|[k v] o IH]; simpl.
  - split; [done|]. by intros (k & v & ?%elem_of_nil & _).
  - destruct (rec v) as [[j|]|] eqn:Hv.
    + destruct (stringify_props rec o) as [fs|] eqn:Ho.
      * split; [done|]. intros (k' & v' & [[= -> ->]|Hin]%elem_of_cons & Hnone);
          [congruence|].
        assert (Some fs = None) as H by (apply IH; eauto). done.
      * split; [|done]. intros _. destruct (proj1 IH eq_refl) as (k' & v' & Hin & Hn).
        exists k', v'. split; [by right|done].
    + rewrite IH. split.
      * intros (k' & v' & Hin & Hn). exists k', v'. split; [by right|done].
      * intros (k' & v' & [[= -> ->]|Hin]%elem_of_cons & Hnone); [congruence|eauto].
    + split; [|done]. intros _. exists k, v. split; [by left|done].
Qed.

Lemma stringify_props_assoc (rec : val → option (option json)) (o : obj)
    (fs : list (string * json)) (k : string) :
  NoDup o.*1 → stringify_props rec o = Some fs →
  assoc k fs = assoc k o ≫= fun v => default None (rec v).
Proof.
  revert fs. induction o as [|[k0 v0] o IH]; intros fs Hnd; simpl.
  - by intros [= <-].
  - apply NoDup_cons in Hnd as [Hk0 Hnd]. simpl in Hk0.
    destruct (rec v0) as [[j|]|] eqn:Hv; [| |done].
    + destruct (stringify_props rec o) as [fs'|] eqn:Ho; [|done].
      intros [= <-]. simpl. destruct (String.eqb_spec k k0) as [->|Hne].
      * simpl. by rewrite Hv.
      * by apply IH.
    + intros Hfs. rewrite (IH fs Hnd Hfs).
      destruct (String.eqb_spec k k0) as [->|Hne]; [|done].
      simpl. rewrite Hv. simpl. by apply assoc_None_keys in Hk0 as ->.
Qed.

Lemma stringify_ref_defined (d : nat) (h : gmap loc obj) (l : loc) :
  stringify_val d h (VRef l) ≠ Some None.
Proof.
  destruct d; cbn [stringify_val]; [done|].
  by destruct (stringify_props (stringify_val d h) (props_of h l)).
Qed.

Lemma send_payload_NoDup (w : World) (data : option loc) :
  NoDup (send_payload w data).*1.
Proof.
  unfold send_payload. apply set_prop_NoDup, spread_NoDup. constructor.
Qed.

(** X20. The frame that a successful [send] appends to the open transport
    is [{namespace, event, data}] where [data.metadata] is the session
    metadata as [JSON.stringify] renders it, also when the caller's data has
    a [metadata] property of its own; every other field of [data] is the
    rendering of the property of that name of the caller's data, and a
    property that is [undefined] is left out. Without data, [data] is
    [{metadata}]. *)
Theorem X20_send_frame_carries_data_and_metadata
    (ns ev : string) (data : option loc) (w : World) (i : nat) :
  ws w = Some i → socket_state w i = Some OPEN →
  (send ns ev data w).1 = Ok tt →
  ∃ fs md,
    (sent <$> sockets (send ns ev data w).2 !! i) =
      ((fun s => sent s ++
                 [JObj [("namespace", JStr ns); ("event", JStr ev);
                        ("data", JObj fs)]]) <$> sockets w !! i) ∧
    metadata_snapshot w = Some (Some md) ∧
    assoc "metadata" fs = Some md ∧
    (data = None → fs = [("metadata", md)]) ∧
    ∀ k, k ≠ "metadata" →
      assoc k fs =
      assoc k (spread [] (from_option (props_of (heap w)) [] data)) ≫=
        fun v => default None (stringify_val (size (heap w)) (heap w) v).
Proof.
  intros Hws Hst Hok.
  destruct (stringify_frame w ns ev (send_payload w data)) as [frame|] eqn:Hfr;
    [|rewrite send_unserialisable in Hok; [done| |done];
      apply isConnected_spec; eauto].
  rewrite (send_connected ns ev data w i frame Hws Hst Hfr). simpl.
  unfold stringify_frame in Hfr.
  destruct (stringify_props _ (send_payload w data)) as [fs|] eqn:Hfs; [|done].
  simpl in Hfr. injection Hfr as <-.
  pose proof (fun k => stringify_props_assoc _ _ fs k (send_payload_NoDup w data) Hfs)
    as Hassoc.
  assert (∃ md, metadata_snapshot w = Some (Some md)) as [md Hmd].
  { unfold metadata_snapshot.
    destruct (stringify_val (size (heap w)) (heap w) (VRef (metadata w)))
      as [[md|]|] eqn:E; [eauto| |].
    - by apply stringify_ref_defined in E.
    - exfalso.
      assert (stringify_props (stringify_val (size (heap w)) (heap w))
                (send_payload w data) = None) as Hnone; [|congruence].
      apply stringify_props_None. exists "metadata", (VRef (metadata w)).
      split; [|done]. apply elem_of_set_prop. }
  exists fs, md. split; [|split; [done|split; [|split]]].
  - rewrite list_lookup_alter, decide_True by done.
    by destruct (sockets w !! i).
  - rewrite Hassoc. unfold send_payload. rewrite assoc_set_prop, decide_True by done.
    simpl. unfold metadata_snapshot in Hmd. by rewrite Hmd.
  - intros ->. unfold send_payload in Hfs. simpl in Hfs.
    unfold metadata_snapshot in Hmd. rewrite Hmd in Hfs. by injection Hfs as <-.
  - intros k Hk. rewrite Hassoc. unfold send_payload.
    by rewrite assoc_set_prop, decide_False.
Qed.

Lemma X20_witness :
  ∃ fs md,
    (sent <$> sockets (send "chat" "message" None
                         (run quiet [EConnect; EOpen 0] fresh_client)).2 !! 0) =
      ((fun s => sent s ++
                 [JObj [("namespace", JStr "chat"); ("event", JStr "message");
                        ("data", JObj fs)]])
         <$> sockets (run quiet [EConnect; EOpen 0] fresh_client) !! 0) ∧
    fs = [("metadata", md)].
Proof.
  destruct (X20_send_frame_carries_data_and_metadata "chat" "message" None
              (run quiet [EConnect; EOpen 0] fresh_client) 0
              eq_refl eq_refl eq_refl) as (fs & md & H1 & _ & _ & H2 & _).
  exists fs, md. split; [exact H1|exact (H2 eq_refl)].
Defined.

(** *** Objects that contain themselves *)

Lemma stringify_primitive (d : nat) (h : gmap loc obj) (v : val) :
  stringify_val d h v = None → ∃ l, v = VRef l.
Proof. destruct d, v; simpl; try done; eauto. Qed.

Lemma stringify_through (d : nat) (h : gmap loc obj) (l l' : loc) :
  refers h l l' → stringify_val d h (VRef l') = None →
  stringify_val (S d) h (VRef l) = None.
Proof.
  intros [k Hin] Hnone. cbn [stringify_val].
  assert (stringify_props (stringify_val d h) (props_of h l) = None) as ->; [|done].
  apply stringify_props_None. eauto.
Qed.

Lemma stringify_cyclic (h : gmap loc obj) (d : nat) (l : loc) :
  tc (refers h) l l → stringify_val d h (VRef l) = None.
Proof.
  revert l. induction d as [|d IH]; intros l Hc; [done|].
  assert (∃ l1, refers h l l1 ∧ tc (refers h) l1 l1) as (l1 & Hstep & Hc1).
  { inversion Hc as [? ? Hr|? l1 ? Hr Hrest]; subst.
    - exists l. split; [done|by apply tc_once].
    - exists l1. split; [done|]. by eapply tc_r. }
  eapply stringify_through; [exact Hstep|by apply IH].
Qed.

Lemma stringify_circular (h : gmap loc obj) (v : val) (d : nat) :
  circular h v → stringify_val d h v = None.
Proof.
  intros (l & l' & -> & Hpath & Hc). revert d.
  induction Hpath as [l|l l1 l' Hstep Hpath IH]; intros d;
    [by apply stringify_cyclic|].
  destruct d as [|d]; [done|].
  eapply stringify_through; [exact Hstep|by apply IH].
Qed.

Lemma stringify_None_chain (h : gmap loc obj) (d : nat) (l : loc) :
  stringify_val d h (VRef l) = None → ∃ path, length path = d ∧ chain h l path.
Proof.
  revert l. induction d as [|d IH]; intros l H; [by exists []|].
  cbn [stringify_val] in H.
  destruct (stringify_props (stringify_val d h) (props_of h l)) as [fs|] eqn:E;
    [done|].
  apply stringify_props_None in E as (k & v & Hin & Hv).
  destruct (stringify_primitive d h v Hv) as [l1 ->].
  destruct (IH l1 Hv) as (path & Hlen & Hchain).
  exists (l1 :: path). split; [by rewrite <-Hlen|].
  split; [by exists k|done].
Qed.

Lemma refers_closed (h : gmap loc obj) (l l' : loc) :
  heap_closed h → refers h l l' → is_Some (h !! l').
Proof.
  intros Hc [k Hin]. unfold props_of in Hin.
  destruct (h !! l) as [o|] eqn:Ho; simpl in Hin; [by eapply Hc|].
  by apply elem_of_nil in Hin.
Qed.

Lemma chain_closed (h : gmap loc obj) (l : loc) (path : list loc) :
  heap_closed h → is_Some (h !! l) → chain h l path →
  ∀ x, x ∈ l :: path → is_Some (h !! x).
Proof.
  intros Hc. revert l. induction path as [|l1 path IH]; intros l Hl Hchain x Hx.
  - by apply list_elem_of_singleton in Hx as ->.
  - destruct Hchain as [Hstep Hchain].
    apply elem_of_cons in Hx as [->|Hx]; [done|].
    apply (IH l1); [by eapply refers_closed|done|done].
Qed.

Lemma chain_tc (h : gmap loc obj) (l : loc) (path : list loc) (x : loc) :
  chain h l path → x ∈ path → tc (refers h) l x.
Proof.
  revert l. induction path as [|l1 path IH]; intros l Hchain Hx;
    [by apply elem_of_nil in Hx|].
  destruct Hchain as [Hstep Hchain].
  apply elem_of_cons in Hx as [->|Hx]; [by apply tc_once|].
  eapply tc_l; [exact Hstep|by apply IH].
Qed.

Lemma chain_repeat (h : gmap loc obj) (l : loc) (path : list loc) :
  chain h l path → ¬ NoDup (l :: path) → circular h (VRef l).
Proof.
  revert l. induction path as [|l1 path IH]; intros l Hchain Hdup.
  - destruct Hdup. apply NoDup_singleton.
  - destruct (decide (l ∈ l1 :: path)) as [Hin|Hnotin].
    + exists l, l. split; [done|]. split; [done|]. by eapply chain_tc.
    + destruct Hchain as [Hstep Hchain].
      destruct (IH l1 Hchain) as (x & x' & [= <-] & Hpath & Hc).
      { intros Hnd. apply Hdup. by constructor. }
      exists l, x'. split; [done|]. split; [|done]. by eapply rtc_l.
Qed.

Lemma pigeonhole (h : gmap loc obj) (path : list loc) :
  NoDup path → (∀ x, x ∈ path → is_Some (h !! x)) → (length path ≤ size h)%nat.
Proof.
  intros Hnd Hin. rewrite <-(size_dom h).
  apply (submseteq_length path (elements (dom h))), NoDup_submseteq; [done|].
  intros x Hx. apply elem_of_elements, elem_of_dom. by apply Hin.
Qed.

Lemma stringify_None_circular (h : gmap loc obj) (v : val) :
  heap_closed h → (∀ l, v = VRef l → is_Some (h !! l)) →
  stringify_val (size h) h v = None → circular h v.
Proof.
  intros Hc Hv Hnone. destruct (stringify_primitive _ _ _ Hnone) as [l ->].
  destruct (stringify_None_chain h (size h) l Hnone) as (path & Hlen & Hchain).
  apply (chain_repeat h l path Hchain). intros Hnd.
  pose proof (pigeonhole h (l :: path) Hnd
                (chain_closed h l path Hc (Hv l eq_refl) Hchain)) as Hle.
  simpl in Hle. lia.
Qed.

Lemma send_payload_refs (w : World) (data : option loc) :
  heap_ok w → (∀ l, data = Some l → is_Some (heap w !! l)) →
  refs_in (fun l => is_Some (heap w !! l)) (send_payload w data).
Proof.
  intros [Hc Hm] Hdata. unfold send_payload.
  apply refs_in_set_prop; [|by intros l [= <-]].
  apply refs_in_spread; [by intros k l Hin%elem_of_nil|].
  destruct data as [l|]; simpl; [|by intros k l Hin%elem_of_nil].
  by apply heap_closed_refs_in.
Qed.

(** X21. On a connected client, and for a payload (the caller's data and
    the metadata) made of [undefined], [null], booleans, integers, strings
    and plain objects with such properties, [send] fails in
    [JSON.stringify], throwing a [TypeError] and writing nothing, exactly
    when a property of the payload leads to an object that contains itself,
    directly or through other objects; otherwise it returns normally.
    Objects that are merely shared are sent. *)
Theorem X21_send_throws_TypeError_iff_payload_is_circular
    (ns ev : string) (data : option loc) (w : World) :
  heap_ok w → (∀ l, data = Some l → is_Some (heap w !! l)) →
  isConnected w = true →
  (send ns ev data w = (Throw TypeError, w) ↔
   ∃ k v, (k, v) ∈ send_payload w data ∧ circular (heap w) v) ∧
  ((send ns ev data w).1 = Ok tt ↔
   ¬ ∃ k v, (k, v) ∈ send_payload w data ∧ circular (heap w) v).
Proof.
  intros Hok Hdata Hconn.
  assert (stringify_frame w ns ev (send_payload w data) = None ↔
          ∃ k v, (k, v) ∈ send_payload w data ∧ circular (heap w) v) as Hiff.
  { unfold stringify_frame.
    destruct (stringify_props _ (send_payload w data)) as [fs|] eqn:E; simpl.
    - split; [done|]. intros (k & v & Hin & Hcirc).
      assert (stringify_props (stringify_val (size (heap w)) (heap w))
                (send_payload w data) = None) as Hnone; [|congruence].
      apply stringify_props_None. exists k, v. split; [done|].
      by apply stringify_circular.
    - split; [|done]. intros _.
      apply stringify_props_None in E as (k & v & Hin & Hv).
      exists k, v. split; [done|].
      apply stringify_None_circular; [apply Hok| |done].
      intros l ->. by apply (send_payload_refs w data Hok Hdata k). }
  apply isConnected_spec in Hconn as Hopen. destruct Hopen as (i & Hws & Hst).
  destruct (stringify_frame w ns ev (send_payload w data)) as [frame|] eqn:Hfr.
  - rewrite (send_connected ns ev data w i frame Hws Hst Hfr).
    split; split.
    + done.
    + intros H. by apply Hiff in H.
    + intros _ H. by apply Hiff in H.
    + done.
  - rewrite (send_unserialisable ns ev data w Hconn Hfr).
    split; split.
    + intros _. by apply Hiff.
    + done.
    + done.
    + intros H. destruct H. by apply Hiff.
Qed.

Lemma X21_witness :
  heap_ok client_with_cyclic_object ∧
  isConnected client_with_cyclic_object = true ∧
  send "chat" "message" (Some 1) client_with_cyclic_object
    = (Throw TypeError, client_with_cyclic_object).
Proof.
  assert (heap_ok client_with_cyclic_object) as Hok
    by apply heap_ok_run, heap_ok_fresh_client.
  split; [exact Hok|]. split; [reflexivity|].
  apply (proj1 (X21_send_throws_TypeError_iff_payload_is_circular
                  "chat" "message" (Some 1) client_with_cyclic_object Hok
                  ltac:(intros l [= <-]; vm_compute; eauto) eq_refl)).
  exists "self", (VRef 1). split.
  - vm_compute. left.
  - exists 1, 1. split; [done|]. split; [done|]. apply tc_once.
    exists "self". vm_compute. left.
Defined.

(** ** More on metadata *)

(** X22. [setMetadata] returns normally and stores a new object as the
    metadata, leaving its argument, the previous metadata object and every
    other object as they were. A property of the new metadata is the
    argument's property of that name when the argument has one, and
    otherwise what [getMetadata] returned before the call. A [getMetadata]
    after the call returns exactly these properties. (The argument has
    distinct property names, as every JavaScript object.) *)
Theorem X22_setMetadata_merges_into_a_new_object (l : loc) (w : World) :
  NoDup (props_of (heap w) l).*1 →
  (setMetadata l w).1 = Ok tt ∧
  heap w !! metadata (setMetadata l w).2 = None ∧
  (∀ l' o, heap w !! l' = Some o → heap (setMetadata l w).2 !! l' = Some o) ∧
  (∀ k, assoc k (props_of (heap (setMetadata l w).2)
                          (metadata (setMetadata l w).2)) =
        match assoc k (props_of (heap w) l) with
        | Some v => Some v
        | None => assoc k (spread [] (props_of (heap w) (metadata w)))
        end) ∧
  props_of (heap (getMetadata (setMetadata l w).2).2)
           (fresh (dom (heap (setMetadata l w).2)))
    = props_of (heap (setMetadata l w).2) (metadata (setMetadata l w).2).
Proof.
  intros Hnd.
  assert (props_of (heap (setMetadata l w).2) (metadata (setMetadata l w).2) =
          spread (spread [] (props_of (heap w) (metadata w)))
                 (props_of (heap w) l)) as Hprops
    by (unfold props_of at 1; simpl; by rewrite lookup_insert_eq).
  split; [done|]. split; [apply fresh_loc_unused|]. split; [|split].
  - intros l' o Hl'. simpl. rewrite lookup_insert_ne; [done|].
    intros <-. by rewrite fresh_loc_unused in Hl'.
  - intros k. rewrite Hprops. by apply assoc_spread.
  - rewrite getMetadata_copy, Hprops. apply spread_nil_id, spread_NoDup, spread_NoDup.
    constructor.
Qed.

Lemma X22_witness :
  NoDup (props_of (heap client_with_nested_metadata) 1).*1 ∧
  assoc "theme"
    (props_of (heap (setMetadata 1 client_with_nested_metadata).2)
              (metadata (setMetadata 1 client_with_nested_metadata).2))
  = Some (VStr "dark") ∧
  assoc "prefs"
    (props_of (heap (setMetadata 1 client_with_nested_metadata).2)
              (metadata (setMetadata 1 client_with_nested_metadata).2))
  = Some (VRef 1).
Proof.
  assert (NoDup (props_of (heap client_with_nested_metadata) 1).*1) as H
    by (vm_compute; apply NoDup_singleton).
  split; [exact H|].
  destruct (X22_setMetadata_merges_into_a_new_object 1 client_with_nested_metadata H)
    as (_ & _ & _ & Hk & _).
  split; [exact (Hk "theme")|exact (Hk "prefs")].
Defined.

(** X23. Nothing the client does modifies an object that exists: across
    every method call, transport event and timer, every object of the heap
    keeps its properties unless the application itself writes to it.
    [send], [setMetadata] and [getMetadata] only read their arguments and
    allocate; and only [setMetadata] replaces the metadata object. *)
Theorem X23_client_never_modifies_an_object (U : UserCode) (w : World) (e : Event) :
  (∀ l k v, e ≠ EWrite l k v) →
  (∀ l o, heap w !! l = Some o → heap (step U w e) !! l = Some o) ∧
  ((∀ l, e ≠ ESetMetadata l) → metadata (step U w e) = metadata w).
Proof.
  intros Hwrite. unfold step. destruct (touches_heap e) eqn:Hheap.
  - destruct e; try discriminate Hheap; simpl; unfold_M; simpl.
    + split; [|by intros H; destruct (H metadata_arg)].
      intros l o Hl. rewrite lookup_insert_ne; [done|].
      intros <-. by rewrite fresh_loc_unused in Hl.
    + split; [|done]. intros l o Hl. rewrite lookup_insert_ne; [done|].
      intros <-. by rewrite fresh_loc_unused in Hl.
    + destruct (forallb _ o); simpl; [|done]. split; [|done].
      intros l o' Hl. rewrite lookup_insert_ne; [done|].
      intros <-. by rewrite fresh_loc_unused in Hl.
    + by destruct (Hwrite l k v).
  - assert (unchanged (fun w => (heap w, metadata w)) w (exec U e w).2) as Hsame.
    { assert ((∃ cb, e = EReady cb) ∨ ∀ cb, e ≠ EReady cb) as [[cb ->]|Hne]
        by (destruct e; eauto; right; intros; discriminate).
      - apply same_heap_ready.
      - by apply pres_exec_session; [apply _| |]. }
    unfold unchanged in Hsame. injection Hsame as -> ->. done.
Qed.

Lemma X23_witness :
  heap (step quiet client_with_nested_metadata (ESetMetadata 1)) !! 1
    = Some [("theme", VStr "dark")].
Proof.
  refine (proj1 (X23_client_never_modifies_an_object quiet
                   client_with_nested_metadata (ESetMetadata 1) _) 1 _ _).
  - discriminate.
  - reflexivity.
Defined.

(** ** What a session cannot disturb *)

Ltac session_leaf :=
  first
    [ apply preserves_modify; intros ?;
      first [ apply session_isConnecting | apply session_ws
            | apply session_clear | apply session_untrack
            | apply session_opt_out | apply session_onReady
            | apply session_state; intros ?;
              repeat match goal with |- context [match ?x with _ => _ end] =>
                       destruct x end; reflexivity
            | apply (frame_clientId (P := fun _ => True))
            | apply (frame_plugins (P := fun _ => True))
            | apply frame_heap ]
    | apply (pres_handleEvent (fun _ => True)); [apply _|done]
    | apply (pres_handle_frame (fun _ => True)); [apply _|done]
    | apply (pres_call_ready (fun _ => True)); [apply _|done]
    | apply (pres_console_error (fun _ => True)), _
    | apply (pres_for_of_plugins (fun _ => True)); [apply _|done]
    | apply (pres_registerEvent (fun _ => True)), _
    | apply (pres_unregisterEvent (fun _ => True)), _
    | apply (pres_send (fun _ => True)), _
    | apply (pres_registerPlugin (fun _ => True)); [apply _|done]
    | apply (pres_unregisterPlugin (fun _ => True)); [apply _|done]
    | apply pres_setMetadata; apply _
    | apply pres_getMetadata; apply _
    | apply pres_alloc; apply _ ].

Section Sessions.
Context (R : relation World) `{!Session R}.

Lemma session_connect : preserves R connect.
Proof.
  intros w. rewrite connect_effect. simpl.
  destruct (_ || _); [reflexivity|]. unfold attempting.
  etrans; [apply (session_isConnecting w true)|].
  etrans; [apply session_new|]. apply session_ws.
Qed.

Lemma session_onopen U : preserves R (onopen U).
Proof.
  unfold onopen, clearTimeout. repeat pres_step; session_leaf.
Qed.

Lemma session_onmessage U p : preserves R (onmessage U p).
Proof.
  unfold onmessage, read. pres_step; [|session_leaf].
  pres_step; [destruct p; simpl; pres_step|].
  repeat pres_step; session_leaf.
Qed.

Lemma session_disconnect : preserves R disconnect.
Proof.
  unfold disconnect, clearTimeout, ws_close. repeat pres_step; session_leaf.
Qed.

Lemma session_ready U cb : preserves R (ready U cb).
Proof. unfold ready. repeat pres_step; session_leaf. Qed.

(** Every event but a close event. *)
Lemma session_exec U (e : Event) :
  (∀ i, e ≠ EClose i) → preserves R (exec U e).
Proof.
  intros Hclose. destruct e; simpl; try (by destruct (Hclose i));
    unfold onerror, set_socket_state; repeat pres_step;
    auto using session_connect, session_disconnect, session_onopen,
               session_onmessage, session_ready;
    session_leaf.
Qed.

(** A close event, for relations that hold across arming a timer too. *)
Lemma session_onclose U :
  (∀ w, R w (with_reconnectTimer (Some (next_timer w))
               (with_timers (pending w ++ [next_timer w]) (S (next_timer w)) w))) →
  preserves R (onclose U).
Proof.
  intros Harm. unfold onclose. do 3 (pres_step; [session_leaf|]).
  apply preserves_get_bind. intros w.
  destruct (autoReconnect w); [apply Harm|reflexivity].
Qed.

Lemma session_exec_close U (i : nat) :
  (∀ w, R w (with_reconnectTimer (Some (next_timer w))
               (with_timers (pending w ++ [next_timer w]) (S (next_timer w)) w))) →
  preserves R (exec U (EClose i)).
Proof.
  intros Harm. simpl. unfold set_socket_state. repeat pres_step;
    try (by apply session_onclose); session_leaf.
Qed.

Lemma session_run U (events : list Event) (w : World) :
  (∀ w, R w (with_reconnectTimer (Some (next_timer w))
               (with_timers (pending w ++ [next_timer w]) (S (next_timer w)) w))) →
  R w (run U events w).
Proof.
  intros Harm. revert w. induction events as [|e events IH]; intros w; simpl;
    [reflexivity|].
  etrans; [|apply IH]. unfold step.
  assert ((∃ i, e = EClose i) ∨ ∀ i, e ≠ EClose i) as [[i ->]|Hne]
    by (destruct e; eauto; right; intros; discriminate).
  - by apply session_exec_close.
  - by apply session_exec.
Qed.
End Sessions.

Global Instance timers_kept_preorder : PreOrder timers_kept.
Proof.
  split; [by intros w|].
  intros w1 w2 w3 [P12 N12] [P23 N23]. split; [by etrans|congruence].
Qed.

Global Instance timers_kept_session : Session timers_kept.
Proof.
  split; [split; [split; [apply _|..]|..]|split|..]; try done.
  intros w t. split; [|done]. intros x Hx.
  by apply list_elem_of_filter in Hx as [_ ?].
Qed.

Global Instance same_endpoint_preorder : PreOrder same_endpoint.
Proof.
  split; [by intros w|].
  intros w1 w2 w3 (U12 & I12 & S12) (U23 & I23 & S23).
  split; [congruence|]. split; [congruence|].
  intros H. rewrite <-U12. apply S23. rewrite U12. by apply S12.
Qed.

Lemma Forall_alter_url (u : string) (f : Socket → Socket) (i : nat)
    (l : list Socket) :
  (∀ s, sock_url (f s) = sock_url s) →
  Forall (fun s => sock_url s = u) l →
  Forall (fun s => sock_url s = u) (alter f i l).
Proof.
  intros Hf Hl. apply Forall_alter; [done|]. intros s _ Hs. by rewrite Hf.
Qed.

Global Instance same_endpoint_session : Session same_endpoint.
Proof.
  split; [split; [split; [apply _|..]|..]|split|..]; try done.
  - intros w i frame. split; [done|]. split; [done|]. simpl.
    by apply Forall_alter_url.
  - intros w i f Hf. split; [done|]. split; [done|]. simpl.
    by apply Forall_alter_url.
  - intros w. split; [done|]. split; [done|]. simpl. intros H.
    apply Forall_app. split; [done|]. by constructor.
Qed.

(** ** The reconnect timer, continued *)

(** X24. A timer is armed by a close event and by nothing else: every
    other method call, transport event or timer leaves the pending timers as
    they are or cancels some. A close event arms at most one timer, and only
    while [autoReconnect] is on; that timer becomes the tracked one. *)
Theorem X24_only_close_events_arm_timers (U : UserCode) (w : World) :
  (∀ e, (∀ i, e ≠ EClose i) →
        pending (step U w e) ⊆ pending w ∧
        next_timer (step U w e) = next_timer w) ∧
  (∀ i, timers (step U w (EClose i)) = timers w ∨
        autoReconnect w = true ∧
        pending (step U w (EClose i)) = pending w ++ [next_timer w] ∧
        reconnectTimer (step U w (EClose i)) = Some (next_timer w)).
Proof.
  split.
  - intros e He. apply (session_exec timers_kept U e He w).
  - intros i. unfold step. simpl. unfold_M.
    assert (∀ w0, timers w0 = timers w →  autoReconnect w0 = autoReconnect w →
              timers (onclose U w0).2 = timers w ∨
              autoReconnect w = true ∧
              pending (onclose U w0).2 = pending w ++ [next_timer w] ∧
              reconnectTimer (onclose U w0).2 = Some (next_timer w)) as Hclose.
    { intros w0 Ht Ha. unfold timers in *.
      destruct (beyond_fields _ _ (onclose_beyond U w0))
        as (_ & _ & _ & Hrt & _ & Hp & Hn & _).
      injection Ht as Ht1 Ht2. unfold rearm in *. simpl in *. rewrite Ha in *.
      destruct (autoReconnect w); simpl in *; [right|left]; by rewrite ?Hp, ?Hn, ?Hrt, ?Ht1, ?Ht2. }
    destruct (socket_state w i) as [[]|]; try (by left);
      unfold set_socket_state; unfold_M; simpl; by apply Hclose.
Qed.

(** ** The endpoint *)

Lemma getDefaultHost_not_empty (window : option Location) :
  getDefaultHost window ≠ "".
Proof.
  destruct window as [[p hst]|]; simpl; [|done]. by destruct (String.eqb p "https:").
Qed.

(** X25. The URL and the reconnect interval of a client are never empty
    and never zero (an empty or zero option is replaced by the default),
    they never change during the life of the client, and every transport
    instance the client creates, reconnections included, is created for
    that URL. *)
Theorem X25_every_transport_uses_the_configured_url
    (U : UserCode) (window : option Location) (options : Options)
    (h : gmap loc obj) (events : list Event) :
  url (constructor window options h) ≠ "" ∧
  reconnectInterval (constructor window options h) ≠ 0%Z ∧
  url (run U events (constructor window options h))
    = url (constructor window options h) ∧
  reconnectInterval (run U events (constructor window options h))
    = reconnectInterval (constructor window options h) ∧
  ∀ i s, sockets (run U events (constructor window options h)) !! i = Some s →
         sock_url s = url (constructor window options h).
Proof.
  split; [|split].
  - simpl. destruct (opt_url options) as [u|]; [|apply getDefaultHost_not_empty].
    destruct (String.eqb_spec u ""); [apply getDefaultHost_not_empty|done].
  - simpl. destruct (opt_reconnectInterval options) as [n|]; [|done].
    destruct (Z.eqb_spec n 0); done.
  - destruct (session_run same_endpoint U events (constructor window options h))
      as (Hu & Hi & Hs); [done|].
    split; [done|]. split; [done|]. intros i s Hin.
    by apply (Forall_lookup_1 _ _ _ _ (Hs (Forall_nil_2 _)) Hin).
Qed.

(** ** Handlers outlive connections *)

Ltac registry_leaf := by apply preserves_modify.

Section Passive.
Context (U : UserCode) (HU : passive U).

Lemma passive_send ns ev data : preserves (unchanged registry) (send ns ev data).
Proof. unfold send, ws_send. repeat pres_step. registry_leaf. Qed.

Lemma passive_script script :
  registry_free script = true → preserves (unchanged registry) (run_script script).
Proof.
  induction script as [|c script IH]; simpl; intros H; [pres_step|].
  apply andb_true_iff in H as [Hc H].
  destruct c; try discriminate Hc; repeat pres_step; auto using passive_send.
Qed.

Lemma passive_call_handler ns ev cb data :
  preserves (unchanged registry) (call_handler U ns ev cb data).
Proof.
  unfold call_handler, record_call. rewrite (proj1 HU). simpl.
  repeat pres_step. registry_leaf.
Qed.

Lemma passive_call_ready cb id :
  preserves (unchanged registry) (call_ready U cb id).
Proof.
  unfold call_ready, record_call. repeat pres_step; [registry_leaf|].
  apply passive_script, HU.
Qed.

Lemma passive_for_of_callbacks steps i ns ev data :
  preserves (unchanged registry) (for_of_callbacks U steps i ns ev data).
Proof.
  revert i. induction steps as [|k IH]; intros i; simpl; repeat pres_step;
    auto using passive_call_handler.
  unfold console_error. registry_leaf.
Qed.

Lemma passive_handleEvent ns ev data :
  preserves (unchanged registry) (_handleEvent U ns ev data).
Proof.
  unfold _handleEvent. repeat pres_step. apply passive_for_of_callbacks.
Qed.

Lemma passive_onmessage p : preserves (unchanged registry) (onmessage U p).
Proof.
  unfold onmessage, read, handle_frame, console_error.
  pres_step; [|registry_leaf].
  pres_step; [destruct p; simpl; pres_step|].
  repeat pres_step;
    first [ apply passive_handleEvent | apply passive_call_ready | registry_leaf ].
Qed.

Lemma passive_exec (e : Event) (w : World) :
  plugins w = [] → registry_event e = false →
  registry (exec U e w).2 = registry w.
Proof.
  intros Hnone He.
  destruct e; try discriminate He; simpl.
  - rewrite connect_effect. simpl. by destruct (_ || _).
  - destruct (ws w) as [i|] eqn:Hws.
    + rewrite (disconnect_with_transport _ _ Hws), Hnone. simpl.
      unfold registry. simpl. destruct (disconnecting_frame i w) as [Hp _].
      unfold disconnecting, ws_close. unfold_M.
      destruct (reconnectTimer w); simpl; by rewrite Hnone.
    + rewrite (disconnect_without_transport _ Hws). simpl.
      by destruct (reconnectTimer w).
  - apply passive_send.
  - done.
  - done.
  - apply (preserves_get_bind (unchanged registry)). intros w0.
    destruct (truthy (clientId w0)); [apply passive_call_ready|done].
  - rewrite unregisterPlugin_unknown; [done|]. by rewrite Hnone.
  - unfold_M. by destruct (forallb _ _).
  - unfold_M. by destruct (_ && _).
  - unfold set_socket_state. unfold_M. destruct (bool_decide _); [|done]. simpl.
    rewrite onopen_effect.
    etrans; [apply passive_handleEvent|]. unfold opened. simpl.
    by destruct (reconnectTimer w).
  - unfold set_socket_state. unfold_M.
    assert (∀ w0, registry (onclose U w0).2 = registry w0) as Hclose.
    { intros w0. rewrite onclose_effect. simpl.
      pose proof (passive_handleEvent "system" "disconnected" JNull
                    (with_clientId JNull (with_isConnecting false w0))) as H.
      unfold unchanged, registry, rearm in *. simpl in *.
      by destruct (autoReconnect _). }
    destruct (socket_state w i) as [[]|]; try done; simpl; by rewrite Hclose.
  - unfold_M. destruct (bool_decide _); [|done]. apply passive_handleEvent.
  - unfold_M. destruct (socket_state w i) as [[]|]; try done; apply passive_onmessage.
  - unfold_M. destruct (bool_decide _); [|done]. simpl.
    rewrite connect_effect. simpl. by destruct (_ || _).
Qed.
End Passive.




(** X26. Handlers outlive connections. While no plugin is registered and
    the application's callbacks neither register nor unregister handlers,
    the registry after any sequence of method calls (other than
    [registerEvent], the functions it returned and [registerPlugin]),
    transport events and timers is the registry before it: what was
    registered before a disconnect or a lost connection is still registered
    after the reconnection. *)
Theorem X26_handlers_outlive_connections
    (U : UserCode) (events : list Event) (w : World) :
  passive U → plugins w = [] →
  (∀ e, e ∈ events → registry_event e = false) →
  eventHandlers (run U events w) = eventHandlers w ∧
  plugins (run U events w) = [].
Proof.
  intros HU. revert w. induction events as [|e events IH]; intros w Hnone He;
    simpl; [done|].
  assert (registry (step U w e) = registry w) as Hstep
    by (apply (passive_exec U HU e w Hnone), He; by left).
  unfold registry in Hstep. injection Hstep as Heh Hpl.
  destruct (IH (step U w e)) as [Heh' Hpl'].
  - congruence.
  - intros e' He'. apply He. by right.
  - split; congruence.
Qed.

Lemma X26_witness :
  set_members
    (callbacks_of
       (eventHandlers
          (run quiet
             [EConnect; EOpen 0; ESend "chat" "message" None; EDisconnect;
              EClose 0; EConnect; EClose 1; ETimer 1; EOpen 2]
             (registerEvent "chat" "message" 7 fresh_client).2))
       "chat" "message") = [7].
Proof.
  assert (passive quiet) as HU by (split; intros; reflexivity).
  rewrite (proj1 (X26_handlers_outlive_connections quiet
                    [EConnect; EOpen 0; ESend "chat" "message" None; EDisconnect;
                     EClose 0; EConnect; EClose 1; ETimer 1; EOpen 2]
                    (registerEvent "chat" "message" 7 fresh_client).2
                    HU eq_refl
                    ltac:(intros e He; repeat (apply elem_of_cons in He as [->|He];
                                                [reflexivity|]);
                          by apply elem_of_nil in He))).
  reflexivity.
Defined.

(** ** Lifecycle events *)

(** X27. An open event is dispatched as [system:connected] with [null], a
    close event as [system:disconnected] with [null] and an error event as
    [system:error] with the error: the handlers registered for that pair are
    called as in any dispatch, and no other application code is called. *)
Theorem X27_lifecycle_events_reach_their_handlers (U : UserCode) (w : World) :
  (∃ invoked,
     calls (onopen U w).2 =
       calls w ++ ((fun c => CallHandler "system" "connected" c JNull) <$> invoked) ∧
     dispatched U "system" "connected" JNull
       (set_members (callbacks_of (eventHandlers w) "system" "connected")) invoked) ∧
  (∃ invoked,
     calls (onclose U w).2 =
       calls w ++ ((fun c => CallHandler "system" "disconnected" c JNull) <$> invoked) ∧
     dispatched U "system" "disconnected" JNull
       (set_members (callbacks_of (eventHandlers w) "system" "disconnected")) invoked) ∧
  (∀ error, ∃ invoked,
     calls (onerror U error w).2 =
       calls w ++ ((fun c => CallHandler "system" "error" c error) <$> invoked) ∧
     dispatched U "system" "error" error
       (set_members (callbacks_of (eventHandlers w) "system" "error")) invoked).
Proof.
  split; [|split].
  - rewrite onopen_effect.
    destruct (handleEvent_spec U "system" "connected" JNull (opened w))
      as (invoked & w' & -> & Hcalls & Hd).
    exists invoked. simpl.
    assert (calls (opened w) = calls w ∧ eventHandlers (opened w) = eventHandlers w)
      as [Hc He] by (unfold opened; by destruct (reconnectTimer w)).
    by rewrite Hcalls, Hc, <-He.
  - rewrite onclose_effect.
    destruct (handleEvent_spec U "system" "disconnected" JNull
                (with_clientId JNull (with_isConnecting false w)))
      as (invoked & w' & -> & Hcalls & Hd).
    exists invoked. simpl. split; [|done].
    unfold rearm. by destruct (autoReconnect w').
  - intros error. unfold onerror.
    destruct (handleEvent_spec U "system" "error" error w)
      as (invoked & w' & -> & Hcalls & Hd).
    by exists invoked.
Qed.

(** ** One ready callback *)

Lemma ready_unknown_id (U : UserCode) (cb : cbid) (w : World) :
  truthy (clientId w) = false → ready U cb w = (Ok tt, with_onReady (Some cb) w).
Proof. intros H. unfold ready. unfold_M. by rewrite H. Qed.

Lemma filter_other_ready_call (cb cb' : cbid) (id : json) :
  cb' ≠ cb →
  filter (fun c => is_ready_call cb c = true) [CallReady cb' id] = [].
Proof.
  intros Hne. rewrite filter_cons_False; [done|]. simpl.
  by rewrite bool_decide_eq_false_2.
Qed.

(** X28. One ready callback is stored at a time: a second [ready] while the
    client id is unknown replaces the callback stored by the first. The next
    [system:init] frame calls the second callback with the frame's id and
    does not call the first. *)
Theorem X28_second_ready_replaces_the_first
    (U : UserCode) (cb1 cb2 : cbid) (w : World) :
  truthy (clientId w) = false → cb1 ≠ cb2 →
  onReady (ready U cb2 (ready U cb1 w).2).2 = Some cb2 ∧
  ∀ message data id,
    get_prop message "namespace" = Ok (JStr "system") →
    get_prop message "event" = Ok (JStr "init") →
    get_prop message "data" = Ok data →
    get_prop data "clientId" = Ok id →
    CallReady cb2 id
      ∈ calls (onmessage U (Parsed message) (ready U cb2 (ready U cb1 w).2).2).2 ∧
    ready_calls cb1 (onmessage U (Parsed message) (ready U cb2 (ready U cb1 w).2).2).2
      = ready_calls cb1 w.
Proof.
  intros Hunknown Hne.
  rewrite (ready_unknown_id U cb1 w Hunknown). simpl.
  rewrite (ready_unknown_id U cb2 (with_onReady (Some cb1) w) Hunknown). simpl.
  split; [done|]. intros message data id Hns Hev Hdata Hid.
  set (w2 := with_onReady (Some cb2) (with_onReady (Some cb1) w)).
  destruct (ready_calls_after_init U cb2 w2 message data id eq_refl Hns Hev Hdata Hid)
    as [_ Hin].
  split; [exact Hin|].
  rewrite (onmessage_init U w2 message data id Hns Hev Hdata Hid). simpl.
  destruct (call_ready_effect U cb2 id (with_clientId id w2)) as [Hc _].
  destruct (call_ready U cb2 id (with_clientId id w2)) as [[[]|e] w3]; simpl in Hc.
  - destruct (handleEvent_effect U "system" "init" data w3) as [[inv Hh] _].
    unfold ready_calls. rewrite Hh, Hc. simpl.
    by rewrite !filter_app, filter_ready_handler_calls, filter_other_ready_call,
         !app_nil_r.
  - unfold ready_calls. simpl. rewrite Hc. simpl.
    by rewrite filter_app, filter_other_ready_call, app_nil_r.
Qed.

Lemma X28_witness :
  onReady (ready quiet 8 (ready quiet 7 fresh_client).2).2 = Some 8.
Proof.
  refine (proj1 (X28_second_ready_replaces_the_first quiet 7 8 fresh_client
                   eq_refl _)).
  discriminate.
Defined.
